(** * politeia: the fonero plugin of the record cache

    A shallow embedding of the cockroachdb cache plugin
    (package [cockroachdb]: the command handlers, [newVoteResults], the
    conversion functions) and of the in-memory test cache (package
    [testcache]), followed by the properties of the vote tally, the
    authorize-vote table, the inventory gate, ballots and comments.

    Go values are modelled as follows: [uint64], [uint32], [int64] and
    [int] as [Z] (with the 64-bit wrap-around written out where the code
    does arithmetic), [float64] as IEEE binary64 through the executable
    specification [SpecFloat], [string] as [string], slices as lists and
    Go maps as [gmap]. *)

From Stdlib Require Import ZArith String Ascii SpecFloat.
From Stdlib Require DecimalString HexadecimalString.
From Stdlib Require DecimalPos DecimalN.
From stdpp Require Import base tactics option list sorting strings gmap.

Local Open Scope string_scope.
Local Open Scope list_scope.
Local Open Scope Z_scope.

(** ** The Go runtime and standard library, as far as the plugin uses them *)

Module Go.

(** Arithmetic on [uint64] wraps around. *)
Definition u64 (z : Z) : Z := z mod 2 ^ 64.

Definition MaxUint64 : Z := 2 ^ 64 - 1.

(** [strings.Split(s, sep)] for a separator of one character (the
    plugin only splits on [","]): the pieces between the separators, so
    a string without separator, the empty one included, gives one
    piece. *)
Fixpoint Split (s : string) (sep : ascii) : list string :=
  match s with
  | EmptyString => [EmptyString]
  | String a s' =>
      if Ascii.eqb a sep then EmptyString :: Split s' sep
      else match Split s' sep with
           | [] => [String a EmptyString]
           | piece :: pieces => String a piece :: pieces
           end
  end.

(** [strings.Join(elems, sep)]. *)
Fixpoint Join (elems : list string) (sep : string) : string :=
  match elems with
  | [] => ""
  | [e] => e
  | e :: rest => e +:+ sep +:+ Join rest sep
  end.

(** [strconv.FormatUint(v, 10)], also [fmt.Sprint] of a [uint64]. *)
Definition FormatUint10 (v : Z) : string :=
  DecimalString.NilEmpty.string_of_uint (N.to_uint (Z.to_N v)).

(** [strconv.FormatUint(v, 16)]: lower-case digits, no prefix. *)
Definition FormatUint16 (v : Z) : string :=
  HexadecimalString.NilEmpty.string_of_uint (N.to_hex_uint (Z.to_N v)).

Definition digit_of_ascii (a : ascii) : option Z :=
  let n := Z.of_N (N_of_ascii a) in
  if (48 <=? n) && (n <=? 57) then Some (n - 48) else None.

Fixpoint parse_digits (acc : Z) (s : string) : option Z :=
  match s with
  | EmptyString => Some acc
  | String a s' =>
      match digit_of_ascii a with
      | Some d => parse_digits (10 * acc + d) s'
      | None => None
      end
  end.

(** [strconv.ParseUint(s, 10, 64)]: a non-empty string of decimal
    digits whose value fits 64 bits; anything else is an error. *)
Definition ParseUint10 (s : string) : option Z :=
  match s with
  | EmptyString => None
  | _ => match parse_digits 0 s with
         | Some v => if v <=? MaxUint64 then Some v else None
         | None => None
         end
  end.

(** *** float64 *)

Definition prec : Z := 53.
Definition emax : Z := 1024.

Definition float64 : Type := spec_float.

(** The conversion [float64(n)] of an unsigned integer rounds to the
    nearest representable value, ties to even. *)
Definition float64_of_uint (n : Z) : float64 :=
  binary_normalize prec emax n 0 false.

Definition fdiv (x y : float64) : float64 := SFdiv prec emax x y.
Definition fmul (x y : float64) : float64 := SFmul prec emax x y.

(** The integer part of a finite value (rounding toward zero). *)
Definition truncate (f : float64) : Z :=
  match f with
  | S754_finite s m e =>
      let v := match e with
               | Z0 => Zpos m
               | Zpos _ => Z.shiftl (Zpos m) e
               | Zneg p => Z.shiftr (Zpos m) (Zpos p)
               end in
      if s then - v else v
  | _ => 0
  end.

(** The conversion [uint64(f)] discards the fraction.  Go leaves the
    result to the implementation when the value does not fit 64 bits;
    the model wraps it. *)
Definition uint64_of_float64 (f : float64) : Z := u64 (truncate f).

End Go.

(** ** Errors *)

Inductive error : Type :=
| ErrRecordNotFound                        (* cache.ErrRecordNotFound *)
| ErrInvalidPluginCmd                      (* cache.ErrInvalidPluginCmd *)
| gormErrRecordNotFound                    (* gorm.ErrRecordNotFound *)
| ErrStorage                               (* a failure of the database *)
| ErrDuplicateKey                          (* a primary key inserted twice *)
| ErrCodec (msg : string)                  (* an error of a foneroplugin codec *)
| ErrParseUint (s : string)                (* an error of strconv.ParseUint *)
| Errorf (context : string) (cause : error). (* fmt.Errorf("context: %v", cause) *)

Global Instance error_eq_dec : EqDecision error.
Proof. solve_decision. Defined.

(** The pair (value, error) a fallible Go function returns, when the
    value is only meaningful without error. *)
Inductive res (A : Type) : Type :=
| Ok (a : A)
| Err (e : error).
Global Arguments Ok {A} a.
Global Arguments Err {A} e.

(** ** Package foneroplugin: the payloads of the plugin commands

    The package is not among the sources; each structure has the fields
    the cache reads or writes. *)

Module foneroplugin.

Record NewComment := {
  NewComment_Token : string;
  NewComment_ParentID : string;
  NewComment_Comment : string;
  NewComment_Signature : string;
  NewComment_PublicKey : string }.

Record NewCommentReply := {
  NewCommentReply_CommentID : string;
  NewCommentReply_Receipt : string;
  NewCommentReply_Timestamp : Z }.

Record Comment := {
  Comment_Token : string;
  Comment_ParentID : string;
  Comment_Comment : string;
  Comment_Signature : string;
  Comment_PublicKey : string;
  Comment_CommentID : string;
  Comment_Receipt : string;
  Comment_Timestamp : Z;
  Comment_TotalVotes : Z;
  Comment_ResultVotes : Z;
  Comment_Censored : bool }.

Record LikeComment := {
  LikeComment_Token : string;
  LikeComment_CommentID : string;
  LikeComment_Action : string;
  LikeComment_Signature : string;
  LikeComment_PublicKey : string }.

Record CensorComment := {
  CensorComment_Token : string;
  CensorComment_CommentID : string }.

Record GetComment := {
  GetComment_Token : string;
  GetComment_CommentID : string }.

Record GetCommentReply := { GetCommentReply_Comment : Comment }.

Record GetComments := { GetComments_Token : string }.

Record GetCommentsReply := { GetCommentsReply_Comments : list Comment }.

Record CommentLikes := {
  CommentLikes_Token : string;
  CommentLikes_CommentID : string }.

Record CommentLikesReply := { CommentLikesReply_CommentLikes : list LikeComment }.

Record GetProposalCommentsLikes := { GetProposalCommentsLikes_Token : string }.

Record GetProposalCommentsLikesReply := {
  GetProposalCommentsLikesReply_CommentsLikes : list LikeComment }.

Record AuthorizeVote := {
  AuthorizeVote_Action : string;
  AuthorizeVote_Token : string;
  AuthorizeVote_Signature : string;
  AuthorizeVote_PublicKey : string;
  AuthorizeVote_Receipt : string;
  AuthorizeVote_Timestamp : Z }.

Record AuthorizeVoteReply := {
  AuthorizeVoteReply_Action : string;
  AuthorizeVoteReply_RecordVersion : string;
  AuthorizeVoteReply_Receipt : string;
  AuthorizeVoteReply_Timestamp : Z }.

Record VoteOption := {
  VoteOption_Id : string;
  VoteOption_Description : string;
  VoteOption_Bits : Z }.

Record Vote := {
  Vote_Token : string;
  Vote_Mask : Z;
  Vote_Duration : Z;
  Vote_QuorumPercentage : Z;
  Vote_PassPercentage : Z;
  Vote_Options : list VoteOption }.

Record StartVote := {
  StartVote_PublicKey : string;
  StartVote_Vote : Vote;
  StartVote_Signature : string }.

Record StartVoteReply := {
  StartVoteReply_StartBlockHeight : string;
  StartVoteReply_StartBlockHash : string;
  StartVoteReply_EndHeight : string;
  StartVoteReply_EligibleTickets : list string }.

Record VoteDetails := { VoteDetails_Token : string }.

Record VoteDetailsReply := {
  VoteDetailsReply_AuthorizeVote : AuthorizeVote;
  VoteDetailsReply_StartVote : StartVote;
  VoteDetailsReply_StartVoteReply : StartVoteReply }.

Record CastVote := {
  CastVote_Token : string;
  CastVote_Ticket : string;
  CastVote_VoteBit : string;
  CastVote_Signature : string }.

Record Ballot := { Ballot_Votes : list CastVote }.

Record VoteResults := { VoteResults_Token : string }.

Record VoteResultsReply := {
  VoteResultsReply_StartVote : StartVote;
  VoteResultsReply_CastVotes : list CastVote }.

Record InventoryReply := { InventoryReply_Comments : list Comment }.

Record LoadVoteResults := { LoadVoteResults_BestBlock : Z }.

Record LoadVoteResultsReply := { }.

Record TokenInventory := { TokenInventory_BestBlock : Z }.

Record TokenInventoryReply := {
  TokenInventoryReply_Pre : list string;
  TokenInventoryReply_Active : list string;
  TokenInventoryReply_Approved : list string;
  TokenInventoryReply_Rejected : list string;
  TokenInventoryReply_Abandoned : list string }.

Record VoteSummary := { VoteSummary_Token : string }.

Record VoteOptionResult := {
  VoteOptionResult_ID : string;
  VoteOptionResult_Description : string;
  VoteOptionResult_Bits : Z;
  VoteOptionResult_Votes : Z }.

Record VoteSummaryReply := {
  VoteSummaryReply_Authorized : bool;
  VoteSummaryReply_EndHeight : string;
  VoteSummaryReply_EligibleTicketCount : Z;
  VoteSummaryReply_QuorumPercentage : Z;
  VoteSummaryReply_PassPercentage : Z;
  VoteSummaryReply_Results : list VoteOptionResult }.

(** Modelled from the spec: the names of the commands (section 6) and of
    the two actions of an authorize vote are constants of the package. *)
Definition CmdAuthorizeVote := "authorizevote".
Definition CmdStartVote := "startvote".
Definition CmdVoteDetails := "votedetails".
Definition CmdBallot := "ballot".
Definition CmdBestBlock := "bestblock".
Definition CmdNewComment := "newcomment".
Definition CmdLikeComment := "likecomment".
Definition CmdCensorComment := "censorcomment".
Definition CmdGetComment := "getcomment".
Definition CmdGetComments := "getcomments".
Definition CmdProposalVotes := "proposalvotes".
Definition CmdCommentLikes := "commentlikes".
Definition CmdProposalCommentsLikes := "proposalcommentslikes".
Definition CmdInventory := "inventory".
Definition CmdLoadVoteResults := "loadvoteresults".
Definition CmdTokenInventory := "tokeninventory".
Definition CmdVoteSummary := "votesummary".

Definition AuthVoteActionAuthorize := "authorize".
Definition AuthVoteActionRevoke := "revoke".

End foneroplugin.

(** The codecs of package foneroplugin and the record statuses of
    politeiad's API are parameters of the cache: a decoder fails with an
    error or gives the structure, an encoder gives the payload. *)
Class Codec := {
  DecodeNewComment : string → res foneroplugin.NewComment;
  DecodeNewCommentReply : string → res foneroplugin.NewCommentReply;
  DecodeLikeComment : string → res foneroplugin.LikeComment;
  DecodeCensorComment : string → res foneroplugin.CensorComment;
  DecodeGetComment : string → res foneroplugin.GetComment;
  EncodeGetCommentReply : foneroplugin.GetCommentReply → res string;
  DecodeGetComments : string → res foneroplugin.GetComments;
  EncodeGetCommentsReply : foneroplugin.GetCommentsReply → res string;
  DecodeCommentLikes : string → res foneroplugin.CommentLikes;
  EncodeCommentLikesReply : foneroplugin.CommentLikesReply → res string;
  DecodeGetProposalCommentsLikes : string → res foneroplugin.GetProposalCommentsLikes;
  EncodeGetProposalCommentsLikesReply :
    foneroplugin.GetProposalCommentsLikesReply → res string;
  DecodeAuthorizeVote : string → res foneroplugin.AuthorizeVote;
  DecodeAuthorizeVoteReply : string → res foneroplugin.AuthorizeVoteReply;
  DecodeStartVote : string → res foneroplugin.StartVote;
  DecodeStartVoteReply : string → res foneroplugin.StartVoteReply;
  DecodeVoteDetails : string → res foneroplugin.VoteDetails;
  EncodeVoteDetailsReply : foneroplugin.VoteDetailsReply → res string;
  DecodeBallot : string → res foneroplugin.Ballot;
  DecodeVoteResults : string → res foneroplugin.VoteResults;
  EncodeVoteResultsReply : foneroplugin.VoteResultsReply → res string;
  EncodeInventoryReply : foneroplugin.InventoryReply → res string;
  DecodeLoadVoteResults : string → res foneroplugin.LoadVoteResults;
  EncodeLoadVoteResultsReply : foneroplugin.LoadVoteResultsReply → res string;
  DecodeTokenInventory : string → res foneroplugin.TokenInventory;
  EncodeTokenInventoryReply : foneroplugin.TokenInventoryReply → res string;
  DecodeVoteSummary : string → res foneroplugin.VoteSummary;
  EncodeVoteSummaryReply : foneroplugin.VoteSummaryReply → res string;
  RecordStatusPublic : Z;
  RecordStatusArchived : Z }.

(** ** Package cockroachdb: the rows of the tables *)

(** Modelled from the spec: the declarations of the tables are not among
    the sources.  The rows have the fields the conversion functions and
    the handlers use, and the keys of the data model (section 3): a
    comment, an authorize vote and a record are identified by their
    [Key], a start vote and a vote result by their [Token]; cast votes
    and comment likes are stored as they arrive.  The options of a start
    vote and the option results of a vote result are kept inside their
    parent row, as [Preload] returns them.  Of a record row only the
    columns the plugin queries are kept. *)
Record Record_ := {
  Record_Key : string;
  Record_Token : string;
  Record_Version : Z;
  Record_Status : Z;
  Record_Timestamp : Z }.

Record Comment := {
  Comment_Key : string;
  Comment_Token : string;
  Comment_ParentID : string;
  Comment_Comment : string;
  Comment_Signature : string;
  Comment_PublicKey : string;
  Comment_CommentID : string;
  Comment_Receipt : string;
  Comment_Timestamp : Z;
  Comment_Censored : bool }.

Record LikeComment := {
  LikeComment_Token : string;
  LikeComment_CommentID : string;
  LikeComment_Action : string;
  LikeComment_Signature : string;
  LikeComment_PublicKey : string }.

Record AuthorizeVote := {
  AuthorizeVote_Key : string;
  AuthorizeVote_Token : string;
  AuthorizeVote_Version : Z;
  AuthorizeVote_Action : string;
  AuthorizeVote_Signature : string;
  AuthorizeVote_PublicKey : string;
  AuthorizeVote_Receipt : string;
  AuthorizeVote_Timestamp : Z }.

Record VoteOption := {
  VoteOption_Token : string;
  VoteOption_ID : string;
  VoteOption_Description : string;
  VoteOption_Bits : Z }.

Record StartVote := {
  StartVote_Token : string;
  StartVote_Mask : Z;
  StartVote_Duration : Z;
  StartVote_QuorumPercentage : Z;
  StartVote_PassPercentage : Z;
  StartVote_Options : list VoteOption;
  StartVote_PublicKey : string;
  StartVote_Signature : string;
  StartVote_StartBlockHeight : string;
  StartVote_StartBlockHash : string;
  StartVote_EndHeight : Z;
  StartVote_EligibleTickets : string;
  StartVote_EligibleTicketCount : Z }.

Record CastVote := {
  CastVote_Token : string;
  CastVote_Ticket : string;
  CastVote_VoteBit : string;
  CastVote_Signature : string;
  CastVote_TokenVoteBit : string }.

Record VoteOptionResult := {
  VoteOptionResult_Key : string;
  VoteOptionResult_Votes : Z;
  VoteOptionResult_Option : VoteOption }.

Record VoteResults := {
  VoteResults_Token : string;
  VoteResults_Approved : bool;
  VoteResults_Results : list VoteOptionResult }.

(** The zero values of the structures a lookup leaves untouched. *)
Definition zeroAuthorizeVote : AuthorizeVote :=
  {| AuthorizeVote_Key := ""; AuthorizeVote_Token := "";
     AuthorizeVote_Version := 0; AuthorizeVote_Action := "";
     AuthorizeVote_Signature := ""; AuthorizeVote_PublicKey := "";
     AuthorizeVote_Receipt := ""; AuthorizeVote_Timestamp := 0 |}.

Definition zeroStartVote : StartVote :=
  {| StartVote_Token := ""; StartVote_Mask := 0; StartVote_Duration := 0;
     StartVote_QuorumPercentage := 0; StartVote_PassPercentage := 0;
     StartVote_Options := []; StartVote_PublicKey := "";
     StartVote_Signature := ""; StartVote_StartBlockHeight := "";
     StartVote_StartBlockHash := ""; StartVote_EndHeight := 0;
     StartVote_EligibleTickets := ""; StartVote_EligibleTicketCount := 0 |}.

(** Vote option IDs *)
Definition voteOptionIDApproved : string := "yes".

(** ** The conversions between payloads and rows *)

Definition convertNewCommentFromFonero (nc : foneroplugin.NewComment)
    (ncr : foneroplugin.NewCommentReply) : Comment :=
  {| Comment_Key := foneroplugin.NewComment_Token nc
                      +:+ foneroplugin.NewCommentReply_CommentID ncr;
     Comment_Token := foneroplugin.NewComment_Token nc;
     Comment_ParentID := foneroplugin.NewComment_ParentID nc;
     Comment_Comment := foneroplugin.NewComment_Comment nc;
     Comment_Signature := foneroplugin.NewComment_Signature nc;
     Comment_PublicKey := foneroplugin.NewComment_PublicKey nc;
     Comment_CommentID := foneroplugin.NewCommentReply_CommentID ncr;
     Comment_Receipt := foneroplugin.NewCommentReply_Receipt ncr;
     Comment_Timestamp := foneroplugin.NewCommentReply_Timestamp ncr;
     Comment_Censored := false |}.

Definition convertCommentToFonero (c : Comment) : foneroplugin.Comment :=
  {| foneroplugin.Comment_Token := Comment_Token c;
     foneroplugin.Comment_ParentID := Comment_ParentID c;
     foneroplugin.Comment_Comment := Comment_Comment c;
     foneroplugin.Comment_Signature := Comment_Signature c;
     foneroplugin.Comment_PublicKey := Comment_PublicKey c;
     foneroplugin.Comment_CommentID := Comment_CommentID c;
     foneroplugin.Comment_Receipt := Comment_Receipt c;
     foneroplugin.Comment_Timestamp := Comment_Timestamp c;
     foneroplugin.Comment_TotalVotes := 0;
     foneroplugin.Comment_ResultVotes := 0;
     foneroplugin.Comment_Censored := Comment_Censored c |}.

Definition convertLikeCommentFromFonero (lc : foneroplugin.LikeComment)
    : LikeComment :=
  {| LikeComment_Token := foneroplugin.LikeComment_Token lc;
     LikeComment_CommentID := foneroplugin.LikeComment_CommentID lc;
     LikeComment_Action := foneroplugin.LikeComment_Action lc;
     LikeComment_Signature := foneroplugin.LikeComment_Signature lc;
     LikeComment_PublicKey := foneroplugin.LikeComment_PublicKey lc |}.

Definition convertLikeCommentToFonero (lc : LikeComment)
    : foneroplugin.LikeComment :=
  {| foneroplugin.LikeComment_Token := LikeComment_Token lc;
     foneroplugin.LikeComment_CommentID := LikeComment_CommentID lc;
     foneroplugin.LikeComment_Action := LikeComment_Action lc;
     foneroplugin.LikeComment_Signature := LikeComment_Signature lc;
     foneroplugin.LikeComment_PublicKey := LikeComment_PublicKey lc |}.

Definition convertAuthorizeVoteFromFonero (av : foneroplugin.AuthorizeVote)
    (avr : foneroplugin.AuthorizeVoteReply) (version : Z) : AuthorizeVote :=
  {| AuthorizeVote_Key := foneroplugin.AuthorizeVote_Token av
                            +:+ foneroplugin.AuthorizeVoteReply_RecordVersion avr;
     AuthorizeVote_Token := foneroplugin.AuthorizeVote_Token av;
     AuthorizeVote_Version := version;
     AuthorizeVote_Action := foneroplugin.AuthorizeVote_Action av;
     AuthorizeVote_Signature := foneroplugin.AuthorizeVote_Signature av;
     AuthorizeVote_PublicKey := foneroplugin.AuthorizeVote_PublicKey av;
     AuthorizeVote_Receipt := foneroplugin.AuthorizeVoteReply_Receipt avr;
     AuthorizeVote_Timestamp := foneroplugin.AuthorizeVoteReply_Timestamp avr |}.

Definition convertAuthorizeVoteToFonero (av : AuthorizeVote)
    : foneroplugin.AuthorizeVote :=
  {| foneroplugin.AuthorizeVote_Action := AuthorizeVote_Action av;
     foneroplugin.AuthorizeVote_Token := AuthorizeVote_Token av;
     foneroplugin.AuthorizeVote_Signature := AuthorizeVote_Signature av;
     foneroplugin.AuthorizeVote_PublicKey := AuthorizeVote_PublicKey av;
     foneroplugin.AuthorizeVote_Receipt := AuthorizeVote_Receipt av;
     foneroplugin.AuthorizeVote_Timestamp := AuthorizeVote_Timestamp av |}.

Definition convertStartVoteFromFonero (sv : foneroplugin.StartVote)
    (svr : foneroplugin.StartVoteReply) (endHeight : Z) : StartVote :=
  let vote := foneroplugin.StartVote_Vote sv in
  let opts :=
    (λ v, {| VoteOption_Token := foneroplugin.Vote_Token vote;
             VoteOption_ID := foneroplugin.VoteOption_Id v;
             VoteOption_Description := foneroplugin.VoteOption_Description v;
             VoteOption_Bits := foneroplugin.VoteOption_Bits v |})
      <$> foneroplugin.Vote_Options vote in
  {| StartVote_Token := foneroplugin.Vote_Token vote;
     StartVote_Mask := foneroplugin.Vote_Mask vote;
     StartVote_Duration := foneroplugin.Vote_Duration vote;
     StartVote_QuorumPercentage := foneroplugin.Vote_QuorumPercentage vote;
     StartVote_PassPercentage := foneroplugin.Vote_PassPercentage vote;
     StartVote_Options := opts;
     StartVote_PublicKey := foneroplugin.StartVote_PublicKey sv;
     StartVote_Signature := foneroplugin.StartVote_Signature sv;
     StartVote_StartBlockHeight := foneroplugin.StartVoteReply_StartBlockHeight svr;
     StartVote_StartBlockHash := foneroplugin.StartVoteReply_StartBlockHash svr;
     StartVote_EndHeight := endHeight;
     StartVote_EligibleTickets :=
       Go.Join (foneroplugin.StartVoteReply_EligibleTickets svr) ",";
     StartVote_EligibleTicketCount :=
       Z.of_nat (length (foneroplugin.StartVoteReply_EligibleTickets svr)) |}.

Definition convertStartVoteToFonero (sv : StartVote)
    : foneroplugin.StartVote * foneroplugin.StartVoteReply :=
  let opts :=
    (λ v, {| foneroplugin.VoteOption_Id := VoteOption_ID v;
             foneroplugin.VoteOption_Description := VoteOption_Description v;
             foneroplugin.VoteOption_Bits := VoteOption_Bits v |})
      <$> StartVote_Options sv in
  let dsv :=
    {| foneroplugin.StartVote_PublicKey := StartVote_PublicKey sv;
       foneroplugin.StartVote_Signature := StartVote_Signature sv;
       foneroplugin.StartVote_Vote :=
         {| foneroplugin.Vote_Token := StartVote_Token sv;
            foneroplugin.Vote_Mask := StartVote_Mask sv;
            foneroplugin.Vote_Duration := StartVote_Duration sv;
            foneroplugin.Vote_QuorumPercentage := StartVote_QuorumPercentage sv;
            foneroplugin.Vote_PassPercentage := StartVote_PassPercentage sv;
            foneroplugin.Vote_Options := opts |} |} in
  let tix :=
    if decide (StartVote_EligibleTickets sv = "") then []
    else Go.Split (StartVote_EligibleTickets sv) "," in
  let dsvr :=
    {| foneroplugin.StartVoteReply_StartBlockHeight := StartVote_StartBlockHeight sv;
       foneroplugin.StartVoteReply_StartBlockHash := StartVote_StartBlockHash sv;
       foneroplugin.StartVoteReply_EndHeight :=
         Go.FormatUint10 (StartVote_EndHeight sv);
       foneroplugin.StartVoteReply_EligibleTickets := tix |} in
  (dsv, dsvr).

Definition convertCastVoteFromFonero (cv : foneroplugin.CastVote) : CastVote :=
  {| CastVote_Token := foneroplugin.CastVote_Token cv;
     CastVote_Ticket := foneroplugin.CastVote_Ticket cv;
     CastVote_VoteBit := foneroplugin.CastVote_VoteBit cv;
     CastVote_Signature := foneroplugin.CastVote_Signature cv;
     CastVote_TokenVoteBit := foneroplugin.CastVote_Token cv
                                +:+ foneroplugin.CastVote_VoteBit cv |}.

Definition convertCastVoteToFonero (cv : CastVote) : foneroplugin.CastVote :=
  {| foneroplugin.CastVote_Token := CastVote_Token cv;
     foneroplugin.CastVote_Ticket := CastVote_Ticket cv;
     foneroplugin.CastVote_VoteBit := CastVote_VoteBit cv;
     foneroplugin.CastVote_Signature := CastVote_Signature cv |}.

Definition convertVoteOptionResultToFonero (r : VoteOptionResult)
    : foneroplugin.VoteOptionResult :=
  {| foneroplugin.VoteOptionResult_ID := VoteOption_ID (VoteOptionResult_Option r);
     foneroplugin.VoteOptionResult_Description :=
       VoteOption_Description (VoteOptionResult_Option r);
     foneroplugin.VoteOptionResult_Bits := VoteOption_Bits (VoteOptionResult_Option r);
     foneroplugin.VoteOptionResult_Votes := VoteOptionResult_Votes r |}.

Definition convertVoteOptionResultsToFonero (r : list VoteOptionResult)
    : list foneroplugin.VoteOptionResult :=
  convertVoteOptionResultToFonero <$> r.

(** ** The database

    The handlers reach the database through gorm.  The model keeps the
    tables as lists of rows in insertion order, and a schedule of
    failures: every statement sent to the database consumes the head of
    [faults] and fails with [ErrStorage] when it is [true]; a database
    whose schedule is empty never fails.  A lookup through a structure
    that carries its primary key is the where-clause on that key (gorm's
    treatment of a blank key is not modelled). *)

Record Tables := {
  records : list Record_;
  comments : list Comment;
  comment_likes : list LikeComment;
  cast_votes : list CastVote;
  authorize_votes : list AuthorizeVote;
  start_votes : list StartVote;
  vote_results : list VoteResults }.

Record DB := {
  tables : Tables;
  faults : list bool }.

Definition emptyTables : Tables :=
  {| records := []; comments := []; comment_likes := []; cast_votes := [];
     authorize_votes := []; start_votes := []; vote_results := [] |}.

(** A table of the schema: how to read and replace its rows, and its
    primary key when it has one. *)
Record Table (R : Type) := {
  rows : Tables → list R;
  put : list R → Tables → Tables;
  pkey : option (R → string) }.
Global Arguments rows {R} _ _.
Global Arguments put {R} _ _ _.
Global Arguments pkey {R} _.

Definition tableComments : Table Comment :=
  {| rows := comments;
     put l t := {| records := records t; comments := l;
                   comment_likes := comment_likes t; cast_votes := cast_votes t;
                   authorize_votes := authorize_votes t;
                   start_votes := start_votes t; vote_results := vote_results t |};
     pkey := Some Comment_Key |}.

Definition tableCommentLikes : Table LikeComment :=
  {| rows := comment_likes;
     put l t := {| records := records t; comments := comments t;
                   comment_likes := l; cast_votes := cast_votes t;
                   authorize_votes := authorize_votes t;
                   start_votes := start_votes t; vote_results := vote_results t |};
     pkey := None |}.

Definition tableCastVotes : Table CastVote :=
  {| rows := cast_votes;
     put l t := {| records := records t; comments := comments t;
                   comment_likes := comment_likes t; cast_votes := l;
                   authorize_votes := authorize_votes t;
                   start_votes := start_votes t; vote_results := vote_results t |};
     pkey := None |}.

Definition tableAuthorizeVotes : Table AuthorizeVote :=
  {| rows := authorize_votes;
     put l t := {| records := records t; comments := comments t;
                   comment_likes := comment_likes t; cast_votes := cast_votes t;
                   authorize_votes := l;
                   start_votes := start_votes t; vote_results := vote_results t |};
     pkey := Some AuthorizeVote_Key |}.

Definition tableStartVotes : Table StartVote :=
  {| rows := start_votes;
     put l t := {| records := records t; comments := comments t;
                   comment_likes := comment_likes t; cast_votes := cast_votes t;
                   authorize_votes := authorize_votes t;
                   start_votes := l; vote_results := vote_results t |};
     pkey := Some StartVote_Token |}.

Definition tableVoteResults : Table VoteResults :=
  {| rows := vote_results;
     put l t := {| records := records t; comments := comments t;
                   comment_likes := comment_likes t; cast_votes := cast_votes t;
                   authorize_votes := authorize_votes t;
                   start_votes := start_votes t; vote_results := l |};
     pkey := Some VoteResults_Token |}.

Definition tableRecords : Table Record_ :=
  {| rows := records;
     put l t := {| records := l; comments := comments t;
                   comment_likes := comment_likes t; cast_votes := cast_votes t;
                   authorize_votes := authorize_votes t;
                   start_votes := start_votes t; vote_results := vote_results t |};
     pkey := Some Record_Key |}.

(** One statement reaches the database: [true] when it goes through. *)
Definition step (db : DB) : bool * DB :=
  (negb (default false (head (faults db))),
   {| tables := tables db; faults := tail (faults db) |}).

Definition hasKey {R} (T : Table R) (r : R) (l : list R) : bool :=
  match pkey T with
  | Some key => bool_decide (key r ∈ key <$> l)
  | None => false
  end.

(** [db.Create(&r)]: the row is appended, unless its key is taken. *)
Definition Create {R} (T : Table R) (r : R) (db : DB) : DB * option error :=
  let '(ok, db) := step db in
  if ok then
    if hasKey T r (rows T (tables db)) then (db, Some ErrDuplicateKey)
    else ({| tables := put T (rows T (tables db) ++ [r]) (tables db);
             faults := faults db |}, None)
  else (db, Some ErrStorage).

(** [db.Where(...).Find(&slice)]: the matching rows; an empty result is
    no error (gorm empties the slice it is given before it fills it). *)
Definition FindAll {R} (T : Table R) (P : R → Prop) `{∀ r, Decision (P r)}
    (db : DB) : DB * res (list R) :=
  let '(ok, db) := step db in
  if ok then (db, Ok (filter P (rows T (tables db))))
  else (db, Err ErrStorage).

(** [db.Where(...).Find(&struct)]: the matching row, each row read
    overwriting the one before; [gorm.ErrRecordNotFound] when there is
    none. *)
Definition FindOne {R} (T : Table R) (P : R → Prop) `{∀ r, Decision (P r)}
    (db : DB) : DB * res R :=
  let '(ok, db) := step db in
  if ok then
    match last (filter P (rows T (tables db))) with
    | Some r => (db, Ok r)
    | None => (db, Err gormErrRecordNotFound)
    end
  else (db, Err ErrStorage).

(** [db.Model(&r).Updates(...)]: the matching rows are rewritten; it is
    no error when none matches. *)
Definition Updates {R} (T : Table R) (P : R → Prop) `{∀ r, Decision (P r)}
    (f : R → R) (db : DB) : DB * option error :=
  let '(ok, db) := step db in
  if ok then
    ({| tables := put T ((λ r, if decide (P r) then f r else r)
                           <$> rows T (tables db)) (tables db);
        faults := faults db |}, None)
  else (db, Some ErrStorage).

(** [db.Where(...).Delete(...)]. *)
Definition Delete {R} (T : Table R) (P : R → Prop) `{∀ r, Decision (P r)}
    (db : DB) : DB * option error :=
  let '(ok, db) := step db in
  if ok then
    ({| tables := put T (filter (λ r, ¬ P r) (rows T (tables db))) (tables db);
        faults := faults db |}, None)
  else (db, Some ErrStorage).

(** [db.Model(...).Where(...).Count(&n)]. *)
Definition Count {R} (T : Table R) (P : R → Prop) `{∀ r, Decision (P r)}
    (db : DB) : DB * res Z :=
  let '(ok, db) := step db in
  if ok then (db, Ok (Z.of_nat (length (filter P (rows T (tables db))))))
  else (db, Err ErrStorage).

(** [db.Raw(q, ...).Rows()] followed by the loop over [rows.Next()]. *)
Definition Rows {A} (q : Tables → list A) (db : DB) : DB * res (list A) :=
  let '(ok, db) := step db in
  if ok then (db, Ok (q (tables db))) else (db, Err ErrStorage).

(** Transactions: [Begin] hands out a working copy, [Commit] installs
    it, [Rollback] drops it; the failures consumed meanwhile stay
    consumed. *)
Definition Begin (db : DB) : DB := db.

Definition Rollback (db tx : DB) : DB :=
  {| tables := tables db; faults := faults tx |}.

Definition Commit (db tx : DB) : DB * option error :=
  let '(ok, tx) := step tx in
  if ok then (tx, None) else (Rollback db tx, Some ErrStorage).

(** [ORDER BY key DESC]; rows with equal keys keep the order of the
    table. *)
Definition descending {A} (key : A → Z) (a b : A) : Prop := key b ≤ key a.

Global Instance descending_dec {A} (key : A → Z) a b :
  Decision (descending key a b).
Proof. unfold descending. apply _. Defined.

Definition orderByDesc {A} (key : A → Z) (l : list A) : list A :=
  merge_sort (descending key) l.

(** What a handler gives back: the database, the reply payload and the
    error ([None] for [nil]). *)
Definition Reply : Type := DB * (string * option error).

(** ** The handlers of the plugin commands *)

Section handlers.
Context `{codec : Codec}.

(** newComment inserts a Comment record into the database. *)
Definition newComment (db : DB) (c : Comment) : DB * option error :=
  Create tableComments c db.

Definition cmdNewComment (cmdPayload replyPayload : string) (d : DB) : Reply :=
  match DecodeNewComment cmdPayload with
  | Err err => (d, ("", Some err))
  | Ok nc =>
      match DecodeNewCommentReply replyPayload with
      | Err err => (d, ("", Some err))
      | Ok ncr =>
          let c := convertNewCommentFromFonero nc ncr in
          let '(d, err) := newComment d c in
          (d, (replyPayload, err))
      end
  end.

Definition newLikeComment (db : DB) (lc : LikeComment) : DB * option error :=
  Create tableCommentLikes lc db.

Definition cmdLikeComment (cmdPayload replyPayload : string) (d : DB) : Reply :=
  match DecodeLikeComment cmdPayload with
  | Err err => (d, ("", Some err))
  | Ok dlc =>
      let lc := convertLikeCommentFromFonero dlc in
      let '(d, err) := newLikeComment d lc in
      (d, (replyPayload, err))
  end.

(** What censoring does to a row: the message is removed and the row is
    marked as censored. *)
Definition censored (c : Comment) : Comment :=
  {| Comment_Key := Comment_Key c;
     Comment_Token := Comment_Token c;
     Comment_ParentID := Comment_ParentID c;
     Comment_Comment := "";
     Comment_Signature := Comment_Signature c;
     Comment_PublicKey := Comment_PublicKey c;
     Comment_CommentID := Comment_CommentID c;
     Comment_Receipt := Comment_Receipt c;
     Comment_Timestamp := Comment_Timestamp c;
     Comment_Censored := true |}.

Definition cmdCensorComment (cmdPayload replyPayload : string) (d : DB) : Reply :=
  match DecodeCensorComment cmdPayload with
  | Err err => (d, ("", Some err))
  | Ok cc =>
      let key := foneroplugin.CensorComment_Token cc
                   +:+ foneroplugin.CensorComment_CommentID cc in
      let '(d, err) :=
        Updates tableComments (λ c, Comment_Key c = key) censored d in
      (d, (replyPayload, err))
  end.

Definition cmdGetComment (payload : string) (d : DB) : Reply :=
  match DecodeGetComment payload with
  | Err err => (d, ("", Some err))
  | Ok gc =>
      let key := foneroplugin.GetComment_Token gc
                   +:+ foneroplugin.GetComment_CommentID gc in
      match FindOne tableComments (λ c, Comment_Key c = key) d with
      | (d, Err err) =>
          (d, ("", Some (if decide (err = gormErrRecordNotFound)
                         then ErrRecordNotFound else err)))
      | (d, Ok c) =>
          let gcr := {| foneroplugin.GetCommentReply_Comment :=
                          convertCommentToFonero c |} in
          match EncodeGetCommentReply gcr with
          | Err err => (d, ("", Some err))
          | Ok gcrb => (d, (gcrb, None))
          end
      end
  end.

Definition cmdGetComments (payload : string) (d : DB) : Reply :=
  match DecodeGetComments payload with
  | Err err => (d, ("", Some err))
  | Ok gc =>
      match FindAll tableComments
              (λ c, Comment_Token c = foneroplugin.GetComments_Token gc) d with
      | (d, Err err) => (d, ("", Some err))
      | (d, Ok comments) =>
          let dpc := convertCommentToFonero <$> comments in
          let gcr := {| foneroplugin.GetCommentsReply_Comments := dpc |} in
          match EncodeGetCommentsReply gcr with
          | Err err => (d, ("", Some err))
          | Ok gcrb => (d, (gcrb, None))
          end
      end
  end.

Definition cmdCommentLikes (payload : string) (d : DB) : Reply :=
  match DecodeCommentLikes payload with
  | Err err => (d, ("", Some err))
  | Ok cl =>
      match FindAll tableCommentLikes
              (λ l, LikeComment_Token l = foneroplugin.CommentLikes_Token cl
                    ∧ LikeComment_CommentID l
                        = foneroplugin.CommentLikes_CommentID cl) d with
      | (d, Err err) => (d, ("", Some err))
      | (d, Ok likes) =>
          let lc := convertLikeCommentToFonero <$> likes in
          let clr := {| foneroplugin.CommentLikesReply_CommentLikes := lc |} in
          match EncodeCommentLikesReply clr with
          | Err err => (d, ("", Some err))
          | Ok clrb => (d, (clrb, None))
          end
      end
  end.

Definition cmdProposalCommentsLikes (payload : string) (d : DB) : Reply :=
  match DecodeGetProposalCommentsLikes payload with
  | Err err => (d, ("", Some err))
  | Ok cl =>
      match FindAll tableCommentLikes
              (λ l, LikeComment_Token l
                      = foneroplugin.GetProposalCommentsLikes_Token cl) d with
      | (d, Err err) => (d, ("", Some err))
      | (d, Ok likes) =>
          let lc := convertLikeCommentToFonero <$> likes in
          let clr :=
            {| foneroplugin.GetProposalCommentsLikesReply_CommentsLikes := lc |} in
          match EncodeGetProposalCommentsLikesReply clr with
          | Err err => (d, ("", Some err))
          | Ok clrb => (d, (clrb, None))
          end
      end
  end.

(** newAuthorizeVote creates an AuthorizeVote record and inserts it into
    the database.  If a previous AuthorizeVote record exists for the
    passed in proposal and version, it is deleted before the new record
    is inserted. *)
Definition newAuthorizeVote (tx : DB) (av : AuthorizeVote) : DB * option error :=
  let '(tx, err) :=
    Delete tableAuthorizeVotes
      (λ r, AuthorizeVote_Key r = AuthorizeVote_Key av) tx in
  match err with
  | Some err => (tx, Some (Errorf "delete authorize vote" err))
  | None =>
      let '(tx, err) := Create tableAuthorizeVotes av tx in
      match err with
      | Some err => (tx, Some (Errorf "create authorize vote" err))
      | None => (tx, None)
      end
  end.

Definition cmdAuthorizeVote (cmdPayload replyPayload : string) (d : DB) : Reply :=
  match DecodeAuthorizeVote cmdPayload with
  | Err err => (d, ("", Some err))
  | Ok av =>
      match DecodeAuthorizeVoteReply replyPayload with
      | Err err => (d, ("", Some err))
      | Ok avr =>
          let version := foneroplugin.AuthorizeVoteReply_RecordVersion avr in
          match Go.ParseUint10 version with
          | None =>
              (d, ("", Some (Errorf ("parse version '" +:+ version +:+ "' failed")
                               (ErrParseUint version))))
          | Some v =>
              let a := convertAuthorizeVoteFromFonero av avr v in
              let tx := Begin d in
              let '(tx, err) := newAuthorizeVote tx a in
              match err with
              | Some err =>
                  (Rollback d tx, ("", Some (Errorf "newAuthorizeVote" err)))
              | None =>
                  let '(d, err) := Commit d tx in
                  match err with
                  | Some err => (d, ("", Some (Errorf "commit transaction" err)))
                  | None => (d, (replyPayload, None))
                  end
              end
          end
      end
  end.

Definition newStartVote (db : DB) (sv : StartVote) : DB * option error :=
  Create tableStartVotes sv db.

Definition cmdStartVote (cmdPayload replyPayload : string) (d : DB) : Reply :=
  match DecodeStartVote cmdPayload with
  | Err err => (d, ("", Some err))
  | Ok sv =>
      match DecodeStartVoteReply replyPayload with
      | Err err => (d, ("", Some err))
      | Ok svr =>
          let eh := foneroplugin.StartVoteReply_EndHeight svr in
          match Go.ParseUint10 eh with
          | None =>
              (d, ("", Some (Errorf ("parse end height '" +:+ eh +:+ "'")
                               (ErrParseUint eh))))
          | Some endHeight =>
              let s := convertStartVoteFromFonero sv svr endHeight in
              let '(d, err) := newStartVote d s in
              match err with
              | Some err => (d, ("", Some err))
              | None => (d, (replyPayload, None))
              end
          end
      end
  end.

(** [Where("records.token = ?", token).Order("records.version desc").
    Limit(1).Find(&r)]: the most recent version of the record. *)
Definition latestRecord (token : string) (d : DB) : DB * res Record_ :=
  let '(ok, d) := step d in
  if ok then
    match orderByDesc Record_Version
            (filter (λ r, Record_Token r = token) (records (tables d))) with
    | r :: _ => (d, Ok r)
    | [] => (d, Err gormErrRecordNotFound)
    end
  else (d, Err ErrStorage).

Definition cmdVoteDetails (payload : string) (d : DB) : Reply :=
  match DecodeVoteDetails payload with
  | Err err => (d, ("", None))
  | Ok vd =>
      let token := foneroplugin.VoteDetails_Token vd in
      match latestRecord token d with
      | (d, Err err) =>
          (d, ("", Some (if decide (err = gormErrRecordNotFound)
                         then ErrRecordNotFound else err)))
      | (d, Ok r) =>
          let key := token +:+ Go.FormatUint10 (Record_Version r) in
          let '(d, rav) :=
            FindOne tableAuthorizeVotes (λ a, AuthorizeVote_Key a = key) d in
          let continue (av : AuthorizeVote) (d : DB) : Reply :=
            let '(d, rsv) :=
              FindOne tableStartVotes (λ s, StartVote_Token s = token) d in
            let reply (sv : StartVote) (d : DB) : Reply :=
              let dav := convertAuthorizeVoteToFonero av in
              let '(dsv, dsvr) := convertStartVoteToFonero sv in
              let vdr :=
                {| foneroplugin.VoteDetailsReply_AuthorizeVote := dav;
                   foneroplugin.VoteDetailsReply_StartVote := dsv;
                   foneroplugin.VoteDetailsReply_StartVoteReply := dsvr |} in
              match EncodeVoteDetailsReply vdr with
              | Err err => (d, ("", Some err))
              | Ok vdrb => (d, (vdrb, None))
              end in
            match rsv with
            | Ok sv => reply sv d
            | Err err =>
                if decide (err = gormErrRecordNotFound) then reply zeroStartVote d
                else (d, ("", Some (Errorf "start vote lookup failed" err)))
            end in
          match rav with
          | Ok av => continue av d
          | Err err =>
              if decide (err = gormErrRecordNotFound)
              then continue zeroAuthorizeVote d
              else (d, ("", Some (Errorf "authorize vote lookup failed" err)))
          end
      end
  end.

Definition newCastVote (db : DB) (cv : CastVote) : DB * option error :=
  Create tableCastVotes cv db.

(** The loop of cmdNewBallot over the votes of the ballot: it stops at
    the first insertion that fails. *)
Fixpoint addVotes (votes : list foneroplugin.CastVote) (tx : DB)
    : DB * option error :=
  match votes with
  | [] => (tx, None)
  | v :: votes =>
      let cv := convertCastVoteFromFonero v in
      let '(tx, err) := newCastVote tx cv in
      match err with
      | Some err => (tx, Some err)
      | None => addVotes votes tx
      end
  end.

Definition cmdNewBallot (cmdPayload replyPayload : string) (d : DB) : Reply :=
  match DecodeBallot cmdPayload with
  | Err err => (d, ("", Some err))
  | Ok b =>
      let tx := Begin d in
      let '(tx, err) := addVotes (foneroplugin.Ballot_Votes b) tx in
      match err with
      | Some err => (Rollback d tx, ("", Some err))
      | None =>
          let '(d, err) := Commit d tx in
          match err with
          | Some err => (d, ("", Some (Errorf "commit transaction failed" err)))
          | None => (d, (replyPayload, None))
          end
      end
  end.

Definition cmdProposalVotes (payload : string) (d : DB) : Reply :=
  match DecodeVoteResults payload with
  | Err err => (d, ("", Some err))
  | Ok vr =>
      let token := foneroplugin.VoteResults_Token vr in
      let '(d, rsv) :=
        FindOne tableStartVotes (λ s, StartVote_Token s = token) d in
      let continue (sv : StartVote) (d : DB) : Reply :=
        match FindAll tableCastVotes (λ c, CastVote_Token c = token) d with
        | (d, Err err) => (d, ("", Some (Errorf "cast votes lookup failed" err)))
        | (d, Ok cv) =>
            let dsv := fst (convertStartVoteToFonero sv) in
            let dcv := convertCastVoteToFonero <$> cv in
            let vrr := {| foneroplugin.VoteResultsReply_StartVote := dsv;
                          foneroplugin.VoteResultsReply_CastVotes := dcv |} in
            match EncodeVoteResultsReply vrr with
            | Err err => (d, ("", Some err))
            | Ok vrrb => (d, (vrrb, None))
            end
        end in
      match rsv with
      | Ok sv => continue sv d
      | Err err =>
          if decide (err = gormErrRecordNotFound) then continue zeroStartVote d
          else (d, ("", Some (Errorf "start vote lookup failed" err)))
      end
  end.

Definition cmdInventory (d : DB) : Reply :=
  match FindAll tableComments (λ _, True) d with
  | (d, Err err) => (d, ("", Some err))
  | (d, Ok c) =>
      let dc := convertCommentToFonero <$> c in
      let ir := {| foneroplugin.InventoryReply_Comments := dc |} in
      match EncodeInventoryReply ir with
      | Err err => (d, ("", Some err))
      | Ok irb => (d, (irb, None))
      end
  end.
End handlers.

(** ** The vote tally *)

(** The loop [tally[v.VoteBit]++] over the cast votes. *)
Definition tallyVotes (cv : list CastVote) : gmap string Z :=
  foldl (λ tally v,
           <[CastVote_VoteBit v :=
               Go.u64 (default 0 (tally !! CastVote_VoteBit v) + 1)]> tally)
        ∅ cv.

(** One result per option of the start vote, with the count the tally
    has under the option's bits in hexadecimal. *)
Definition voteOptionResults (token : string) (options : list VoteOption)
    (tally : gmap string Z) : list VoteOptionResult :=
  (λ v, let voteBit := Go.FormatUint16 (VoteOption_Bits v) in
        {| VoteOptionResult_Key := token +:+ voteBit;
           VoteOptionResult_Votes := default 0 (tally !! voteBit);
           VoteOptionResult_Option := v |}) <$> options.

(** [total += v.Votes] over the results. *)
Definition totalVotes (results : list VoteOptionResult) : Z :=
  foldl (λ total v, Go.u64 (total + VoteOptionResult_Votes v)) 0 results.

(** [len(strings.Split(sv.EligibleTickets, ","))] *)
Definition eligibleTickets (sv : StartVote) : Z :=
  Z.of_nat (length (Go.Split (StartVote_EligibleTickets sv) ",")).

(** [uint64(float64(percentage) / 100 * float64(n))] *)
Definition percentOf (percentage n : Z) : Z :=
  Go.uint64_of_float64
    (Go.fmul (Go.fdiv (Go.float64_of_uint percentage) (Go.float64_of_uint 100))
             (Go.float64_of_uint n)).

Definition quorumVotes (sv : StartVote) : Z :=
  percentOf (StartVote_QuorumPercentage sv) (eligibleTickets sv).

Definition passVotes (sv : StartVote) (total : Z) : Z :=
  percentOf (StartVote_PassPercentage sv) total.

(** The votes of the option whose ID is "yes": the loop keeps the last
    such option, and zero when there is none. *)
Definition approvedVotes (results : list VoteOptionResult) : Z :=
  foldl (λ approved v,
           if decide (VoteOption_ID (VoteOptionResult_Option v)
                        = voteOptionIDApproved)
           then VoteOptionResult_Votes v else approved)
        0 results.

(** The switch that decides whether the vote was approved. *)
Definition voteApproved (total quorum approved pass : Z) : bool :=
  if decide (total < quorum) then false
  else if decide (approved < pass) then false
  else true.

(** The row newVoteResults builds from the start vote and the cast
    votes it has looked up. *)
Definition voteResultsOf (token : string) (sv : StartVote) (cv : list CastVote)
    : VoteResults :=
  let tally := tallyVotes cv in
  let results := voteOptionResults token (StartVote_Options sv) tally in
  let total := totalVotes results in
  let quorum := quorumVotes sv in
  let pass := passVotes sv total in
  {| VoteResults_Token := token;
     VoteResults_Approved := voteApproved total quorum (approvedVotes results) pass;
     VoteResults_Results := results |}.

(** newVoteResults creates a VoteResults record for a proposal and
    inserts it into the cache. *)
Definition newVoteResults (token : string) (d : DB) : DB * option error :=
  match FindOne tableStartVotes (λ s, StartVote_Token s = token) d with
  | (d, Err err) => (d, Some (Errorf "lookup start vote" err))
  | (d, Ok sv) =>
      let '(d, rcv) := FindAll tableCastVotes (λ c, CastVote_Token c = token) d in
      let continue (cv : list CastVote) (d : DB) : DB * option error :=
        let '(d, err) := Create tableVoteResults (voteResultsOf token sv cv) d in
        match err with
        | Some err => (d, Some (Errorf "new vote results" err))
        | None => (d, None)
        end in
      match rcv with
      | Ok cv => continue cv d
      | Err err =>
          if decide (err = gormErrRecordNotFound) then continue [] d
          else (d, Some (Errorf "lookup cast votes" err))
      end
  end.

(** The query of cmdLoadVoteResults and cmdTokenInventory: the tokens of
    the start votes that ended at [bestBlock] or before and have no row
    in the vote results table. *)
Definition endedWithoutResults (bestBlock : Z) (t : Tables) : list string :=
  StartVote_Token <$>
    filter (λ sv, StartVote_EndHeight sv ≤ bestBlock
                  ∧ (StartVote_Token sv ∉ (VoteResults_Token <$> vote_results t)))
           (start_votes t).

(** The loop of cmdLoadVoteResults over the tokens found. *)
Fixpoint createVoteResults (tokens : list string) (d : DB) : DB * option error :=
  match tokens with
  | [] => (d, None)
  | v :: tokens =>
      let '(d, err) := newVoteResults v d in
      match err with
      | Some err => (d, Some (Errorf ("newVoteResults " +:+ v) err))
      | None => createVoteResults tokens d
      end
  end.

(** The other queries of cmdTokenInventory. *)
Definition preTokens (public : Z) (t : Tables) : list string :=
  Record_Token <$>
    orderByDesc Record_Timestamp
      (filter (λ a, Forall (λ b, ¬ (Record_Token a = Record_Token b
                                      ∧ Record_Version a < Record_Version b))
                           (records t)
                    ∧ (Record_Token a ∉ (StartVote_Token <$> start_votes t))
                    ∧ Record_Status a = public)
              (records t)).

Definition activeTokens (bestBlock : Z) (t : Tables) : list string :=
  StartVote_Token <$>
    orderByDesc StartVote_EndHeight
      (filter (λ sv, bestBlock < StartVote_EndHeight sv) (start_votes t)).

Definition resultTokens (approved : bool) (t : Tables) : list string :=
  (λ p, VoteResults_Token (fst p)) <$>
    orderByDesc (λ p, StartVote_EndHeight (snd p))
      (filter (λ p, VoteResults_Approved (fst p) = approved)
         (vr ← vote_results t;
          sv ← filter (λ sv, VoteResults_Token vr = StartVote_Token sv)
                      (start_votes t);
          [(vr, sv)])).

Definition abandonedTokens (archived : Z) (t : Tables) : list string :=
  Record_Token <$>
    orderByDesc Record_Timestamp
      (filter (λ r, Record_Status r = archived) (records t)).

Section tally_handlers.
Context `{codec : Codec}.

Definition cmdLoadVoteResults (payload : string) (d : DB) : Reply :=
  match DecodeLoadVoteResults payload with
  | Err err => (d, ("", Some err))
  | Ok lvs =>
      let bestBlock := foneroplugin.LoadVoteResults_BestBlock lvs in
      match Rows (endedWithoutResults bestBlock) d with
      | (d, Err err) => (d, ("", Some (Errorf "no vote results" err)))
      | (d, Ok tokens) =>
          let '(d, err) := createVoteResults tokens d in
          match err with
          | Some err => (d, ("", Some err))
          | None =>
              match EncodeLoadVoteResultsReply
                      (foneroplugin.Build_LoadVoteResultsReply) with
              | Err err => (d, ("", Some err))
              | Ok reply => (d, (reply, None))
              end
          end
      end
  end.

Definition cmdTokenInventory (payload : string) (d : DB) : Reply :=
  match DecodeTokenInventory payload with
  | Err err => (d, ("", Some err))
  | Ok ti =>
      let bestBlock := foneroplugin.TokenInventory_BestBlock ti in
      match Rows (endedWithoutResults bestBlock) d with
      | (d, Err err) => (d, ("", Some (Errorf "no vote results" err)))
      | (d, Ok missing) =>
          if decide (0 < length missing)%nat
          then (d, ("", Some ErrRecordNotFound))
          else
          match Rows (preTokens RecordStatusPublic) d with
          | (d, Err err) => (d, ("", Some (Errorf "pre" err)))
          | (d, Ok pre) =>
          match Rows (activeTokens bestBlock) d with
          | (d, Err err) => (d, ("", Some (Errorf "active" err)))
          | (d, Ok active) =>
          match Rows (resultTokens true) d with
          | (d, Err err) => (d, ("", Some (Errorf "approved" err)))
          | (d, Ok approved) =>
          match Rows (resultTokens false) d with
          | (d, Err err) => (d, ("", Some (Errorf "rejected" err)))
          | (d, Ok rejected) =>
          match Rows (abandonedTokens RecordStatusArchived) d with
          | (d, Err err) => (d, ("", Some (Errorf "abandoned" err)))
          | (d, Ok abandoned) =>
              match EncodeTokenInventoryReply
                      {| foneroplugin.TokenInventoryReply_Pre := pre;
                         foneroplugin.TokenInventoryReply_Active := active;
                         foneroplugin.TokenInventoryReply_Approved := approved;
                         foneroplugin.TokenInventoryReply_Rejected := rejected;
                         foneroplugin.TokenInventoryReply_Abandoned := abandoned |}
              with
              | Err err => (d, ("", Some err))
              | Ok reply => (d, (reply, None))
              end
          end end end end end
      end
  end.

(** The manual count of cmdVoteSummary, one query per option. *)
Fixpoint countCastVotes (options : list VoteOption) (d : DB)
    : DB * res (list foneroplugin.VoteOptionResult) :=
  match options with
  | [] => (d, Ok [])
  | v :: options =>
      let tokenVoteBit :=
        VoteOption_Token v +:+ Go.FormatUint16 (VoteOption_Bits v) in
      match Count tableCastVotes
              (λ c, CastVote_TokenVoteBit c = tokenVoteBit) d with
      | (d, Err err) => (d, Err (Errorf "count cast votes" err))
      | (d, Ok votes) =>
          match countCastVotes options d with
          | (d, Err err) => (d, Err err)
          | (d, Ok results) =>
              (d, Ok ({| foneroplugin.VoteOptionResult_ID := VoteOption_ID v;
                         foneroplugin.VoteOptionResult_Description :=
                           VoteOption_Description v;
                         foneroplugin.VoteOptionResult_Bits := VoteOption_Bits v;
                         foneroplugin.VoteOptionResult_Votes := votes |}
                        :: results))
          end
      end
  end.

Definition cmdVoteSummary (payload : string) (d : DB) : Reply :=
  match DecodeVoteSummary payload with
  | Err err => (d, ("", Some err))
  | Ok vs =>
      let token := foneroplugin.VoteSummary_Token vs in
      match latestRecord token d with
      | (d, Err err) =>
          (d, ("", Some (if decide (err = gormErrRecordNotFound)
                         then ErrRecordNotFound else err)))
      | (d, Ok r) =>
          let sendReply (av : AuthorizeVote) (sv : StartVote)
              (results : list foneroplugin.VoteOptionResult) (d : DB) : Reply :=
            let endHeight :=
              if decide (StartVote_EndHeight sv ≠ 0)
              then Go.FormatUint10 (StartVote_EndHeight sv) else "" in
            let vsr :=
              {| foneroplugin.VoteSummaryReply_Authorized :=
                   bool_decide (AuthorizeVote_Action av
                                  = foneroplugin.AuthVoteActionAuthorize);
                 foneroplugin.VoteSummaryReply_EndHeight := endHeight;
                 foneroplugin.VoteSummaryReply_EligibleTicketCount :=
                   StartVote_EligibleTicketCount sv;
                 foneroplugin.VoteSummaryReply_QuorumPercentage :=
                   StartVote_QuorumPercentage sv;
                 foneroplugin.VoteSummaryReply_PassPercentage :=
                   StartVote_PassPercentage sv;
                 foneroplugin.VoteSummaryReply_Results := results |} in
            match EncodeVoteSummaryReply vsr with
            | Err err => (d, ("", Some err))
            | Ok reply => (d, (reply, None))
            end in
          let key := token +:+ Go.FormatUint10 (Record_Version r) in
          match FindOne tableAuthorizeVotes (λ a, AuthorizeVote_Key a = key) d with
          | (d, Err err) =>
              if decide (err = gormErrRecordNotFound)
              then sendReply zeroAuthorizeVote zeroStartVote [] d
              else (d, ("", Some (Errorf "lookup authorize vote" err)))
          | (d, Ok av) =>
          match FindOne tableStartVotes (λ s, StartVote_Token s = token) d with
          | (d, Err err) =>
              if decide (err = gormErrRecordNotFound)
              then sendReply av zeroStartVote [] d
              else (d, ("", Some (Errorf "lookup start vote" err)))
          | (d, Ok sv) =>
          match FindOne tableVoteResults (λ v, VoteResults_Token v = token) d with
          | (d, Ok vr) =>
              sendReply av sv
                (convertVoteOptionResultsToFonero (VoteResults_Results vr)) d
          | (d, Err err) =>
              if decide (err = gormErrRecordNotFound)
              then match countCastVotes (StartVote_Options sv) d with
                   | (d, Err err) => (d, ("", Some err))
                   | (d, Ok results) => sendReply av sv results d
                   end
              else (d, ("", Some (Errorf "lookup vote results" err)))
          end end end
      end
  end.

(** Exec executes a fonero plugin command. *)
Definition Exec (cmd cmdPayload replyPayload : string) (d : DB) : Reply :=
  if decide (cmd = foneroplugin.CmdAuthorizeVote)
  then cmdAuthorizeVote cmdPayload replyPayload d
  else if decide (cmd = foneroplugin.CmdStartVote)
  then cmdStartVote cmdPayload replyPayload d
  else if decide (cmd = foneroplugin.CmdVoteDetails)
  then cmdVoteDetails cmdPayload d
  else if decide (cmd = foneroplugin.CmdBallot)
  then cmdNewBallot cmdPayload replyPayload d
  else if decide (cmd = foneroplugin.CmdBestBlock)
  then (d, ("", None))
  else if decide (cmd = foneroplugin.CmdNewComment)
  then cmdNewComment cmdPayload replyPayload d
  else if decide (cmd = foneroplugin.CmdLikeComment)
  then cmdLikeComment cmdPayload replyPayload d
  else if decide (cmd = foneroplugin.CmdCensorComment)
  then cmdCensorComment cmdPayload replyPayload d
  else if decide (cmd = foneroplugin.CmdGetComment)
  then cmdGetComment cmdPayload d
  else if decide (cmd = foneroplugin.CmdGetComments)
  then cmdGetComments cmdPayload d
  else if decide (cmd = foneroplugin.CmdProposalVotes)
  then cmdProposalVotes cmdPayload d
  else if decide (cmd = foneroplugin.CmdCommentLikes)
  then cmdCommentLikes cmdPayload d
  else if decide (cmd = foneroplugin.CmdProposalCommentsLikes)
  then cmdProposalCommentsLikes cmdPayload d
  else if decide (cmd = foneroplugin.CmdInventory)
  then cmdInventory d
  else if decide (cmd = foneroplugin.CmdLoadVoteResults)
  then cmdLoadVoteResults cmdPayload d
  else if decide (cmd = foneroplugin.CmdTokenInventory)
  then cmdTokenInventory cmdPayload d
  else if decide (cmd = foneroplugin.CmdVoteSummary)
  then cmdVoteSummary cmdPayload d
  else (d, ("", Some ErrInvalidPluginCmd)).

End tally_handlers.

(** ** The test cache (package testcache)

    The in-memory cache keeps the authorize votes in a map from token to
    a map from record version to authorize vote. *)

Module testcache.

Record testcache := {
  comments : gmap string (list foneroplugin.Comment);
  authorizeVotes : gmap string (gmap string foneroplugin.AuthorizeVote);
  startVotes : gmap string foneroplugin.StartVote;
  startVoteReplies : gmap string foneroplugin.StartVoteReply }.

Definition New : testcache :=
  {| comments := ∅; authorizeVotes := ∅; startVotes := ∅;
     startVoteReplies := ∅ |}.

Definition authorizeVote `{Codec} (cmdPayload replyPayload : string)
    (c : testcache) : testcache * (string * option error) :=
  match DecodeAuthorizeVote cmdPayload with
  | Err err => (c, ("", Some err))
  | Ok av =>
      match DecodeAuthorizeVoteReply replyPayload with
      | Err err => (c, ("", Some err))
      | Ok avr =>
          let av :=
            {| foneroplugin.AuthorizeVote_Action :=
                 foneroplugin.AuthorizeVote_Action av;
               foneroplugin.AuthorizeVote_Token :=
                 foneroplugin.AuthorizeVote_Token av;
               foneroplugin.AuthorizeVote_Signature :=
                 foneroplugin.AuthorizeVote_Signature av;
               foneroplugin.AuthorizeVote_PublicKey :=
                 foneroplugin.AuthorizeVote_PublicKey av;
               foneroplugin.AuthorizeVote_Receipt :=
                 foneroplugin.AuthorizeVoteReply_Receipt avr;
               foneroplugin.AuthorizeVote_Timestamp :=
                 foneroplugin.AuthorizeVoteReply_Timestamp avr |} in
          let token := foneroplugin.AuthorizeVote_Token av in
          let versions := default ∅ (authorizeVotes c !! token) in
          let versions :=
            <[foneroplugin.AuthorizeVoteReply_RecordVersion avr := av]> versions in
          ({| comments := comments c;
              authorizeVotes := <[token := versions]> (authorizeVotes c);
              startVotes := startVotes c;
              startVoteReplies := startVoteReplies c |},
           (replyPayload, None))
      end
  end.

End testcache.

(** ** What the specification says of the tally

    The approval rule in the words of the specification: the total is
    the number of cast votes stored for the token, the quorum is the
    quorum percentage of the eligible ticket count and the pass
    threshold the pass percentage of the total, both rounded down, and
    the approving votes are those cast for the option "yes". *)

Definition spec_totalVotes (token : string) (cast : list CastVote) : Z :=
  Z.of_nat (length (filter (λ c, CastVote_Token c = token) cast)).

Definition spec_quorum (sv : StartVote) : Z :=
  StartVote_QuorumPercentage sv * StartVote_EligibleTicketCount sv / 100.

Definition spec_pass (sv : StartVote) (total : Z) : Z :=
  StartVote_PassPercentage sv * total / 100.

Definition spec_approvedOptionVotes (token : string) (sv : StartVote)
    (cast : list CastVote) : Z :=
  match filter (λ o, VoteOption_ID o = voteOptionIDApproved)
          (StartVote_Options sv) with
  | [] => 0
  | o :: _ =>
      Z.of_nat (length (filter
                          (λ c, CastVote_Token c = token
                                ∧ CastVote_VoteBit c
                                    = Go.FormatUint16 (VoteOption_Bits o))
                          cast))
  end.

Definition spec_approved (token : string) (sv : StartVote)
    (cast : list CastVote) : bool :=
  let total := spec_totalVotes token cast in
  bool_decide (spec_quorum sv ≤ total
               ∧ spec_pass sv total ≤ spec_approvedOptionVotes token sv cast).

(** ** Concrete payloads and rows

    A codec over lines of comma-separated fields, and the proposal of
    the examples: options "yes" (bits 2) and "no" (bits 1). *)

Definition lineFields (s : string) : list string := Go.Split s ",".

Definition lineCastVote (s : string) : res foneroplugin.CastVote :=
  match Go.Split s ":" with
  | [token; ticket; bit; sig] =>
      Ok {| foneroplugin.CastVote_Token := token;
            foneroplugin.CastVote_Ticket := ticket;
            foneroplugin.CastVote_VoteBit := bit;
            foneroplugin.CastVote_Signature := sig |}
  | _ => Err (ErrCodec s)
  end.

Fixpoint lineCastVotes (l : list string) : res (list foneroplugin.CastVote) :=
  match l with
  | [] => Ok []
  | s :: l =>
      match lineCastVote s, lineCastVotes l with
      | Ok v, Ok vs => Ok (v :: vs)
      | Err e, _ => Err e
      | _, Err e => Err e
      end
  end.

Definition lineToken {A} (mk : string → A) (s : string) : res A :=
  if decide (s = "") then Err (ErrCodec s) else Ok (mk s).

Definition lineTokenID {A} (mk : string → string → A) (s : string) : res A :=
  match lineFields s with
  | [token; id] => Ok (mk token id)
  | _ => Err (ErrCodec s)
  end.

Definition lineBestBlock {A} (mk : Z → A) (s : string) : res A :=
  match Go.ParseUint10 s with
  | Some b => Ok (mk b)
  | None => Err (ErrCodec s)
  end.

Definition lineCodec : Codec :=
  {| DecodeNewComment s :=
       match lineFields s with
       | [token; parent; comment; sig; pk] =>
           Ok (foneroplugin.Build_NewComment token parent comment sig pk)
       | _ => Err (ErrCodec s)
       end;
     DecodeNewCommentReply s :=
       match lineFields s with
       | [id; receipt; ts] =>
           match Go.ParseUint10 ts with
           | Some t => Ok (foneroplugin.Build_NewCommentReply id receipt t)
           | None => Err (ErrCodec s)
           end
       | _ => Err (ErrCodec s)
       end;
     DecodeLikeComment s :=
       match lineFields s with
       | [token; id; action; sig; pk] =>
           Ok (foneroplugin.Build_LikeComment token id action sig pk)
       | _ => Err (ErrCodec s)
       end;
     DecodeCensorComment := lineTokenID foneroplugin.Build_CensorComment;
     DecodeGetComment := lineTokenID foneroplugin.Build_GetComment;
     EncodeGetCommentReply r :=
       let c := foneroplugin.GetCommentReply_Comment r in
       Ok (Go.Join [foneroplugin.Comment_Token c;
                    foneroplugin.Comment_CommentID c;
                    foneroplugin.Comment_Comment c;
                    if foneroplugin.Comment_Censored c then "censored" else ""]
                   ",");
     DecodeGetComments := lineToken foneroplugin.Build_GetComments;
     EncodeGetCommentsReply r :=
       Ok (Go.Join (foneroplugin.Comment_CommentID
                      <$> foneroplugin.GetCommentsReply_Comments r) ",");
     DecodeCommentLikes := lineTokenID foneroplugin.Build_CommentLikes;
     EncodeCommentLikesReply r :=
       Ok (Go.Join (foneroplugin.LikeComment_Action
                      <$> foneroplugin.CommentLikesReply_CommentLikes r) ",");
     DecodeGetProposalCommentsLikes :=
       lineToken foneroplugin.Build_GetProposalCommentsLikes;
     EncodeGetProposalCommentsLikesReply r :=
       Ok (Go.Join (foneroplugin.LikeComment_Action
                      <$> foneroplugin.GetProposalCommentsLikesReply_CommentsLikes r)
                   ",");
     DecodeAuthorizeVote s :=
       match lineFields s with
       | [action; token; sig; pk] =>
           Ok (foneroplugin.Build_AuthorizeVote action token sig pk "" 0)
       | _ => Err (ErrCodec s)
       end;
     DecodeAuthorizeVoteReply s :=
       match lineFields s with
       | [action; version; receipt; ts] =>
           match Go.ParseUint10 ts with
           | Some t =>
               Ok (foneroplugin.Build_AuthorizeVoteReply action version receipt t)
           | None => Err (ErrCodec s)
           end
       | _ => Err (ErrCodec s)
       end;
     DecodeStartVote s := Err (ErrCodec s);
     DecodeStartVoteReply s := Err (ErrCodec s);
     DecodeVoteDetails := lineToken foneroplugin.Build_VoteDetails;
     EncodeVoteDetailsReply r :=
       Ok (foneroplugin.AuthorizeVote_Action
             (foneroplugin.VoteDetailsReply_AuthorizeVote r));
     DecodeBallot s :=
       match lineCastVotes (if decide (s = "") then [] else lineFields s) with
       | Ok vs => Ok (foneroplugin.Build_Ballot vs)
       | Err e => Err e
       end;
     DecodeVoteResults := lineToken foneroplugin.Build_VoteResults;
     EncodeVoteResultsReply r :=
       Ok (Go.Join (foneroplugin.CastVote_Ticket
                      <$> foneroplugin.VoteResultsReply_CastVotes r) ",");
     EncodeInventoryReply r :=
       Ok (Go.Join (foneroplugin.Comment_CommentID
                      <$> foneroplugin.InventoryReply_Comments r) ",");
     DecodeLoadVoteResults := lineBestBlock foneroplugin.Build_LoadVoteResults;
     EncodeLoadVoteResultsReply _ := Ok "";
     DecodeTokenInventory := lineBestBlock foneroplugin.Build_TokenInventory;
     EncodeTokenInventoryReply r :=
       Ok (Go.Join [Go.Join (foneroplugin.TokenInventoryReply_Pre r) ",";
                    Go.Join (foneroplugin.TokenInventoryReply_Active r) ",";
                    Go.Join (foneroplugin.TokenInventoryReply_Approved r) ",";
                    Go.Join (foneroplugin.TokenInventoryReply_Rejected r) ",";
                    Go.Join (foneroplugin.TokenInventoryReply_Abandoned r) ","]
                   ";");
     DecodeVoteSummary := lineToken foneroplugin.Build_VoteSummary;
     EncodeVoteSummaryReply r := Ok (foneroplugin.VoteSummaryReply_EndHeight r);
     RecordStatusPublic := 4;
     RecordStatusArchived := 6 |}.

Definition yesNo (token : string) : list VoteOption :=
  [ {| VoteOption_Token := token; VoteOption_ID := "yes";
       VoteOption_Description := "approve"; VoteOption_Bits := 2 |};
    {| VoteOption_Token := token; VoteOption_ID := "no";
       VoteOption_Description := "reject"; VoteOption_Bits := 1 |} ].

(** The tickets "t0", "t1", ... *)
Definition sampleTickets (first count : nat) : list string :=
  (λ i, "t" +:+ Go.FormatUint10 (Z.of_nat i)) <$> seq first count.

(** A start vote of the proposal "p" that ended at height 50, with
    [tickets] eligible tickets. *)
Definition sampleStartVote (quorum pass : Z) (tickets : nat) : StartVote :=
  {| StartVote_Token := "p"; StartVote_Mask := 3; StartVote_Duration := 10;
     StartVote_QuorumPercentage := quorum; StartVote_PassPercentage := pass;
     StartVote_Options := yesNo "p"; StartVote_PublicKey := "pk";
     StartVote_Signature := "sig"; StartVote_StartBlockHeight := "40";
     StartVote_StartBlockHash := "hash"; StartVote_EndHeight := 50;
     StartVote_EligibleTickets := Go.Join (sampleTickets 0 tickets) ",";
     StartVote_EligibleTicketCount := Z.of_nat tickets |}.

(** The votes of [count] tickets, from ticket [first] on, for one vote
    bit. *)
Definition sampleVotes (bit : string) (first count : nat) : list CastVote :=
  (λ ticket, {| CastVote_Token := "p"; CastVote_Ticket := ticket;
                CastVote_VoteBit := bit; CastVote_Signature := "s";
                CastVote_TokenVoteBit := "p" +:+ bit |})
    <$> sampleTickets first count.

Definition sampleDB (sv : StartVote) (cast : list CastVote) : DB :=
  {| tables := {| records := []; comments := []; comment_likes := [];
                  cast_votes := cast; authorize_votes := [];
                  start_votes := [sv]; vote_results := [] |};
     faults := [] |}.

Definition sampleComment : Comment :=
  {| Comment_Key := "p1"; Comment_Token := "p"; Comment_ParentID := "0";
     Comment_Comment := "hello"; Comment_Signature := "sig";
     Comment_PublicKey := "pk"; Comment_CommentID := "1";
     Comment_Receipt := "receipt"; Comment_Timestamp := 1500000000;
     Comment_Censored := false |}.

Definition emptyDB : DB := {| tables := emptyTables; faults := [] |}.

(** ** Predicates of the statements *)

(** The string has the character. *)
Fixpoint Contains (s : string) (a : ascii) : Prop :=
  match s with
  | EmptyString => False
  | String b s' => b = a ∨ Contains s' a
  end.

(** Modelled from the spec: the encoders of package foneroplugin are
    not among the sources; encoding never fails for a well-formed value
    (section 4.1). *)
Definition encodes {A} (encode : A → res string) : Prop :=
  ∀ a, ∃ payload, encode a = Ok payload.

(** What the keys of the tables guarantee of the rows of a database. *)
Record wf_tables (t : Tables) : Prop := {
  wf_comments : NoDup (Comment_Key <$> comments t);
  wf_comment_keys :
    Forall (λ c, Comment_Key c = Comment_Token c +:+ Comment_CommentID c)
           (comments t);
  wf_authorize_votes : NoDup (AuthorizeVote_Key <$> authorize_votes t);
  wf_start_votes : NoDup (StartVote_Token <$> start_votes t);
  wf_vote_results : NoDup (VoteResults_Token <$> vote_results t) }.


(** The authorizevote command with these payloads is for the row [key]. *)
Definition authorizes `{Codec} (key : string) (p : string * string) : Prop :=
  ∃ av avr v,
    DecodeAuthorizeVote (fst p) = Ok av
    ∧ DecodeAuthorizeVoteReply (snd p) = Ok avr
    ∧ Go.ParseUint10 (foneroplugin.AuthorizeVoteReply_RecordVersion avr) = Some v
    ∧ foneroplugin.AuthorizeVote_Token av
        +:+ foneroplugin.AuthorizeVoteReply_RecordVersion avr = key.

(** The number of cast votes with a vote bit. *)
Definition countVoteBit (bit : string) (cast : list CastVote) : Z :=
  Z.of_nat (length (filter (λ c, CastVote_VoteBit c = bit) cast)).

(** One of the next [n] statements sent to the database fails. *)
Definition fails (n : nat) (d : DB) : Prop := true ∈ take n (faults d).

Global Instance fails_dec n d : Decision (fails n d).
Proof. unfold fails. apply _. Defined.

Global Instance Comment_eq_dec : EqDecision Comment.
Proof. solve_decision. Defined.

(** The votes the options of a start vote receive together: for each
    option, the cast votes whose vote bit is the option's bits in
    hexadecimal. *)
Definition votesForOptions (options : list VoteOption) (cast : list CastVote)
    : Z :=
  foldr (λ o s, countVoteBit (Go.FormatUint16 (VoteOption_Bits o)) cast + s)
        0 options.

(** The votes for the option "yes" (the last one, if several options
    carry this ID; zero if none does). *)
Definition votesForApproval (options : list VoteOption) (cast : list CastVote)
    : Z :=
  match last (filter (λ o, VoteOption_ID o = voteOptionIDApproved) options) with
  | Some o => countVoteBit (Go.FormatUint16 (VoteOption_Bits o)) cast
  | None => 0
  end.

(** ** Further definitions *)

(** The number a string of decimal digits denotes, read left to right. *)
Fixpoint uint_value (acc : Z) (d : Decimal.uint) : Z :=
  match d with
  | Decimal.Nil => acc
  | Decimal.D0 d => uint_value (10 * acc) d
  | Decimal.D1 d => uint_value (10 * acc + 1) d
  | Decimal.D2 d => uint_value (10 * acc + 2) d
  | Decimal.D3 d => uint_value (10 * acc + 3) d
  | Decimal.D4 d => uint_value (10 * acc + 4) d
  | Decimal.D5 d => uint_value (10 * acc + 5) d
  | Decimal.D6 d => uint_value (10 * acc + 6) d
  | Decimal.D7 d => uint_value (10 * acc + 7) d
  | Decimal.D8 d => uint_value (10 * acc + 8) d
  | Decimal.D9 d => uint_value (10 * acc + 9) d
  end.

(** The results cmdVoteSummary counts by hand: for each option the cast
    votes whose [TokenVoteBit] is the option's token followed by its
    bits in hexadecimal. *)
Definition liveResults (options : list VoteOption) (cast : list CastVote)
    : list foneroplugin.VoteOptionResult :=
  (λ v, {| foneroplugin.VoteOptionResult_ID := VoteOption_ID v;
           foneroplugin.VoteOptionResult_Description := VoteOption_Description v;
           foneroplugin.VoteOptionResult_Bits := VoteOption_Bits v;
           foneroplugin.VoteOptionResult_Votes :=
             Z.of_nat (length (filter
                                 (λ c, CastVote_TokenVoteBit c
                                       = VoteOption_Token v
                                           +:+ Go.FormatUint16 (VoteOption_Bits v))
                                 cast)) |}) <$> options.

(** The results cmdVoteSummary reports for a start vote: those of the
    vote results row of the token when there is one, the live count
    otherwise. *)
Definition summaryResults (token : string) (sv : StartVote) (t : Tables)
    : list foneroplugin.VoteOptionResult :=
  match last (filter (λ v, VoteResults_Token v = token) (vote_results t)) with
  | Some vr => convertVoteOptionResultsToFonero (VoteResults_Results vr)
  | None => liveResults (StartVote_Options sv) (cast_votes t)
  end.

(** The reply of votesummary without authorize vote: not authorized, no
    end height, no thresholds and no results. *)
Definition emptyVoteSummary : foneroplugin.VoteSummaryReply :=
  {| foneroplugin.VoteSummaryReply_Authorized := false;
     foneroplugin.VoteSummaryReply_EndHeight := "";
     foneroplugin.VoteSummaryReply_EligibleTicketCount := 0;
     foneroplugin.VoteSummaryReply_QuorumPercentage := 0;
     foneroplugin.VoteSummaryReply_PassPercentage := 0;
     foneroplugin.VoteSummaryReply_Results := [] |}.


(** The reply cmdVoteSummary sends for the rows it has found. *)
Definition summaryReply (av : AuthorizeVote) (sv : StartVote)
    (results : list foneroplugin.VoteOptionResult)
    : foneroplugin.VoteSummaryReply :=
  {| foneroplugin.VoteSummaryReply_Authorized :=
       bool_decide (AuthorizeVote_Action av
                      = foneroplugin.AuthVoteActionAuthorize);
     foneroplugin.VoteSummaryReply_EndHeight :=
       if decide (StartVote_EndHeight sv ≠ 0)
       then Go.FormatUint10 (StartVote_EndHeight sv) else "";
     foneroplugin.VoteSummaryReply_EligibleTicketCount :=
       StartVote_EligibleTicketCount sv;
     foneroplugin.VoteSummaryReply_QuorumPercentage :=
       StartVote_QuorumPercentage sv;
     foneroplugin.VoteSummaryReply_PassPercentage := StartVote_PassPercentage sv;
     foneroplugin.VoteSummaryReply_Results := results |}.

(** The summary of a token on given tables, for the latest version [r]
    of its record: nothing without authorize vote of this version, no
    vote without start vote, else the thresholds and the results. *)
Definition voteSummaryOf (token : string) (r : Record_) (t : Tables)
    : foneroplugin.VoteSummaryReply :=
  let key := token +:+ Go.FormatUint10 (Record_Version r) in
  match last (filter (λ a, AuthorizeVote_Key a = key) (authorize_votes t)) with
  | None => emptyVoteSummary
  | Some av =>
      match last (filter (λ s, StartVote_Token s = token) (start_votes t)) with
      | None => summaryReply av zeroStartVote []
      | Some sv => summaryReply av sv (summaryResults token sv t)
      end
  end.

(** A codec like [lineCodec] that also reads start votes: the command as
    "publickey,signature,token,mask,duration,quorum,pass" with the
    options "no" (bits 1) and "yes" (bits 2), the reply as
    "height,hash,endheight" followed by the tickets. *)
Definition lineStartVote (s : string) : res foneroplugin.StartVote :=
  match lineFields s with
  | [pk; sig; token; mask; duration; quorum; pass] =>
      match Go.ParseUint10 mask, Go.ParseUint10 duration,
            Go.ParseUint10 quorum, Go.ParseUint10 pass with
      | Some m, Some du, Some q, Some p =>
          Ok {| foneroplugin.StartVote_PublicKey := pk;
                foneroplugin.StartVote_Vote :=
                  {| foneroplugin.Vote_Token := token;
                     foneroplugin.Vote_Mask := m;
                     foneroplugin.Vote_Duration := du;
                     foneroplugin.Vote_QuorumPercentage := q;
                     foneroplugin.Vote_PassPercentage := p;
                     foneroplugin.Vote_Options :=
                       [foneroplugin.Build_VoteOption "no" "reject" 1;
                        foneroplugin.Build_VoteOption "yes" "approve" 2] |};
                foneroplugin.StartVote_Signature := sig |}
      | _, _, _, _ => Err (ErrCodec s)
      end
  | _ => Err (ErrCodec s)
  end.

Definition lineStartVoteReply (s : string) : res foneroplugin.StartVoteReply :=
  match lineFields s with
  | height :: hash :: endHeight :: tickets =>
      Ok (foneroplugin.Build_StartVoteReply height hash endHeight tickets)
  | _ => Err (ErrCodec s)
  end.

Definition voteCodec : Codec :=
  {| DecodeNewComment := @DecodeNewComment lineCodec;
     DecodeNewCommentReply := @DecodeNewCommentReply lineCodec;
     DecodeLikeComment := @DecodeLikeComment lineCodec;
     DecodeCensorComment := @DecodeCensorComment lineCodec;
     DecodeGetComment := @DecodeGetComment lineCodec;
     EncodeGetCommentReply := @EncodeGetCommentReply lineCodec;
     DecodeGetComments := @DecodeGetComments lineCodec;
     EncodeGetCommentsReply := @EncodeGetCommentsReply lineCodec;
     DecodeCommentLikes := @DecodeCommentLikes lineCodec;
     EncodeCommentLikesReply := @EncodeCommentLikesReply lineCodec;
     DecodeGetProposalCommentsLikes := @DecodeGetProposalCommentsLikes lineCodec;
     EncodeGetProposalCommentsLikesReply :=
       @EncodeGetProposalCommentsLikesReply lineCodec;
     DecodeAuthorizeVote := @DecodeAuthorizeVote lineCodec;
     DecodeAuthorizeVoteReply := @DecodeAuthorizeVoteReply lineCodec;
     DecodeStartVote := lineStartVote;
     DecodeStartVoteReply := lineStartVoteReply;
     DecodeVoteDetails := @DecodeVoteDetails lineCodec;
     EncodeVoteDetailsReply := @EncodeVoteDetailsReply lineCodec;
     DecodeBallot := @DecodeBallot lineCodec;
     DecodeVoteResults := @DecodeVoteResults lineCodec;
     EncodeVoteResultsReply := @EncodeVoteResultsReply lineCodec;
     EncodeInventoryReply := @EncodeInventoryReply lineCodec;
     DecodeLoadVoteResults := @DecodeLoadVoteResults lineCodec;
     EncodeLoadVoteResultsReply := @EncodeLoadVoteResultsReply lineCodec;
     DecodeTokenInventory := @DecodeTokenInventory lineCodec;
     EncodeTokenInventoryReply := @EncodeTokenInventoryReply lineCodec;
     DecodeVoteSummary := @DecodeVoteSummary lineCodec;
     EncodeVoteSummaryReply r :=
       Ok (Go.Join
             ((if foneroplugin.VoteSummaryReply_Authorized r
               then "authorized" else "")
              :: foneroplugin.VoteSummaryReply_EndHeight r
              :: ((λ o, Go.FormatUint10 (foneroplugin.VoteOptionResult_Votes o))
                    <$> foneroplugin.VoteSummaryReply_Results r)) ",");
     RecordStatusPublic := 4;
     RecordStatusArchived := 6 |}.

(** A public record of the proposal "p". *)
Definition sampleRecord (version : Z) : Record_ :=
  {| Record_Key := "p" +:+ Go.FormatUint10 version; Record_Token := "p";
     Record_Version := version; Record_Status := 4;
     Record_Timestamp := 1500000000 |}.

(** The proposal "p" at version 1, authorized, with a vote that ended at
    height 50: three tickets out of ten voted "yes", one "no". *)
Definition sampleVoteDB : DB :=
  {| tables :=
       {| records := [sampleRecord 1]; comments := []; comment_likes := [];
          cast_votes := sampleVotes "2" 0 3 ++ sampleVotes "1" 3 1;
          authorize_votes :=
            [convertAuthorizeVoteFromFonero
               (foneroplugin.Build_AuthorizeVote "authorize" "p" "sig" "pk" "" 0)
               (foneroplugin.Build_AuthorizeVoteReply "authorize" "1" "receipt"
                  1500000000) 1];
          start_votes := [sampleStartVote 20 60 10]; vote_results := [] |};
     faults := [] |}.


(** The reply of votedetails for the rows it has found. *)
Definition voteDetailsOf (av : AuthorizeVote) (sv : StartVote)
    : foneroplugin.VoteDetailsReply :=
  {| foneroplugin.VoteDetailsReply_AuthorizeVote :=
       convertAuthorizeVoteToFonero av;
     foneroplugin.VoteDetailsReply_StartVote :=
       fst (convertStartVoteToFonero sv);
     foneroplugin.VoteDetailsReply_StartVoteReply :=
       snd (convertStartVoteToFonero sv) |}.

(** A handler's answer for the reply it has built: the encoded reply, or
    the error of the encoder. *)
Definition answer {A} (encode : A → res string) (reply : A)
    : string * option error :=
  match encode reply with
  | Ok payload => (payload, None)
  | Err err => ("", Some err)
  end.

(** [r] is a record of the token with the highest version. *)
Definition latest (token : string) (r : Record_) (t : Tables) : Prop :=
  r ∈ records t ∧ Record_Token r = token
  ∧ Forall (λ r', Record_Token r' = token → Record_Version r' ≤ Record_Version r)
           (records t).

(** ** Building the cache

    Build, Setup and CheckVersion work on the schema as well: the plugin
    tables that exist, and the versions table of the records cache with
    the version record of each plugin.  The declarations of the versions
    table and of the inventory are not among the sources; they have the
    fields createTables and build use.  [HasTable] reports no error to
    its caller and is taken to answer truthfully; the other statements
    consume the schedule of failures like those of the handlers, and a
    statement on a table that does not exist fails. *)

Definition convertCommentFromFonero (c : foneroplugin.Comment) : Comment :=
  {| Comment_Key := foneroplugin.Comment_Token c
                      +:+ foneroplugin.Comment_CommentID c;
     Comment_Token := foneroplugin.Comment_Token c;
     Comment_ParentID := foneroplugin.Comment_ParentID c;
     Comment_Comment := foneroplugin.Comment_Comment c;
     Comment_Signature := foneroplugin.Comment_Signature c;
     Comment_PublicKey := foneroplugin.Comment_PublicKey c;
     Comment_CommentID := foneroplugin.Comment_CommentID c;
     Comment_Receipt := foneroplugin.Comment_Receipt c;
     Comment_Timestamp := foneroplugin.Comment_Timestamp c;
     Comment_Censored := false |}.

Record Version := {
  Version_ID : string;
  Version_Version : string;
  Version_Timestamp : Z }.

Definition zeroVersion : Version :=
  {| Version_ID := ""; Version_Version := ""; Version_Timestamp := 0 |}.

(** foneroVersion is the version of the cache implementation of the
    fonero plugin. *)
Definition foneroVersion : string := "1.1".

Record StartVoteTuple := {
  StartVoteTuple_StartVote : foneroplugin.StartVote;
  StartVoteTuple_StartVoteReply : foneroplugin.StartVoteReply }.

(** The inventory build replays ([foneroplugin.InventoryReply] with all
    the fields it reads). *)
Record Inventory := {
  Inventory_Comments : list foneroplugin.Comment;
  Inventory_LikeComments : list foneroplugin.LikeComment;
  Inventory_AuthorizeVotes : list foneroplugin.AuthorizeVote;
  Inventory_AuthorizeVoteReplies : list foneroplugin.AuthorizeVoteReply;
  Inventory_StartVoteTuples : list StartVoteTuple;
  Inventory_CastVotes : list foneroplugin.CastVote }.

(** The tables of the plugin. *)
Inductive TableName : Type :=
| nameComments | nameCommentLikes | nameCastVotes | nameAuthorizeVotes
| nameVoteOptions | nameStartVotes | nameVoteOptionResults | nameVoteResults.

Global Instance TableName_eq_dec : EqDecision TableName.
Proof. solve_decision. Defined.

Definition pluginTables : list TableName :=
  [nameComments; nameCommentLikes; nameCastVotes; nameAuthorizeVotes;
   nameVoteOptions; nameStartVotes; nameVoteOptionResults; nameVoteResults].

(** The errors of Build, Setup and CheckVersion. *)
Inductive cacheError : Type :=
| ErrNoVersionRecord                      (* cache.ErrNoVersionRecord *)
| ErrWrongVersion                         (* cache.ErrWrongVersion *)
| ErrVersionsTableNotFound                (* "versions table not found" *)
| ErrReplyNotFound (token : string)       (* "AuthorizeVoteReply not found" *)
| ErrCause (err : error)               (* the error of a statement or a codec *)
| ErrContext (context : string) (cause : cacheError).

Global Instance cacheError_eq_dec : EqDecision cacheError.
Proof. solve_decision. Defined.

(** The cache: the database of the handlers, the plugin tables that
    exist and the versions table ([None] when it does not exist). *)
Record Cache := {
  store : DB;
  existing : list TableName;
  versions : option (list Version) }.

Definition withStore (d : DB) (c : Cache) : Cache :=
  {| store := d; existing := existing c; versions := versions c |}.

(** A statement of a handler's helper, run on the cache. *)
Definition onStore {X} (f : DB → DB * X) (c : Cache) : Cache * X :=
  let '(d, x) := f (store c) in (withStore d c, x).

Definition stepCache (c : Cache) : bool * Cache :=
  let '(ok, d) := step (store c) in (ok, withStore d c).

Definition HasTable (name : TableName) (c : Cache) : bool :=
  bool_decide (name ∈ existing c).

Definition HasVersions (c : Cache) : bool :=
  match versions c with Some _ => true | None => false end.

(** [tx.CreateTable(...)]: the table exists from now on, without rows. *)
Definition CreateTable (name : TableName) (c : Cache) : Cache * option error :=
  let '(ok, c) := stepCache c in
  if ok then
    if HasTable name c then (c, Some ErrStorage)
    else ({| store := store c; existing := existing c ++ [name];
             versions := versions c |}, None)
  else (c, Some ErrStorage).

(** The rows that go with the plugin tables; the records stay. *)
Definition dropRows (t : Tables) : Tables :=
  {| records := records t; comments := []; comment_likes := [];
     cast_votes := []; authorize_votes := []; start_votes := [];
     vote_results := [] |}.

(** [tx.DropTableIfExists(...)] of all the plugin tables. *)
Definition DropTablesIfExist (c : Cache) : Cache * option error :=
  let '(ok, c) := stepCache c in
  if ok then
    ({| store := {| tables := dropRows (tables (store c));
                    faults := faults (store c) |};
        existing := filter (λ name, name ∉ pluginTables) (existing c);
        versions := versions c |}, None)
  else (c, Some ErrStorage).

(** [Where("id = ?", id).Find(&v)] on the versions table. *)
Definition FindVersion (id : string) (c : Cache) : Cache * res Version :=
  let '(ok, c) := stepCache c in
  if ok then
    match versions c with
    | Some vs =>
        match last (filter (λ v, Version_ID v = id) vs) with
        | Some v => (c, Ok v)
        | None => (c, Err gormErrRecordNotFound)
        end
    | None => (c, Err ErrStorage)
    end
  else (c, Err ErrStorage).

(** [Create(&Version{...})] *)
Definition CreateVersion (v : Version) (c : Cache) : Cache * option error :=
  let '(ok, c) := stepCache c in
  if ok then
    match versions c with
    | Some vs =>
        if bool_decide (Version_ID v ∈ Version_ID <$> vs)
        then (c, Some ErrDuplicateKey)
        else ({| store := store c; existing := existing c;
                 versions := Some (vs ++ [v]) |}, None)
    | None => (c, Some ErrStorage)
    end
  else (c, Some ErrStorage).

(** [Delete(&Version{ID: id})] *)
Definition DeleteVersion (id : string) (c : Cache) : Cache * option error :=
  let '(ok, c) := stepCache c in
  if ok then
    match versions c with
    | Some vs =>
        ({| store := store c; existing := existing c;
            versions := Some (filter (λ v, Version_ID v ≠ id) vs) |}, None)
    | None => (c, Some ErrStorage)
    end
  else (c, Some ErrStorage).

(** Transactions on the cache, as on the database. *)
Definition RollbackCache (c tx : Cache) : Cache :=
  {| store := {| tables := tables (store c); faults := faults (store tx) |};
     existing := existing c; versions := versions c |}.

Definition CommitCache (c tx : Cache) : Cache * option error :=
  let '(ok, tx) := stepCache tx in
  if ok then (tx, None) else (RollbackCache c tx, Some ErrStorage).

(** A loop over a list that returns at the first error. *)
Fixpoint forEach {A} (body : A → Cache → Cache * option cacheError)
    (l : list A) (c : Cache) : Cache * option cacheError :=
  match l with
  | [] => (c, None)
  | v :: l =>
      let '(c, err) := body v c in
      match err with
      | Some err => (c, Some err)
      | None => forEach body l c
      end
  end.

(** What a call may do besides returning. *)
Inductive outcome : Type :=
| Returned (err : option cacheError)
| Panicked.

Section cache.
Context (ID : string).                       (* foneroplugin.ID *)
Context (DecodeInventoryReply : string → res Inventory).
Context (now : Z).                           (* time.Now().Unix() *)

(** The tables createTables creates, one after the other, unless they
    exist. *)
Fixpoint ensureTables (names : list TableName) (tx : Cache)
    : Cache * option error :=
  match names with
  | [] => (tx, None)
  | name :: names =>
      if negb (HasTable name tx) then
        let '(tx, err) := CreateTable name tx in
        match err with
        | Some err => (tx, Some err)
        | None => ensureTables names tx
        end
      else ensureTables names tx
  end.

(** createTables creates the cache tables needed by the fonero plugin if
    they do not already exist.  A fonero plugin version record is
    inserted into the database during table creation. *)
Definition createTables (tx : Cache) : Cache * option cacheError :=
  let '(tx, err) := ensureTables pluginTables tx in
  match err with
  | Some err => (tx, Some (ErrCause err))
  | None =>
      if negb (HasVersions tx) then (tx, Some ErrVersionsTableNotFound)
      else
        match FindVersion ID tx with
        | (tx, Ok _) => (tx, None)
        | (tx, Err err) =>
            if decide (err = gormErrRecordNotFound) then
              let '(tx, err) :=
                CreateVersion {| Version_ID := ID;
                                 Version_Version := foneroVersion;
                                 Version_Timestamp := now |} tx in
              (tx, ErrCause <$> err)
            else (tx, Some (ErrCause err))
        end
  end.

(** dropTables drops all fonero plugin tables from the cache and removes
    the fonero plugin version record. *)
Definition dropTables (tx : Cache) : Cache * option error :=
  let '(tx, err) := DropTablesIfExist tx in
  match err with
  | Some err => (tx, Some err)
  | None => DeleteVersion ID tx
  end.

(** The map from receipt to authorize vote reply: a later reply
    replaces an earlier one with the same receipt. *)
Definition repliesByReceipt (replies : list foneroplugin.AuthorizeVoteReply)
    : gmap string foneroplugin.AuthorizeVoteReply :=
  foldl (λ avr v, <[foneroplugin.AuthorizeVoteReply_Receipt v := v]> avr)
        ∅ replies.

Definition buildComment (v : foneroplugin.Comment) (c : Cache)
    : Cache * option cacheError :=
  let '(c, err) := onStore (λ d, newComment d (convertCommentFromFonero v)) c in
  (c, (λ err, ErrContext "newComment" (ErrCause err)) <$> err).

Definition buildLikeComment (v : foneroplugin.LikeComment) (c : Cache)
    : Cache * option cacheError :=
  let '(c, err) :=
    onStore (λ d, newLikeComment d (convertLikeCommentFromFonero v)) c in
  (c, (λ err, ErrContext "newLikeComment" (ErrCause err)) <$> err).

Definition buildAuthorizeVote
    (avr : gmap string foneroplugin.AuthorizeVoteReply)
    (v : foneroplugin.AuthorizeVote) (c : Cache) : Cache * option cacheError :=
  match avr !! foneroplugin.AuthorizeVote_Receipt v with
  | None => (c, Some (ErrReplyNotFound (foneroplugin.AuthorizeVote_Token v)))
  | Some r =>
      let version := foneroplugin.AuthorizeVoteReply_RecordVersion r in
      match Go.ParseUint10 version with
      | None =>
          (c, Some (ErrContext ("parse version '" +:+ version +:+ "' failed")
                      (ErrCause (ErrParseUint version))))
      | Some rv =>
          let av := convertAuthorizeVoteFromFonero v r rv in
          let '(c, err) := onStore (λ d, newAuthorizeVote d av) c in
          (c, (λ err, ErrContext "newAuthorizeVote" (ErrCause err)) <$> err)
      end
  end.

Definition buildStartVote (v : StartVoteTuple) (c : Cache)
    : Cache * option cacheError :=
  let eh := foneroplugin.StartVoteReply_EndHeight (StartVoteTuple_StartVoteReply v) in
  match Go.ParseUint10 eh with
  | None =>
      (c, Some (ErrContext ("parse end height '" +:+ eh +:+ "'")
                  (ErrCause (ErrParseUint eh))))
  | Some endHeight =>
      let sv := convertStartVoteFromFonero (StartVoteTuple_StartVote v)
                  (StartVoteTuple_StartVoteReply v) endHeight in
      let '(c, err) := onStore (λ d, newStartVote d sv) c in
      (c, (λ err, ErrContext "newStartVote" (ErrCause err)) <$> err)
  end.

Definition buildCastVote (v : foneroplugin.CastVote) (c : Cache)
    : Cache * option cacheError :=
  let '(c, err) := onStore (λ d, newCastVote d (convertCastVoteFromFonero v)) c in
  (c, (λ err, ErrContext "newCastVote" (ErrCause err)) <$> err).

(** The loops of build, after the tables have been dropped and created. *)
Definition replay (ir : Inventory) (c : Cache) : Cache * option cacheError :=
  let '(c, err) := forEach buildComment (Inventory_Comments ir) c in
  match err with Some err => (c, Some err) | None =>
  let '(c, err) := forEach buildLikeComment (Inventory_LikeComments ir) c in
  match err with Some err => (c, Some err) | None =>
  let avr := repliesByReceipt (Inventory_AuthorizeVoteReplies ir) in
  let '(c, err) :=
    forEach (buildAuthorizeVote avr) (Inventory_AuthorizeVotes ir) c in
  match err with Some err => (c, Some err) | None =>
  let '(c, err) := forEach buildStartVote (Inventory_StartVoteTuples ir) c in
  match err with Some err => (c, Some err) | None =>
  forEach buildCastVote (Inventory_CastVotes ir) c
  end end end end.

(** build the fonero plugin cache using the passed in inventory; it does
    not run in one transaction. *)
Definition build (ir : Inventory) (c : Cache) : Cache * option cacheError :=
  let '(tx, err) := dropTables c in
  match err with
  | Some err =>
      (RollbackCache c tx, Some (ErrContext "drop tables" (ErrCause err)))
  | None =>
      let '(c, err) := CommitCache c tx in
      match err with
      | Some err => (c, Some (ErrCause err))
      | None =>
          let '(tx, err) := createTables c in
          match err with
          | Some err => (RollbackCache c tx, Some (ErrContext "create tables" err))
          | None =>
              let '(c, err) := CommitCache c tx in
              match err with
              | Some err => (c, Some (ErrCause err))
              | None => replay ir c
              end
          end
      end
  end.

(** Build drops all existing fonero plugin tables from the database,
    recreates them, then uses the passed in inventory payload to build
    the fonero plugin cache. *)
Definition Build (payload : string) (c : Cache) : Cache * outcome :=
  match DecodeInventoryReply payload with
  | Err err =>
      (c, Returned (Some (ErrContext "DecodeInventoryReply" (ErrCause err))))
  | Ok ir =>
      let '(c, err) := build ir c in
      match err with
      | Some err =>
          let '(c, err1) := DeleteVersion ID c in
          match err1 with
          | Some _ => (c, Panicked)
          | None => (c, Returned (Some err))
          end
      | None => (c, Returned None)
      end
  end.

(** Setup creates the fonero plugin tables if they do not already
    exist. *)
Definition Setup (c : Cache) : Cache * option cacheError :=
  let '(tx, err) := createTables c in
  match err with
  | Some err => (RollbackCache c tx, Some err)
  | None =>
      let '(c, err) := CommitCache c tx in
      (c, ErrCause <$> err)
  end.

(** CheckVersion retrieves the fonero plugin version record from the
    database, if one exists, and checks that it matches the version of
    the current fonero plugin cache implementation. *)
Definition CheckVersion (c : Cache) : Cache * option cacheError :=
  if negb (HasVersions c) then (c, Some ErrVersionsTableNotFound)
  else
    let '(c, found) := FindVersion ID c in
    let v := match found with Ok v => v | Err _ => zeroVersion end in
    let err := match found with Ok _ => None | Err err => Some err end in
    if decide (err = Some gormErrRecordNotFound)
    then (c, Some ErrNoVersionRecord)
    else if decide (Version_Version v ≠ foneroVersion)
         then (c, Some ErrWrongVersion)
         else (c, ErrCause <$> err).
End cache.

(** The tables that exist after [names] have been created where
    missing. *)
Definition ensured (names existing : list TableName) : list TableName :=
  foldl (λ ex name, if bool_decide (name ∈ ex) then ex else ex ++ [name])
        existing names.

(** The versions table after createTables: the version record of the
    plugin is added unless the plugin has one. *)
Definition withVersion (ID : string) (now : Z) (vs : list Version)
    : list Version :=
  if bool_decide (ID ∈ Version_ID <$> vs) then vs
  else vs ++ [{| Version_ID := ID; Version_Version := foneroVersion;
                 Version_Timestamp := now |}].

(** What newAuthorizeVote leaves of the rows: the new row replaces those
    with its key. *)
Definition upsert (l : list AuthorizeVote) (a : AuthorizeVote)
    : list AuthorizeVote :=
  filter (λ r, ¬ AuthorizeVote_Key r = AuthorizeVote_Key a) l ++ [a].

(** The authorize vote row of the inventory for an authorize vote: with
    the last reply that carries its receipt, if it has a version. *)
Definition authorizeRow (replies : list foneroplugin.AuthorizeVoteReply)
    (v : foneroplugin.AuthorizeVote) : option AuthorizeVote :=
  r ← last (filter (λ r, foneroplugin.AuthorizeVoteReply_Receipt r
                         = foneroplugin.AuthorizeVote_Receipt v) replies);
  rv ← Go.ParseUint10 (foneroplugin.AuthorizeVoteReply_RecordVersion r);
  Some (convertAuthorizeVoteFromFonero v r rv).

(** The start vote row of the inventory for a start vote and its
    reply, if the reply has an end height. *)
Definition startRow (v : StartVoteTuple) : option StartVote :=
  endHeight ← Go.ParseUint10
                 (foneroplugin.StartVoteReply_EndHeight
                    (StartVoteTuple_StartVoteReply v));
  Some (convertStartVoteFromFonero (StartVoteTuple_StartVote v)
          (StartVoteTuple_StartVoteReply v) endHeight).

(** A cache with the versions table whose database does not fail. *)
Definition healthy (c : Cache) : Prop :=
  faults (store c) = [] ∧ HasVersions c = true.

(** A decoder of inventories for the examples: the comments of
    [lineCodec]'s new comments, one per line. *)
Definition lineComment (s : string) : list foneroplugin.Comment :=
  match lineFields s with
  | [token; id; comment] =>
      [{| foneroplugin.Comment_Token := token;
          foneroplugin.Comment_ParentID := "0";
          foneroplugin.Comment_Comment := comment;
          foneroplugin.Comment_Signature := "sig";
          foneroplugin.Comment_PublicKey := "pk";
          foneroplugin.Comment_CommentID := id;
          foneroplugin.Comment_Receipt := "receipt";
          foneroplugin.Comment_Timestamp := 1500000000;
          foneroplugin.Comment_TotalVotes := 0;
          foneroplugin.Comment_ResultVotes := 0;
          foneroplugin.Comment_Censored := false |}]
  | _ => []
  end.

Definition lineInventory (s : string) : res Inventory :=
  if decide (s = "") then Err (ErrCodec s)
  else Ok {| Inventory_Comments := Go.Split s ";" ≫= lineComment;
             Inventory_LikeComments := [];
             Inventory_AuthorizeVotes :=
               [foneroplugin.Build_AuthorizeVote "authorize" "p" "sig" "pk"
                  "receipt" 0];
             Inventory_AuthorizeVoteReplies :=
               [foneroplugin.Build_AuthorizeVoteReply "authorize" "1" "receipt"
                  1500000000];
             Inventory_StartVoteTuples := [];
             Inventory_CastVotes := [] |}.

(** The cache of [sampleVoteDB], set up by an older version of the
    plugin "fonero". *)
Definition sampleCache : Cache :=
  {| store := sampleVoteDB;
     existing := pluginTables;
     versions := Some [{| Version_ID := "fonero"; Version_Version := "1.0";
                          Version_Timestamp := 1400000000 |}] |}.

(** What a step of a loop of build leaves alone. *)
Definition keeps {A} (body : A → Cache → Cache * option cacheError) : Prop :=
  ∀ v c, faults (store c) = [] →
         faults (store (fst (body v c))) = []
         ∧ existing (fst (body v c)) = existing c
         ∧ versions (fst (body v c)) = versions c.

(** The tables Build leaves when it succeeds: the records as they were,
    the rows of the inventory, no vote results. *)
Definition rebuiltTables (ir : Inventory) (t : Tables)
    (avs : list AuthorizeVote) (svs : list StartVote) : Tables :=
  {| records := records t;
     comments := convertCommentFromFonero <$> Inventory_Comments ir;
     comment_likes := convertLikeCommentFromFonero <$> Inventory_LikeComments ir;
     cast_votes := convertCastVoteFromFonero <$> Inventory_CastVotes ir;
     authorize_votes := foldl upsert [] avs;
     start_votes := svs;
     vote_results := [] |}.

(** What the inventory must be like for Build to go through: no two
    comments with the same token and comment ID; for each authorize
    vote a reply with its receipt and a record version in decimal; for
    each start vote an end height in decimal, and no two start votes of
    one token. *)
Definition replayable (ir : Inventory) (avs : list AuthorizeVote)
    (svs : list StartVote) : Prop :=
  NoDup (Comment_Key <$> (convertCommentFromFonero <$> Inventory_Comments ir))
  ∧ mapM (authorizeRow (Inventory_AuthorizeVoteReplies ir))
         (Inventory_AuthorizeVotes ir) = Some avs
  ∧ mapM startRow (Inventory_StartVoteTuples ir) = Some svs
  ∧ NoDup (StartVote_Token <$> svs).

(** ** The records of the test cache

    Package [cache] is not among the sources; a record has the fields
    the conversion functions of package [cockroachdb] read and write. *)

Module strconv.

(** [strconv.Atoi(s)]: an optional sign followed by decimal digits,
    whose value fits an [int] of 64 bits. *)
Definition digits (s : string) : option Z :=
  match s with
  | EmptyString => None
  | _ => Go.parse_digits 0 s
  end.

Definition Atoi (s : string) : option Z :=
  match s with
  | EmptyString => None
  | String a r =>
      if decide (a = "+"%char)
      then n ← digits r; if n <? 2 ^ 63 then Some n else None
      else if decide (a = "-"%char)
      then n ← digits r; if n <=? 2 ^ 63 then Some (- n) else None
      else n ← digits s; if n <? 2 ^ 63 then Some n else None
  end.

(** [strconv.Itoa(i)] *)
Definition Itoa (i : Z) : string :=
  if i <? 0 then "-" +:+ Go.FormatUint10 (- i) else Go.FormatUint10 i.

End strconv.

Module cache.

Record MetadataStream := {
  MetadataStream_ID : Z;
  MetadataStream_Payload : string }.

Record File := {
  File_Name : string;
  File_MIME : string;
  File_Digest : string;
  File_Payload : string }.

Record CensorshipRecord := {
  CensorshipRecord_Token : string;
  CensorshipRecord_Merkle : string;
  CensorshipRecord_Signature : string }.

Record Record_ := {
  Record_Version : string;
  Record_Status : Z;
  Record_Timestamp : Z;
  Record_CensorshipRecord : CensorshipRecord;
  Record_Metadata : list MetadataStream;
  Record_Files : list File }.

Definition zeroRecord : Record_ :=
  {| Record_Version := ""; Record_Status := 0; Record_Timestamp := 0;
     Record_CensorshipRecord :=
       {| CensorshipRecord_Token := ""; CensorshipRecord_Merkle := "";
          CensorshipRecord_Signature := "" |};
     Record_Metadata := []; Record_Files := [] |}.

Record PluginCommand := {
  PluginCommand_ID : string;
  PluginCommand_Command : string;
  PluginCommand_CommandPayload : string;
  PluginCommand_ReplyPayload : string }.

Record PluginCommandReply := {
  PluginCommandReply_ID : string;
  PluginCommandReply_Command : string;
  PluginCommandReply_Payload : string }.

End cache.

(** The zero values a Go map gives for a missing key. *)
Definition zeroPluginAuthorizeVote : foneroplugin.AuthorizeVote :=
  foneroplugin.Build_AuthorizeVote "" "" "" "" "" 0.

Definition zeroPluginStartVote : foneroplugin.StartVote :=
  {| foneroplugin.StartVote_PublicKey := "";
     foneroplugin.StartVote_Vote :=
       {| foneroplugin.Vote_Token := ""; foneroplugin.Vote_Mask := 0;
          foneroplugin.Vote_Duration := 0;
          foneroplugin.Vote_QuorumPercentage := 0;
          foneroplugin.Vote_PassPercentage := 0;
          foneroplugin.Vote_Options := [] |};
     foneroplugin.StartVote_Signature := "" |}.

Definition zeroPluginStartVoteReply : foneroplugin.StartVoteReply :=
  foneroplugin.Build_StartVoteReply "" "" "" [].

(** The test cache with its records; [testcache.testcache] holds the
    maps of the fonero plugin. *)
Module memory.

Record testcache := {
  records : gmap string (gmap string cache.Record_);
  plugin : testcache.testcache }.

Definition New : testcache := {| records := ∅; plugin := testcache.New |}.

(** NewRecord adds a record to the cache. *)
Definition NewRecord (r : cache.Record_) (c : testcache)
    : testcache * option error :=
  let token := cache.CensorshipRecord_Token (cache.Record_CensorshipRecord r) in
  let versions := default ∅ (records c !! token) in
  ({| records := <[token := <[cache.Record_Version r := r]> versions]> (records c);
      plugin := plugin c |}, None).

(** The loop of record over the versions of a token, in the order the
    map yields them: the highest version above zero seen, or the error
    of the first version that is not a number. *)
Fixpoint latestVersion (versions : list string) (latest : Z) : res Z :=
  match versions with
  | [] => Ok latest
  | version :: versions =>
      match strconv.Atoi version with
      | None =>
          Err (Errorf ("parse version '" +:+ version +:+ "' failed")
                 (ErrParseUint version))
      | Some v => latestVersion versions (if latest <? v then v else latest)
      end
  end.

(** record returns the most recent version of a record from the memory
    cache.  Go ranges over a map in an order of its choice; the model
    takes the order of [map_to_list]. *)
Definition record (token : string) (c : testcache) : res cache.Record_ :=
  match records c !! token with
  | None => Err ErrRecordNotFound
  | Some versions =>
      match latestVersion (fst <$> map_to_list versions) 0 with
      | Err err => Err err
      | Ok latest =>
          if decide (latest = 0) then Err ErrRecordNotFound
          else Ok (default cache.zeroRecord
                     (versions !! strconv.Itoa latest))
      end
  end.

(** Record returns the most recent version of the record. *)
Definition Record_ (token : string) (c : testcache) : res cache.Record_ :=
  record token c.

(** recordVersion retrieves a specific version of a record from the
    memory cache. *)
Definition recordVersion (token version : string) (c : testcache)
    : res cache.Record_ :=
  match records c !! token with
  | None => Err ErrRecordNotFound
  | Some versions =>
      match versions !! version with
      | None => Err ErrRecordNotFound
      | Some r => Ok r
      end
  end.

Definition RecordVersion (token version : string) (c : testcache)
    : res cache.Record_ :=
  recordVersion token version c.

(** UpdateRecordStatus updates the status of a record. *)
Definition UpdateRecordStatus (token version : string) (status timestamp : Z)
    (metadata : list cache.MetadataStream) (c : testcache)
    : testcache * option error :=
  match recordVersion token version c with
  | Err err => (c, Some err)
  | Ok r =>
      let r := {| cache.Record_Version := cache.Record_Version r;
                  cache.Record_Status := status;
                  cache.Record_Timestamp := timestamp;
                  cache.Record_CensorshipRecord := cache.Record_CensorshipRecord r;
                  cache.Record_Metadata := metadata;
                  cache.Record_Files := cache.Record_Files r |} in
      ({| records :=
            <[token := <[version := r]> (default ∅ (records c !! token))]>
              (records c);
          plugin := plugin c |}, None)
  end.

Section plugin.
Context `{codec : Codec}.

Definition withPlugin (p : testcache.testcache) (c : testcache) : testcache :=
  {| records := records c; plugin := p |}.

Definition getComments (payload : string) (c : testcache)
    : testcache * (string * option error) :=
  match DecodeGetComments payload with
  | Err err => (c, ("", Some err))
  | Ok gc =>
      match EncodeGetCommentsReply
              {| foneroplugin.GetCommentsReply_Comments :=
                   default [] (testcache.comments (plugin c)
                                 !! foneroplugin.GetComments_Token gc) |} with
      | Err err => (c, ("", Some err))
      | Ok gcrb => (c, (gcrb, None))
      end
  end.

Definition authorizeVote (cmdPayload replyPayload : string) (c : testcache)
    : testcache * (string * option error) :=
  let '(p, out) := testcache.authorizeVote cmdPayload replyPayload (plugin c) in
  (withPlugin p c, out).

Definition startVote (cmdPayload replyPayload : string) (c : testcache)
    : testcache * (string * option error) :=
  match DecodeStartVote cmdPayload with
  | Err err => (c, ("", Some err))
  | Ok sv =>
      match DecodeStartVoteReply replyPayload with
      | Err err => (c, ("", Some err))
      | Ok svr =>
          let token := foneroplugin.Vote_Token (foneroplugin.StartVote_Vote sv) in
          let p := plugin c in
          (withPlugin
             {| testcache.comments := testcache.comments p;
                testcache.authorizeVotes := testcache.authorizeVotes p;
                testcache.startVotes := <[token := sv]> (testcache.startVotes p);
                testcache.startVoteReplies :=
                  <[token := svr]> (testcache.startVoteReplies p) |} c,
           (replyPayload, None))
      end
  end.

Definition voteDetails (payload : string) (c : testcache)
    : testcache * (string * option error) :=
  match DecodeVoteDetails payload with
  | Err err => (c, ("", Some err))
  | Ok vd =>
      let token := foneroplugin.VoteDetails_Token vd in
      match record token c with
      | Err err => (c, ("", Some err))
      | Ok r =>
          let p := plugin c in
          let versions := default ∅ (testcache.authorizeVotes p !! token) in
          let c :=
            withPlugin
              {| testcache.comments := testcache.comments p;
                 testcache.authorizeVotes :=
                   <[token := versions]> (testcache.authorizeVotes p);
                 testcache.startVotes := testcache.startVotes p;
                 testcache.startVoteReplies := testcache.startVoteReplies p |}
              c in
          match EncodeVoteDetailsReply
                  {| foneroplugin.VoteDetailsReply_AuthorizeVote :=
                       default zeroPluginAuthorizeVote
                         (versions !! cache.Record_Version r);
                     foneroplugin.VoteDetailsReply_StartVote :=
                       default zeroPluginStartVote
                         (testcache.startVotes p !! token);
                     foneroplugin.VoteDetailsReply_StartVoteReply :=
                       default zeroPluginStartVoteReply
                         (testcache.startVoteReplies p !! token) |} with
          | Err err => (c, ("", Some err))
          | Ok vdb => (c, (vdb, None))
          end
      end
  end.

Definition foneroExec (cmd cmdPayload replyPayload : string) (c : testcache)
    : testcache * (string * option error) :=
  if decide (cmd = foneroplugin.CmdGetComments) then getComments cmdPayload c
  else if decide (cmd = foneroplugin.CmdAuthorizeVote)
  then authorizeVote cmdPayload replyPayload c
  else if decide (cmd = foneroplugin.CmdStartVote)
  then startVote cmdPayload replyPayload c
  else if decide (cmd = foneroplugin.CmdVoteDetails)
  then voteDetails cmdPayload c
  else (c, ("", Some ErrInvalidPluginCmd)).

(** PluginExec runs the commands of the fonero plugin and answers those
    of any other plugin with an empty payload. *)
Definition PluginExec (ID : string) (pc : cache.PluginCommand) (c : testcache)
    : testcache * res cache.PluginCommandReply :=
  let reply payload :=
    {| cache.PluginCommandReply_ID := cache.PluginCommand_ID pc;
       cache.PluginCommandReply_Command := cache.PluginCommand_Command pc;
       cache.PluginCommandReply_Payload := payload |} in
  if decide (cache.PluginCommand_ID pc = ID) then
    match foneroExec (cache.PluginCommand_Command pc)
            (cache.PluginCommand_CommandPayload pc)
            (cache.PluginCommand_ReplyPayload pc) c with
    | (c, (_, Some err)) => (c, Err err)
    | (c, (payload, None)) => (c, Ok (reply payload))
    end
  else (c, Ok (reply "")).
End plugin.

End memory.

(** ** The records of the cockroachdb cache, with all their fields *)

Module cockroachdb.

Record MetadataStream := {
  MetadataStream_ID : Z;
  MetadataStream_Payload : string }.

Record File := {
  File_Name : string;
  File_MIME : string;
  File_Digest : string;
  File_Payload : string }.

Record Record_ := {
  Record_Key : string;
  Record_Token : string;
  Record_Version : Z;
  Record_Status : Z;
  Record_Timestamp : Z;
  Record_Merkle : string;
  Record_Signature : string;
  Record_Metadata : list MetadataStream;
  Record_Files : list File }.

Definition convertMDStreamFromCache (ms : cache.MetadataStream)
    : MetadataStream :=
  {| MetadataStream_ID := cache.MetadataStream_ID ms;
     MetadataStream_Payload := cache.MetadataStream_Payload ms |}.

Definition convertMDStreamsFromCache (ms : list cache.MetadataStream)
    : list MetadataStream :=
  convertMDStreamFromCache <$> ms.

Definition convertRecordFromCache (r : cache.Record_) (version : Z) : Record_ :=
  let files :=
    (λ f, {| File_Name := cache.File_Name f; File_MIME := cache.File_MIME f;
             File_Digest := cache.File_Digest f;
             File_Payload := cache.File_Payload f |})
      <$> cache.Record_Files r in
  let cr := cache.Record_CensorshipRecord r in
  {| Record_Key := cache.CensorshipRecord_Token cr +:+ cache.Record_Version r;
     Record_Token := cache.CensorshipRecord_Token cr;
     Record_Version := version;
     Record_Status := cache.Record_Status r;
     Record_Timestamp := cache.Record_Timestamp r;
     Record_Merkle := cache.CensorshipRecord_Merkle cr;
     Record_Signature := cache.CensorshipRecord_Signature cr;
     Record_Metadata := convertMDStreamsFromCache (cache.Record_Metadata r);
     Record_Files := files |}.

Definition convertRecordToCache (r : Record_) : cache.Record_ :=
  let cr :=
    {| cache.CensorshipRecord_Token := Record_Token r;
       cache.CensorshipRecord_Merkle := Record_Merkle r;
       cache.CensorshipRecord_Signature := Record_Signature r |} in
  let metadata :=
    (λ ms, {| cache.MetadataStream_ID := MetadataStream_ID ms;
              cache.MetadataStream_Payload := MetadataStream_Payload ms |})
      <$> Record_Metadata r in
  let files :=
    (λ f, {| cache.File_Name := File_Name f; cache.File_MIME := File_MIME f;
             cache.File_Digest := File_Digest f;
             cache.File_Payload := File_Payload f |})
      <$> Record_Files r in
  {| cache.Record_Version := Go.FormatUint10 (Record_Version r);
     cache.Record_Status := Record_Status r;
     cache.Record_Timestamp := Record_Timestamp r;
     cache.Record_CensorshipRecord := cr;
     cache.Record_Metadata := metadata;
     cache.Record_Files := files |}.

End cockroachdb.

(** ** The test politeiad *)

Module testpoliteiad.

Definition bestBlock : Z := 1000.

(** Arithmetic on [uint32] wraps around. *)
Definition u32 (z : Z) : Z := z mod 2 ^ 32.

Record TestPoliteiad := {
  startVotes : gmap string foneroplugin.StartVote;
  startVoteReplies : gmap string foneroplugin.StartVoteReply }.

Section plugin.
Context `{codec : Codec}.
Context (EncodeStartVoteReply : foneroplugin.StartVoteReply → res string).

(** startVote stores the start vote and answers with a vote that starts
    at the best block and lasts the duration asked for, without
    eligible tickets (the version of the reply is not modelled). *)
Definition startVote (payload : string) (p : TestPoliteiad)
    : TestPoliteiad * (string * option error) :=
  match DecodeStartVote payload with
  | Err err => (p, ("", Some err))
  | Ok sv =>
      let vote := foneroplugin.StartVote_Vote sv in
      let token := foneroplugin.Vote_Token vote in
      let p := {| startVotes := <[token := sv]> (startVotes p);
                  startVoteReplies := startVoteReplies p |} in
      let endHeight := u32 (bestBlock + foneroplugin.Vote_Duration vote) in
      let svr :=
        {| foneroplugin.StartVoteReply_StartBlockHeight :=
             Go.FormatUint10 bestBlock;
           foneroplugin.StartVoteReply_StartBlockHash := "";
           foneroplugin.StartVoteReply_EndHeight := Go.FormatUint10 endHeight;
           foneroplugin.StartVoteReply_EligibleTickets := [] |} in
      match EncodeStartVoteReply svr with
      | Err err => (p, ("", Some err))
      | Ok svrb =>
          ({| startVotes := startVotes p;
              startVoteReplies := <[token := svr]> (startVoteReplies p) |},
           (svrb, None))
      end
  end.
End plugin.

End testpoliteiad.

(** * Properties *)

(** ** strings.Split and strings.Join *)

Lemma Split_not_nil s sep : Go.Split s sep ≠ [].
Proof.
  destruct s as [|a s]; simpl; [done|].
  destruct (Ascii.eqb a sep); [done|]. by destruct (Go.Split s sep).
Qed.

Lemma Split_without_sep s sep : ¬ Contains s sep → Go.Split s sep = [s].
Proof.
  induction s as [|a s IH]; simpl; intros Hs; [done|].
  destruct (Ascii.eqb_spec a sep) as [->|_]; [by destruct Hs; left|].
  rewrite IH; [done|]. intros ?. apply Hs. by right.
Qed.

Lemma Split_piece s sep rest :
  ¬ Contains s sep →
  Go.Split (s +:+ String sep rest) sep = s :: Go.Split rest sep.
Proof.
  induction s as [|a s IH]; simpl; intros Hs.
  - by rewrite Ascii.eqb_refl.
  - destruct (Ascii.eqb_spec a sep) as [->|_]; [by destruct Hs; left|].
    rewrite IH; [done|]. intros ?. apply Hs. by right.
Qed.

Lemma Split_Join (elems : list string) sep :
  elems ≠ [] →
  Forall (λ e, ¬ Contains e sep) elems →
  Go.Split (Go.Join elems (String sep "")) sep = elems.
Proof.
  intros Hne Hall. induction Hall as [|e rest He Hrest IH]; [done|].
  destruct rest as [|e' rest].
  - simpl. by apply Split_without_sep.
  - change (Go.Join (e :: e' :: rest) (String sep ""))
      with (e +:+ String sep "" +:+ Go.Join (e' :: rest) (String sep "")).
    replace (e +:+ String sep "" +:+ Go.Join (e' :: rest) (String sep ""))
      with (e +:+ String sep (Go.Join (e' :: rest) (String sep ""))) by done.
    rewrite Split_piece by done. f_equal. by apply IH.
Qed.

Lemma Join_empty (elems : list string) sep :
  Forall (λ e, e ≠ "") elems → Go.Join elems sep = "" → elems = [].
Proof.
  intros Hall. destruct Hall as [|e rest He Hrest]; [done|].
  destruct rest as [|e' rest]; simpl; [done|].
  destruct e; [done|]. discriminate.
Qed.

(** ** Lists *)

Lemma filter_none {A} (P : A → Prop) `{∀ x, Decision (P x)} (l : list A) :
  (∀ x, x ∈ l → ¬ P x) → filter P l = [].
Proof.
  induction l as [|x l IH]; intros Hl; [done|].
  rewrite filter_cons_False by (apply Hl; left).
  apply IH. intros y Hy. apply Hl. by right.
Qed.

Lemma filter_all {A} (P : A → Prop) `{∀ x, Decision (P x)} (l : list A) :
  (∀ x, x ∈ l → P x) → filter P l = l.
Proof.
  induction l as [|x l IH]; intros Hl; [done|].
  rewrite filter_cons_True by (apply Hl; left).
  f_equal. apply IH. intros y Hy. apply Hl. by right.
Qed.

(** ** The conversions of a start vote *)


(** C10: converting a start vote and its reply to a row of the cache and
    back recovers the public key, the signature and every field of the
    vote, and the start block height, the start block hash and the
    eligible tickets of the reply, with the end height in decimal, when
    the tickets are non-empty strings without comma; an empty list of
    tickets comes back empty. *)
Theorem convertStartVote_roundtrip (sv : foneroplugin.StartVote)
    (svr : foneroplugin.StartVoteReply) (h : Z) :
  Forall (λ t, t ≠ "" ∧ ¬ Contains t ",")
         (foneroplugin.StartVoteReply_EligibleTickets svr) →
  let back := convertStartVoteToFonero (convertStartVoteFromFonero sv svr h) in
  let vote := foneroplugin.StartVote_Vote sv in
  let vote' := foneroplugin.StartVote_Vote (fst back) in
  foneroplugin.StartVote_PublicKey (fst back) = foneroplugin.StartVote_PublicKey sv
  ∧ foneroplugin.StartVote_Signature (fst back)
    = foneroplugin.StartVote_Signature sv
  ∧ foneroplugin.Vote_Token vote' = foneroplugin.Vote_Token vote
  ∧ foneroplugin.Vote_Mask vote' = foneroplugin.Vote_Mask vote
  ∧ foneroplugin.Vote_Duration vote' = foneroplugin.Vote_Duration vote
  ∧ foneroplugin.Vote_QuorumPercentage vote'
    = foneroplugin.Vote_QuorumPercentage vote
  ∧ foneroplugin.Vote_PassPercentage vote'
    = foneroplugin.Vote_PassPercentage vote
  ∧ foneroplugin.Vote_Options vote' = foneroplugin.Vote_Options vote
  ∧ foneroplugin.StartVoteReply_StartBlockHeight (snd back)
    = foneroplugin.StartVoteReply_StartBlockHeight svr
  ∧ foneroplugin.StartVoteReply_StartBlockHash (snd back)
    = foneroplugin.StartVoteReply_StartBlockHash svr
  ∧ foneroplugin.StartVoteReply_EligibleTickets (snd back)
    = foneroplugin.StartVoteReply_EligibleTickets svr
  ∧ foneroplugin.StartVoteReply_EndHeight (snd back) = Go.FormatUint10 h.
Proof.
  intros Htickets back vote vote'. subst back vote vote'.
  destruct sv as [pk [token mask duration quorum pass options] sig].
  destruct svr as [height hash endHeight tickets].
  cbn -[Go.Split Go.Join Go.FormatUint10] in *.
  repeat split.
  - rewrite <-list_fmap_compose. rewrite <-(list_fmap_id options) at 2.
    apply list_fmap_ext. by intros _ [id description bits] _.
  - case_decide as Hjoin.
    + symmetry. apply (Join_empty _ ","); [|done].
      eapply Forall_impl; [done|]. by intros t [? _].
    + apply (Split_Join tickets ","%char).
      * by intros ->.
      * eapply Forall_impl; [done|]. by intros t [_ ?].
Qed.

Lemma convertStartVote_roundtrip_witness :
  let sv :=
    {| foneroplugin.StartVote_PublicKey := "pk";
       foneroplugin.StartVote_Vote :=
         {| foneroplugin.Vote_Token := "p"; foneroplugin.Vote_Mask := 3;
            foneroplugin.Vote_Duration := 2016;
            foneroplugin.Vote_QuorumPercentage := 20;
            foneroplugin.Vote_PassPercentage := 60;
            foneroplugin.Vote_Options :=
              [foneroplugin.Build_VoteOption "no" "reject" 1;
               foneroplugin.Build_VoteOption "yes" "approve" 2] |};
       foneroplugin.StartVote_Signature := "sig" |} in
  let svr := foneroplugin.Build_StartVoteReply "1000" "hash" "3016" ["t1"; "t2"] in
  foneroplugin.StartVoteReply_EligibleTickets
    (snd (convertStartVoteToFonero (convertStartVoteFromFonero sv svr 3016)))
  = ["t1"; "t2"]
  ∧ foneroplugin.StartVoteReply_EndHeight
      (snd (convertStartVoteToFonero (convertStartVoteFromFonero sv svr 3016)))
    = "3016".
Proof.
  intros sv svr.
  assert (Forall (λ t, t ≠ "" ∧ ¬ Contains t ",")
            (foneroplugin.StartVoteReply_EligibleTickets svr)) as H.
  { repeat constructor; try done; simpl; intros Hc;
      repeat (destruct Hc as [Hc|Hc]; [discriminate Hc|]); done. }
  pose proof (convertStartVote_roundtrip sv svr 3016 H) as Hall.
  split; [apply Hall|]. destruct Hall as (_&_&_&_&_&_&_&_&_&_&_&->). reflexivity.
Defined.



(** ** The database *)

Lemma fails_0 d : ¬ fails 0 d.
Proof. unfold fails. rewrite take_0. by intros ?%elem_of_nil. Qed.

Lemma fails_nil n t : ¬ fails n {| tables := t; faults := [] |}.
Proof. unfold fails. simpl. rewrite take_nil. by intros ?%elem_of_nil. Qed.


Lemma fails_cons n t f fs :
  fails (S n) {| tables := t; faults := f :: fs |}
  ↔ f = true ∨ fails n {| tables := t; faults := fs |}.
Proof.
  unfold fails. simpl. rewrite elem_of_cons. split; intros [?|?]; auto.
Qed.

Lemma fails_S n t fs :
  fails (S n) {| tables := t; faults := fs |}
  ↔ fails n {| tables := t; faults := fs |}
    ∨ fails 1 {| tables := t; faults := drop n fs |}.
Proof.
  unfold fails. simpl faults. revert fs. induction n as [|n IH]; intros fs.
  - rewrite take_0, drop_0. rewrite elem_of_nil. tauto.
  - destruct fs as [|f fs].
    + rewrite drop_nil, !take_nil. tauto.
    + rewrite !firstn_cons, !elem_of_cons, IH. simpl drop. tauto.
Qed.

(** The statements on a database given by its tables and its schedule. *)

Lemma Create_eq {R} (T : Table R) r t fs :
  Create T r {| tables := t; faults := fs |}
  = if negb (default false (head fs))
    then if hasKey T r (rows T t)
         then ({| tables := t; faults := tail fs |}, Some ErrDuplicateKey)
         else ({| tables := put T (rows T t ++ [r]) t; faults := tail fs |}, None)
    else ({| tables := t; faults := tail fs |}, Some ErrStorage).
Proof. done. Qed.

Lemma Delete_eq {R} (T : Table R) (P : R → Prop) `{∀ r, Decision (P r)} t fs :
  Delete T P {| tables := t; faults := fs |}
  = if negb (default false (head fs))
    then ({| tables := put T (filter (λ r, ¬ P r) (rows T t)) t;
             faults := tail fs |}, None)
    else ({| tables := t; faults := tail fs |}, Some ErrStorage).
Proof. done. Qed.

Lemma Updates_eq {R} (T : Table R) (P : R → Prop) `{∀ r, Decision (P r)} f t fs :
  Updates T P f {| tables := t; faults := fs |}
  = if negb (default false (head fs))
    then ({| tables := put T ((λ r, if decide (P r) then f r else r)
                                <$> rows T t) t;
             faults := tail fs |}, None)
    else ({| tables := t; faults := tail fs |}, Some ErrStorage).
Proof. done. Qed.

Lemma FindAll_eq {R} (T : Table R) (P : R → Prop) `{∀ r, Decision (P r)} t fs :
  FindAll T P {| tables := t; faults := fs |}
  = if negb (default false (head fs))
    then ({| tables := t; faults := tail fs |}, Ok (filter P (rows T t)))
    else ({| tables := t; faults := tail fs |}, Err ErrStorage).
Proof. done. Qed.

Lemma FindOne_eq {R} (T : Table R) (P : R → Prop) `{∀ r, Decision (P r)} t fs :
  FindOne T P {| tables := t; faults := fs |}
  = if negb (default false (head fs))
    then match last (filter P (rows T t)) with
         | Some r => ({| tables := t; faults := tail fs |}, Ok r)
         | None => ({| tables := t; faults := tail fs |}, Err gormErrRecordNotFound)
         end
    else ({| tables := t; faults := tail fs |}, Err ErrStorage).
Proof. done. Qed.

Lemma Rows_eq {A} (q : Tables → list A) t fs :
  Rows q {| tables := t; faults := fs |}
  = if negb (default false (head fs))
    then ({| tables := t; faults := tail fs |}, Ok (q t))
    else ({| tables := t; faults := tail fs |}, Err ErrStorage).
Proof. done. Qed.

Lemma Commit_eq d t fs :
  Commit d {| tables := t; faults := fs |}
  = if negb (default false (head fs))
    then ({| tables := t; faults := tail fs |}, None)
    else ({| tables := tables d; faults := tail fs |}, Some ErrStorage).
Proof. done. Qed.

(** Decide the next cases of the schedule of failures. *)
Ltac next_fault fs :=
  let f := fresh "f" in
  destruct fs as [|f fs]; [|destruct f]; cbn [head tail default from_option id negb].

Ltac fails_absurd H :=
  repeat first
    [ apply fails_cons in H as [H|H]; [discriminate H|]
    | by apply fails_nil in H
    | by apply fails_0 in H ].

Ltac fails_now := repeat first [ apply fails_cons; (by left) || right ].

(** ** Ballots *)

Lemma addVotes_spec votes t fs :
  let d := {| tables := t; faults := fs |} in
  let n := length votes in
  if decide (fails n d)
  then ∃ fs', addVotes votes d = ({| tables := tables (fst (addVotes votes d));
                                      faults := fs' |}, Some ErrStorage)
  else addVotes votes d
       = ({| tables := put tableCastVotes
                         (cast_votes t ++ (convertCastVoteFromFonero <$> votes)) t;
             faults := drop n fs |}, None).
Proof.
  revert t fs. induction votes as [|v votes IH]; intros t fs d n; subst d n.
  - rewrite decide_False by apply fails_0.
    simpl. rewrite app_nil_r. by destruct t.
  - simpl length.
    assert (
      put tableCastVotes
        (cast_votes (put tableCastVotes
                       (cast_votes t ++ [convertCastVoteFromFonero v]) t)
           ++ (convertCastVoteFromFonero <$> votes))
        (put tableCastVotes (cast_votes t ++ [convertCastVoteFromFonero v]) t)
      = put tableCastVotes
          (cast_votes t ++ (convertCastVoteFromFonero <$> v :: votes)) t) as Hput.
    { destruct t; simpl. f_equal. by rewrite <-app_assoc. }
    cbn [addVotes newCastVote Create step faults tables hasKey pkey
           tableCastVotes rows].
    fold tableCastVotes.
    next_fault fs.
    + rewrite decide_False by apply fails_nil.
      specialize (IH (put tableCastVotes
                        (cast_votes t ++ [convertCastVoteFromFonero v]) t) []).
      cbv zeta in IH. rewrite decide_False in IH by apply fails_nil.
      rewrite IH, !drop_nil, Hput; done.
    + rewrite decide_True by fails_now. by eexists.
    + specialize (IH (put tableCastVotes
                        (cast_votes t ++ [convertCastVoteFromFonero v]) t) fs).
      cbv zeta in IH.
      destruct (decide (fails (S _) _)) as [Hf|Hf];
        destruct (decide (fails (length votes) _)) as [Hf'|Hf'].
      * destruct IH as [fs' ->]. simpl. by eexists.
      * destruct Hf'. apply fails_cons in Hf as [?|Hf]; [done|]. done.
      * destruct Hf. apply fails_cons. by right.
      * rewrite IH, Hput; done.
Qed.

(** C5: cmdNewBallot inserts the votes of a ballot inside one
    transaction.  If an insertion (or the commit) fails, an error is
    returned and no cast vote of the batch is stored; otherwise all the
    votes are stored, in order, and the reply payload is returned as it
    came. *)
Theorem cmdNewBallot_all_or_nothing `{Codec} (cmdPayload replyPayload : string)
    (b : foneroplugin.Ballot) (d : DB) :
  DecodeBallot cmdPayload = Ok b →
  let votes := foneroplugin.Ballot_Votes b in
  let out := cmdNewBallot cmdPayload replyPayload d in
  if decide (fails (S (length votes)) d)
  then (∃ err, snd out = ("", Some err)) ∧ tables (fst out) = tables d
  else snd out = (replyPayload, None)
       ∧ tables (fst out)
         = put tableCastVotes
             (cast_votes (tables d) ++ (convertCastVoteFromFonero <$> votes))
             (tables d).
Proof.
  intros Hb votes out. subst out. unfold cmdNewBallot. rewrite Hb.
  fold votes. destruct d as [t fs]. unfold Begin.
  pose proof (addVotes_spec votes t fs) as Hadd. simpl in Hadd.
  pose proof (fails_S (length votes) t fs) as HS.
  case_decide as Hins.
  - destruct Hadd as [fs' ->]. simpl.
    rewrite decide_True by (apply HS; by left). eauto.
  - rewrite Hadd. unfold Commit, step. simpl faults.
    destruct (drop (length votes) fs) as [|[] fs'] eqn:Hdrop; simpl.
    + rewrite decide_False; [done|]. rewrite HS.
      intros [?|Hc]; [done|]. fails_absurd Hc.
    + rewrite decide_True; [eauto|]. rewrite HS. right. fails_now.
    + rewrite decide_False; [done|]. rewrite HS.
      intros [?|Hc]; [done|]. fails_absurd Hc.
Qed.

Lemma cmdNewBallot_all_or_nothing_witness :
  let failing := {| tables := emptyTables; faults := [false; true] |} in
  tables (fst (@cmdNewBallot lineCodec "p:t1:2:s,p:t2:1:s" "receipts" failing))
  = emptyTables
  ∧ length (cast_votes (tables (fst (@cmdNewBallot lineCodec
                                      "p:t1:2:s,p:t2:1:s" "receipts" emptyDB))))
    = 2%nat.
Proof.
  intros failing. split.
  - pose proof (@cmdNewBallot_all_or_nothing lineCodec "p:t1:2:s,p:t2:1:s"
                  "receipts" _ failing eq_refl) as Hall.
    rewrite decide_True in Hall by (subst failing; fails_now).
    apply Hall.
  - pose proof (@cmdNewBallot_all_or_nothing lineCodec "p:t1:2:s,p:t2:1:s"
                  "receipts" _ emptyDB eq_refl) as Hall.
    rewrite decide_False in Hall by apply fails_nil.
    destruct Hall as [_ ->]. reflexivity.
Defined.

(** ** Authorize votes *)

Lemma key_deleted (a : AuthorizeVote) (l : list AuthorizeVote) :
  hasKey tableAuthorizeVotes a
    (filter (λ r, ¬ AuthorizeVote_Key r = AuthorizeVote_Key a) l) = false.
Proof.
  unfold hasKey. simpl. apply bool_decide_eq_false.
  intros (r & Hkey & [Hr _]%list_elem_of_filter)%list_elem_of_fmap. by destruct Hr.
Qed.

Lemma newAuthorizeVote_spec a t fs :
  let d := {| tables := t; faults := fs |} in
  if decide (fails 2 d)
  then ∃ err fs', newAuthorizeVote d a = ({| tables := tables (fst (newAuthorizeVote d a));
                                             faults := fs' |}, Some err)
  else newAuthorizeVote d a
       = ({| tables :=
               put tableAuthorizeVotes
                 (filter (λ r, ¬ AuthorizeVote_Key r = AuthorizeVote_Key a)
                    (authorize_votes t) ++ [a]) t;
             faults := drop 2 fs |}, None).
Proof.
  intros d. subst d. unfold newAuthorizeVote. rewrite Delete_eq.
  next_fault fs.
  - rewrite decide_False by apply fails_nil.
    rewrite Create_eq. simpl negb. cbv iota.
    change (rows tableAuthorizeVotes (put tableAuthorizeVotes ?l _)) with l.
    rewrite key_deleted. reflexivity.
  - rewrite decide_True by fails_now. by do 2 eexists.
  - rewrite Create_eq.
    change (rows tableAuthorizeVotes (put tableAuthorizeVotes ?l _)) with l.
    rewrite key_deleted.
    next_fault fs.
    + rewrite decide_False by (intros Hc; fails_absurd Hc). reflexivity.
    + rewrite decide_True by fails_now. by do 2 eexists.
    + rewrite decide_False by (intros Hc; fails_absurd Hc). reflexivity.
Qed.

Lemma cmdAuthorizeVote_spec `{Codec} cmdPayload replyPayload av avr v t fs :
  DecodeAuthorizeVote cmdPayload = Ok av →
  DecodeAuthorizeVoteReply replyPayload = Ok avr →
  Go.ParseUint10 (foneroplugin.AuthorizeVoteReply_RecordVersion avr) = Some v →
  let d := {| tables := t; faults := fs |} in
  let a := convertAuthorizeVoteFromFonero av avr v in
  let out := cmdAuthorizeVote cmdPayload replyPayload d in
  if decide (fails 3 d)
  then (∃ err, snd out = ("", Some err)) ∧ tables (fst out) = t
  else out = ({| tables :=
                   put tableAuthorizeVotes
                     (filter (λ r, ¬ AuthorizeVote_Key r = AuthorizeVote_Key a)
                        (authorize_votes t) ++ [a]) t;
                 faults := drop 3 fs |}, (replyPayload, None)).
Proof.
  intros Hav Havr Hv d a out. subst d out. unfold cmdAuthorizeVote.
  rewrite Hav, Havr, Hv. fold a. unfold Begin.
  pose proof (newAuthorizeVote_spec a t fs) as Hnew. cbv zeta in Hnew.
  pose proof (fails_S 2 t fs) as HS.
  destruct (decide (fails 2 _)) as [H2|H2].
  - destruct Hnew as (err & fs' & ->). simpl.
    rewrite decide_True by (apply HS; by left). eauto.
  - rewrite Hnew, Commit_eq.
    replace (drop 3 fs) with (tail (drop 2 fs))
      by (by destruct fs as [|? [|? [|? ?]]]).
    destruct (drop 2 fs) as [|[] fs'] eqn:Hdrop; simpl.
    + rewrite decide_False; [done|]. rewrite HS.
      intros [?|Hc]; [done|]. fails_absurd Hc.
    + rewrite decide_True; [eauto|]. rewrite HS. right. fails_now.
    + rewrite decide_False; [done|]. rewrite HS.
      intros [?|Hc]; [done|]. fails_absurd Hc.
Qed.





(** ** Comments *)

Lemma filter_key_unique {A} (key : A → string) (l : list A) (c : A) :
  NoDup (key <$> l) → c ∈ l → filter (λ x, key x = key c) l = [c].
Proof.
  induction l as [|x l IH]; intros Hnd Hc; [by apply elem_of_nil in Hc|].
  rewrite fmap_cons in Hnd. apply NoDup_cons in Hnd as [Hx Hnd].
  apply elem_of_cons in Hc as [->|Hc].
  - rewrite filter_cons_True by done. f_equal. apply filter_none.
    intros y Hy Hkey. apply Hx. rewrite <-Hkey. by apply list_elem_of_fmap_2.
  - rewrite filter_cons_False; [by apply IH|].
    intros Hkey. apply Hx. rewrite Hkey. by apply list_elem_of_fmap_2.
Qed.

Lemma key_inj {A} (key : A → string) (l : list A) (x y : A) :
  NoDup (key <$> l) → x ∈ l → y ∈ l → key x = key y → x = y.
Proof.
  intros Hnd Hx Hy Hkey.
  assert (x ∈ filter (λ z, key z = key y) l) as Hin
    by (by apply list_elem_of_filter).
  rewrite filter_key_unique in Hin by done.
  by apply list_elem_of_singleton in Hin.
Qed.

Lemma filter_updated {A} (key : A → string) (k : string) (f : A → A)
    (l : list A) :
  (∀ x, key (f x) = key x) →
  filter (λ x, key x = k) ((λ x, if decide (key x = k) then f x else x) <$> l)
  = f <$> filter (λ x, key x = k) l.
Proof.
  intros Hf. induction l as [|x l IH]; [done|].
  rewrite fmap_cons. destruct (decide (key x = k)) as [Hk|Hk].
  - rewrite !filter_cons_True by (by rewrite ?Hf). by rewrite fmap_cons, IH.
  - by rewrite !filter_cons_False.
Qed.

(** C6: censoring a stored comment empties its message and marks it as
    censored; every other field of the row and every other row are left
    as they were, and the row can still be fetched: getcomment for the
    same token and comment ID succeeds with the emptied, censored
    comment. *)
Theorem cmdCensorComment_frame `{Codec} (d : DB) (c : Comment)
    (censorPayload replyPayload getPayload getReply : string) :
  faults d = [] →
  wf_tables (tables d) →
  c ∈ comments (tables d) →
  DecodeCensorComment censorPayload
  = Ok {| foneroplugin.CensorComment_Token := Comment_Token c;
          foneroplugin.CensorComment_CommentID := Comment_CommentID c |} →
  DecodeGetComment getPayload
  = Ok {| foneroplugin.GetComment_Token := Comment_Token c;
          foneroplugin.GetComment_CommentID := Comment_CommentID c |} →
  encodes EncodeGetCommentReply →
  let out := Exec foneroplugin.CmdCensorComment censorPayload replyPayload d in
  let c' := censored c in
  snd out = (replyPayload, None)
  ∧ comments (tables (fst out))
    = (λ x, if decide (x = c) then c' else x) <$> comments (tables d)
  ∧ tables (fst out) = put tableComments (comments (tables (fst out))) (tables d)
  ∧ (Comment_Comment c' = "" ∧ Comment_Censored c' = true)
  ∧ (Comment_Key c' = Comment_Key c
     ∧ Comment_Token c' = Comment_Token c
     ∧ Comment_CommentID c' = Comment_CommentID c
     ∧ Comment_ParentID c' = Comment_ParentID c
     ∧ Comment_PublicKey c' = Comment_PublicKey c
     ∧ Comment_Signature c' = Comment_Signature c
     ∧ Comment_Receipt c' = Comment_Receipt c
     ∧ Comment_Timestamp c' = Comment_Timestamp c)
  ∧ ∃ payload,
      Exec foneroplugin.CmdGetComment getPayload getReply (fst out)
      = (fst out, (payload, None))
      ∧ EncodeGetCommentReply
          {| foneroplugin.GetCommentReply_Comment := convertCommentToFonero c' |}
        = Ok payload
      ∧ foneroplugin.Comment_Comment (convertCommentToFonero c') = ""
      ∧ foneroplugin.Comment_Censored (convertCommentToFonero c') = true.
Proof.
  intros Hd [Hnd Hkeys _ _ _] Hc Hcensor Hget Henc out c'. subst out.
  destruct d as [t fs]. simpl in Hd, Hnd, Hkeys, Hc. subst fs.
  change (Exec foneroplugin.CmdCensorComment censorPayload replyPayload
            {| tables := t; faults := [] |})
    with (cmdCensorComment censorPayload replyPayload
            {| tables := t; faults := [] |}).
  unfold cmdCensorComment. rewrite Hcensor, Updates_eq.
  cbn [head tail default from_option id negb fst snd tables
         foneroplugin.CensorComment_Token foneroplugin.CensorComment_CommentID].
  change (rows tableComments t) with (comments t).
  change (comments (put tableComments ?l _)) with l.
  assert (Comment_Key c = Comment_Token c +:+ Comment_CommentID c) as Hkey
    by (by eapply Forall_forall in Hkeys).
  rewrite <-Hkey.
  assert (((λ r, if decide (Comment_Key r = Comment_Key c) then censored r else r)
             <$> comments t)
          = (λ x, if decide (x = c) then c' else x) <$> comments t) as Hmap.
  { apply list_fmap_ext. intros i x Hx%list_elem_of_lookup_2.
    destruct (decide (Comment_Key x = Comment_Key c)) as [Hk|Hk].
    - apply key_inj with (l := comments t) in Hk as ->; [|done..].
      by rewrite decide_True.
    - rewrite decide_False; [done|]. by intros ->. }
  split; [done|]. split; [done|]. split; [done|]. split; [done|].
  split; [done|].
  destruct (Henc {| foneroplugin.GetCommentReply_Comment :=
                       convertCommentToFonero c' |}) as [payload Hpayload].
  exists payload. split; [|done].
  change (Exec foneroplugin.CmdGetComment getPayload getReply ?d)
    with (cmdGetComment getPayload d).
  unfold cmdGetComment. rewrite Hget, FindOne_eq.
  cbn [head tail default from_option id negb
         foneroplugin.GetComment_Token foneroplugin.GetComment_CommentID].
  rewrite <-Hkey.
  change (rows tableComments (put tableComments ?l _)) with l.
  rewrite (filter_updated Comment_Key (Comment_Key c) censored) by done.
  rewrite (filter_key_unique Comment_Key) by done.
  cbn [fmap list_fmap last]. fold c'. by rewrite Hpayload.
Qed.

Lemma cmdCensorComment_frame_witness :
  let d := {| tables := put tableComments [sampleComment] emptyTables;
              faults := [] |} in
  comments (tables (fst (@Exec lineCodec foneroplugin.CmdCensorComment
                           "p,1" "receipt" d)))
  = [censored sampleComment].
Proof.
  intros d.
  assert (wf_tables (tables d)) as Hwf.
  { split; simpl; repeat constructor; try done;
      by intros ?%elem_of_nil. }
  assert (sampleComment ∈ comments (tables d)) as Hin by (left).
  assert (@encodes _ (@EncodeGetCommentReply lineCodec)) as Henc
    by (intros r; by eexists).
  pose proof (@cmdCensorComment_frame lineCodec d sampleComment "p,1" "receipt"
                "p,1" "" eq_refl Hwf Hin eq_refl eq_refl Henc)
    as (_ & Hrows & _).
  exact Hrows.
Defined.

(** ** Queries without matching rows *)

(** C8: getcomments, commentlikes, proposalcommentslikes and
    proposalvotes answer a payload that decodes and matches no stored
    row with the encoding of an empty collection, without error. *)
Theorem collection_queries_without_rows `{Codec} (d : DB)
    (payload replyPayload : string) :
  faults d = [] →
  (∀ gc, DecodeGetComments payload = Ok gc →
         encodes EncodeGetCommentsReply →
         (∀ c, c ∈ comments (tables d) →
               Comment_Token c ≠ foneroplugin.GetComments_Token gc) →
         ∃ reply,
           Exec foneroplugin.CmdGetComments payload replyPayload d
           = (d, (reply, None))
           ∧ EncodeGetCommentsReply
               {| foneroplugin.GetCommentsReply_Comments := [] |} = Ok reply)
  ∧ (∀ cl, DecodeCommentLikes payload = Ok cl →
           encodes EncodeCommentLikesReply →
           (∀ l, l ∈ comment_likes (tables d) →
                 ¬ (LikeComment_Token l = foneroplugin.CommentLikes_Token cl
                    ∧ LikeComment_CommentID l
                        = foneroplugin.CommentLikes_CommentID cl)) →
           ∃ reply,
             Exec foneroplugin.CmdCommentLikes payload replyPayload d
             = (d, (reply, None))
             ∧ EncodeCommentLikesReply
                 {| foneroplugin.CommentLikesReply_CommentLikes := [] |}
               = Ok reply)
  ∧ (∀ cl, DecodeGetProposalCommentsLikes payload = Ok cl →
           encodes EncodeGetProposalCommentsLikesReply →
           (∀ l, l ∈ comment_likes (tables d) →
                 LikeComment_Token l
                 ≠ foneroplugin.GetProposalCommentsLikes_Token cl) →
           ∃ reply,
             Exec foneroplugin.CmdProposalCommentsLikes payload replyPayload d
             = (d, (reply, None))
             ∧ EncodeGetProposalCommentsLikesReply
                 {| foneroplugin.GetProposalCommentsLikesReply_CommentsLikes
                      := [] |}
               = Ok reply)
  ∧ (∀ vr, DecodeVoteResults payload = Ok vr →
           encodes EncodeVoteResultsReply →
           (∀ s, s ∈ start_votes (tables d) →
                 StartVote_Token s ≠ foneroplugin.VoteResults_Token vr) →
           (∀ c, c ∈ cast_votes (tables d) →
                 CastVote_Token c ≠ foneroplugin.VoteResults_Token vr) →
           ∃ reply,
             Exec foneroplugin.CmdProposalVotes payload replyPayload d
             = (d, (reply, None))
             ∧ EncodeVoteResultsReply
                 {| foneroplugin.VoteResultsReply_StartVote :=
                      fst (convertStartVoteToFonero zeroStartVote);
                    foneroplugin.VoteResultsReply_CastVotes := [] |}
               = Ok reply).
Proof.
  destruct d as [t fs]. simpl. intros ->. repeat split.
  - intros gc Hgc Henc Hnone.
    destruct (Henc {| foneroplugin.GetCommentsReply_Comments := [] |})
      as [reply Hreply].
    exists reply. split; [|done].
    change (Exec foneroplugin.CmdGetComments payload replyPayload ?d)
      with (cmdGetComments payload d).
    unfold cmdGetComments. rewrite Hgc, FindAll_eq.
    cbn [head tail default from_option id negb].
    rewrite filter_none by done. by rewrite fmap_nil, Hreply.
  - intros cl Hcl Henc Hnone.
    destruct (Henc {| foneroplugin.CommentLikesReply_CommentLikes := [] |})
      as [reply Hreply].
    exists reply. split; [|done].
    change (Exec foneroplugin.CmdCommentLikes payload replyPayload ?d)
      with (cmdCommentLikes payload d).
    unfold cmdCommentLikes. rewrite Hcl, FindAll_eq.
    cbn [head tail default from_option id negb].
    rewrite filter_none by done. by rewrite fmap_nil, Hreply.
  - intros cl Hcl Henc Hnone.
    destruct (Henc {| foneroplugin.GetProposalCommentsLikesReply_CommentsLikes
                        := [] |}) as [reply Hreply].
    exists reply. split; [|done].
    change (Exec foneroplugin.CmdProposalCommentsLikes payload replyPayload ?d)
      with (cmdProposalCommentsLikes payload d).
    unfold cmdProposalCommentsLikes. rewrite Hcl, FindAll_eq.
    cbn [head tail default from_option id negb].
    rewrite filter_none by done. by rewrite fmap_nil, Hreply.
  - intros vr Hvr Henc Hsv Hcv.
    destruct (Henc {| foneroplugin.VoteResultsReply_StartVote :=
                        fst (convertStartVoteToFonero zeroStartVote);
                      foneroplugin.VoteResultsReply_CastVotes := [] |})
      as [reply Hreply].
    exists reply. split; [|done].
    change (Exec foneroplugin.CmdProposalVotes payload replyPayload ?d)
      with (cmdProposalVotes payload d).
    unfold cmdProposalVotes. rewrite Hvr, FindOne_eq.
    cbn [head tail default from_option id negb].
    rewrite filter_none by done. cbn [last].
    rewrite decide_True by done. rewrite FindAll_eq.
    cbn [head tail default from_option id negb].
    rewrite filter_none by done. by rewrite fmap_nil, Hreply.
Qed.

Lemma collection_queries_without_rows_witness :
  snd (@Exec lineCodec foneroplugin.CmdGetComments "p" "" emptyDB) = ("", None).
Proof.
  pose proof (@collection_queries_without_rows lineCodec emptyDB "p" "" eq_refl)
    as (Hcomments & _).
  destruct (Hcomments (foneroplugin.Build_GetComments "p") eq_refl)
    as (reply & -> & Hreply).
  - intros r. by eexists.
  - by intros c ?%elem_of_nil.
  - simpl in *. by injection Hreply as <-.
Defined.

(** ** Payloads that do not decode *)

(** C7 (as the code behaves): when the payload of votedetails does not
    decode, cmdVoteDetails returns the empty payload with a nil error;
    the decode error is dropped. *)
Theorem cmdVoteDetails_drops_decode_error `{Codec} (payload replyPayload : string)
    (d : DB) (err : error) :
  DecodeVoteDetails payload = Err err →
  Exec foneroplugin.CmdVoteDetails payload replyPayload d = (d, ("", None)).
Proof.
  intros Herr.
  change (Exec foneroplugin.CmdVoteDetails payload replyPayload d)
    with (cmdVoteDetails payload d).
  unfold cmdVoteDetails. by rewrite Herr.
Qed.

Lemma cmdVoteDetails_drops_decode_error_witness :
  @DecodeVoteDetails lineCodec "" = Err (ErrCodec "")
  ∧ @Exec lineCodec foneroplugin.CmdVoteDetails "" "" emptyDB
    = (emptyDB, ("", None)).
Proof.
  split; [reflexivity|].
  exact (@cmdVoteDetails_drops_decode_error lineCodec "" "" emptyDB
           (ErrCodec "") eq_refl).
Defined.

(** X2: The other handlers that decode their command payload return the
    error of the decoder. *)
Lemma Exec_decode_error `{Codec} (payload replyPayload : string) (d : DB)
    (err : error) :
  (DecodeAuthorizeVote payload = Err err →
   Exec foneroplugin.CmdAuthorizeVote payload replyPayload d = (d, ("", Some err)))
  ∧ (DecodeStartVote payload = Err err →
     Exec foneroplugin.CmdStartVote payload replyPayload d = (d, ("", Some err)))
  ∧ (DecodeBallot payload = Err err →
     Exec foneroplugin.CmdBallot payload replyPayload d = (d, ("", Some err)))
  ∧ (DecodeNewComment payload = Err err →
     Exec foneroplugin.CmdNewComment payload replyPayload d = (d, ("", Some err)))
  ∧ (DecodeLikeComment payload = Err err →
     Exec foneroplugin.CmdLikeComment payload replyPayload d = (d, ("", Some err)))
  ∧ (DecodeCensorComment payload = Err err →
     Exec foneroplugin.CmdCensorComment payload replyPayload d
     = (d, ("", Some err)))
  ∧ (DecodeGetComment payload = Err err →
     Exec foneroplugin.CmdGetComment payload replyPayload d = (d, ("", Some err)))
  ∧ (DecodeGetComments payload = Err err →
     Exec foneroplugin.CmdGetComments payload replyPayload d = (d, ("", Some err)))
  ∧ (DecodeVoteResults payload = Err err →
     Exec foneroplugin.CmdProposalVotes payload replyPayload d
     = (d, ("", Some err)))
  ∧ (DecodeCommentLikes payload = Err err →
     Exec foneroplugin.CmdCommentLikes payload replyPayload d = (d, ("", Some err)))
  ∧ (DecodeGetProposalCommentsLikes payload = Err err →
     Exec foneroplugin.CmdProposalCommentsLikes payload replyPayload d
     = (d, ("", Some err)))
  ∧ (DecodeLoadVoteResults payload = Err err →
     Exec foneroplugin.CmdLoadVoteResults payload replyPayload d
     = (d, ("", Some err)))
  ∧ (DecodeTokenInventory payload = Err err →
     Exec foneroplugin.CmdTokenInventory payload replyPayload d
     = (d, ("", Some err)))
  ∧ (DecodeVoteSummary payload = Err err →
     Exec foneroplugin.CmdVoteSummary payload replyPayload d = (d, ("", Some err))).
Proof.
  repeat split; intros Herr;
    match goal with
    | |- Exec ?cmd _ _ _ = _ =>
        let e := eval cbv in cmd in change cmd with e
    end;
    unfold Exec; simpl;
    unfold cmdAuthorizeVote, cmdStartVote, cmdNewBallot, cmdNewComment,
      cmdLikeComment, cmdCensorComment, cmdGetComment, cmdGetComments,
      cmdProposalVotes, cmdCommentLikes, cmdProposalCommentsLikes,
      cmdLoadVoteResults, cmdTokenInventory, cmdVoteSummary;
    by rewrite Herr.
Qed.

(** ** The tally *)

Lemma countVoteBit_cons bit c cast :
  countVoteBit bit (c :: cast)
  = (if decide (CastVote_VoteBit c = bit) then 1 else 0) + countVoteBit bit cast.
Proof.
  unfold countVoteBit. rewrite filter_cons. case_decide; simpl length; lia.
Qed.

Lemma countVoteBit_bounds bit cast :
  0 ≤ countVoteBit bit cast ≤ Z.of_nat (length cast).
Proof.
  unfold countVoteBit. pose proof (length_filter (λ c, CastVote_VoteBit c = bit) cast).
  lia.
Qed.

Lemma u64_small z : 0 ≤ z < 2 ^ 64 → Go.u64 z = z.
Proof. intros. unfold Go.u64. by apply Z.mod_small. Qed.

Lemma tally_fold (cast : list CastVote) (acc : gmap string Z) (bit : string) :
  0 ≤ default 0 (acc !! bit) →
  default 0 (acc !! bit) + countVoteBit bit cast < 2 ^ 64 →
  default 0
    (foldl (λ tally v,
              <[CastVote_VoteBit v :=
                  Go.u64 (default 0 (tally !! CastVote_VoteBit v) + 1)]> tally)
           acc cast !! bit)
  = default 0 (acc !! bit) + countVoteBit bit cast.
Proof.
  revert acc. induction cast as [|c cast IH]; intros acc Hpos Hbound.
  - unfold countVoteBit. simpl. lia.
  - rewrite countVoteBit_cons in *. pose proof (countVoteBit_bounds bit cast).
    cbn [foldl]. destruct (decide (CastVote_VoteBit c = bit)) as [->|Hne].
    + rewrite IH; rewrite lookup_insert_eq; cbn [default from_option id];
        rewrite u64_small by lia; lia.
    + rewrite IH; rewrite lookup_insert_ne by done; lia.
Qed.

Lemma tallyVotes_count (cast : list CastVote) (bit : string) :
  Z.of_nat (length cast) < 2 ^ 64 →
  default 0 (tallyVotes cast !! bit) = countVoteBit bit cast.
Proof.
  intros Hlen. pose proof (countVoteBit_bounds bit cast).
  unfold tallyVotes. rewrite tally_fold; rewrite lookup_empty; simpl; lia.
Qed.

Lemma votesForOptions_bounds options cast :
  0 ≤ votesForOptions options cast
    ≤ Z.of_nat (length options) * Z.of_nat (length cast).
Proof.
  induction options as [|o options IH]; simpl; [lia|].
  pose proof (countVoteBit_bounds (Go.FormatUint16 (VoteOption_Bits o)) cast).
  lia.
Qed.

Lemma total_fold token options cast (acc : Z) :
  Z.of_nat (length cast) < 2 ^ 64 →
  0 ≤ acc →
  acc + votesForOptions options cast < 2 ^ 64 →
  foldl (λ total v, Go.u64 (total + VoteOptionResult_Votes v)) acc
        (voteOptionResults token options (tallyVotes cast))
  = acc + votesForOptions options cast.
Proof.
  intros Hlen. revert acc.
  induction options as [|o options IH]; intros acc Hacc Hbound; simpl; [lia|].
  simpl in Hbound.
  pose proof (countVoteBit_bounds (Go.FormatUint16 (VoteOption_Bits o)) cast).
  pose proof (votesForOptions_bounds options cast).
  rewrite tallyVotes_count by done.
  rewrite u64_small by lia.
  fold (voteOptionResults token options (tallyVotes cast)).
  rewrite IH; lia.
Qed.

Lemma totalVotes_sum token options cast :
  Z.of_nat (length options) * Z.of_nat (length cast) < 2 ^ 64 →
  Z.of_nat (length cast) < 2 ^ 64 →
  totalVotes (voteOptionResults token options (tallyVotes cast))
  = votesForOptions options cast.
Proof.
  intros Hbound Hlen. pose proof (votesForOptions_bounds options cast).
  unfold totalVotes. rewrite total_fold; lia.
Qed.

Lemma approvedVotes_last token options cast :
  Z.of_nat (length cast) < 2 ^ 64 →
  approvedVotes (voteOptionResults token options (tallyVotes cast))
  = votesForApproval options cast.
Proof.
  intros Hlen. unfold approvedVotes, votesForApproval, voteOptionResults.
  induction options as [|o options IH] using rev_ind; [done|].
  rewrite fmap_app, foldl_app, filter_app. cbn [fmap list_fmap foldl].
  cbn [VoteOptionResult_Option VoteOptionResult_Votes].
  rewrite IH. rewrite filter_cons, filter_nil.
  destruct (decide (VoteOption_ID o = voteOptionIDApproved)).
  - rewrite last_snoc. by apply tallyVotes_count.
  - by rewrite app_nil_r.
Qed.

Lemma votesForOptions_cons options c cast :
  votesForOptions options (c :: cast)
  = Z.of_nat (length (filter (λ o, Go.FormatUint16 (VoteOption_Bits o)
                                   = CastVote_VoteBit c) options))
    + votesForOptions options cast.
Proof.
  induction options as [|o options IH]; simpl; [done|].
  rewrite IH, countVoteBit_cons, filter_cons.
  destruct (decide (CastVote_VoteBit c = Go.FormatUint16 (VoteOption_Bits o)))
    as [Heq|Hne].
  - rewrite decide_True by done. simpl length. lia.
  - rewrite decide_False by done. lia.
Qed.

(** When the options have different bits and every cast vote is for one
    of them, the options receive as many votes as were cast. *)
Lemma votesForOptions_all options cast :
  NoDup ((λ o, Go.FormatUint16 (VoteOption_Bits o)) <$> options) →
  (∀ c, c ∈ cast →
        CastVote_VoteBit c
          ∈ (λ o, Go.FormatUint16 (VoteOption_Bits o)) <$> options) →
  votesForOptions options cast = Z.of_nat (length cast).
Proof.
  intros Hnd. induction cast as [|c cast IH]; intros Hall.
  - clear. induction options as [|o options IH]; simpl; [done|].
    rewrite IH. unfold countVoteBit. simpl. lia.
  - rewrite votesForOptions_cons, IH
      by (intros c' Hc'; apply Hall; by right).
    assert (c ∈ c :: cast) as Hc by (by left).
    apply Hall, list_elem_of_fmap_1 in Hc as (o & Hbit & Ho).
    rewrite Hbit.
    rewrite (filter_key_unique (λ o, Go.FormatUint16 (VoteOption_Bits o)))
      by done.
    simpl length. lia.
Qed.

Lemma newVoteResults_healthy token t sv :
  last (filter (λ s, StartVote_Token s = token) (start_votes t)) = Some sv →
  token ∉ VoteResults_Token <$> vote_results t →
  newVoteResults token {| tables := t; faults := [] |}
  = ({| tables :=
          put tableVoteResults
            (vote_results t
               ++ [voteResultsOf token sv
                     (filter (λ c, CastVote_Token c = token) (cast_votes t))]) t;
        faults := [] |}, None).
Proof.
  intros Hsv Hnew. unfold newVoteResults.
  rewrite FindOne_eq. cbn [head tail default from_option id negb].
  change (rows tableStartVotes t) with (start_votes t). rewrite Hsv.
  rewrite FindAll_eq. cbn [head tail default from_option id negb].
  rewrite Create_eq. cbn [head tail default from_option id negb].
  unfold hasKey. cbn [pkey tableVoteResults rows VoteResults_Token voteResultsOf].
  by rewrite bool_decide_eq_false_2.
Qed.

Lemma voteApproved_true total quorum approved pass :
  voteApproved total quorum approved pass = true
  ↔ quorum ≤ total ∧ pass ≤ approved.
Proof. unfold voteApproved. repeat case_decide; split; try done; lia. Qed.

(** C1 (amended): newVoteResults marks the vote approved exactly when
    the total reaches the quorum and the votes for "yes" reach the pass
    threshold, where the total is the sum over the options of the start
    vote of the cast votes carrying the option's bits (the number of cast
    votes of the token when the options have different bits and every
    vote is for one of them), the quorum is
    uint64(float64(quorumPercentage)/100 * float64(eligible)) with
    eligible the number of comma-separated pieces of the stored ticket
    string, and the pass threshold is
    uint64(float64(passPercentage)/100 * float64(total)), both computed in
    binary64.  With 100 eligible tickets, a quorum of 20 percent and a
    pass threshold of 60 percent, 20 yes and 10 no votes are approved and
    10 yes and 5 no votes are not. *)
Theorem newVoteResults_approved :
  (∀ (token : string) (sv : StartVote) (d : DB),
     faults d = [] →
     filter (λ s, StartVote_Token s = token) (start_votes (tables d)) = [sv] →
     token ∉ VoteResults_Token <$> vote_results (tables d) →
     let cast := filter (λ c, CastVote_Token c = token) (cast_votes (tables d)) in
     let options := StartVote_Options sv in
     Z.of_nat (length cast) < 2 ^ 64 →
     Z.of_nat (length options) * Z.of_nat (length cast) < 2 ^ 64 →
     let total := votesForOptions options cast in
     let eligible :=
       Z.of_nat (length (Go.Split (StartVote_EligibleTickets sv) ",")) in
     let quorum := percentOf (StartVote_QuorumPercentage sv) eligible in
     let pass := percentOf (StartVote_PassPercentage sv) total in
     ∃ row,
       newVoteResults token d
       = ({| tables := put tableVoteResults
                         (vote_results (tables d) ++ [row]) (tables d);
             faults := [] |}, None)
       ∧ VoteResults_Token row = token
       ∧ (VoteResults_Approved row = true
          ↔ quorum ≤ total ∧ pass ≤ votesForApproval options cast)
       ∧ (NoDup ((λ o, Go.FormatUint16 (VoteOption_Bits o)) <$> options) →
          (∀ c, c ∈ cast →
                CastVote_VoteBit c
                  ∈ (λ o, Go.FormatUint16 (VoteOption_Bits o)) <$> options) →
          total = Z.of_nat (length cast)))
  ∧ (let sv := sampleStartVote 20 60 100 in
     let approved cast :=
       VoteResults_Approved
         <$> vote_results (tables (fst (newVoteResults "p" (sampleDB sv cast)))) in
     quorumVotes sv = 20
     ∧ passVotes sv 30 = 18
     ∧ approved (sampleVotes "2" 0 20 ++ sampleVotes "1" 20 10) = [true]
     ∧ approved (sampleVotes "2" 0 10 ++ sampleVotes "1" 10 5) = [false]).
Proof.
  split.
  - intros token sv [t fs] Hd Hsv Hnew cast options Hlen Hbound total eligible
      quorum pass.
    simpl in Hd, Hsv, Hnew. subst fs.
    exists (voteResultsOf token sv cast). split; [|split; [done|split]].
    + unfold cast. cbn [tables].
      apply (newVoteResults_healthy token t sv); [by rewrite Hsv|done].
    + unfold voteResultsOf. cbn [VoteResults_Approved].
      rewrite voteApproved_true. fold options.
      rewrite totalVotes_sum, approvedVotes_last by done.
      done.
    + apply votesForOptions_all.
  - by vm_compute.
Qed.

Lemma newVoteResults_approved_witness :
  let d := sampleDB (sampleStartVote 20 60 100)
             (sampleVotes "2" 0 20 ++ sampleVotes "1" 20 10) in
  ∃ row, fst (newVoteResults "p" d)
         = {| tables := put tableVoteResults [row] (tables d); faults := [] |}
         ∧ VoteResults_Token row = "p".
Proof.
  intros d.
  destruct (proj1 newVoteResults_approved "p" (sampleStartVote 20 60 100) d)
    as (row & Hrow & Htoken & _).
  - reflexivity.
  - reflexivity.
  - by intros ?%elem_of_nil.
  - by vm_compute.
  - by vm_compute.
  - exists row. by rewrite Hrow.
Defined.

(** C1 as the specification words it does not hold: the quorum of 29
    percent of 100 tickets is 28 in binary64 and not 29; a cast vote
    whose bit is not the bit of an option is not counted in the total;
    and a start vote stored from an empty ticket list has an eligible
    universe of one ticket, not zero. *)
Lemma newVoteResults_not_spec_approved :
  let approved sv cast :=
    VoteResults_Approved
      <$> vote_results (tables (fst (newVoteResults "p" (sampleDB sv cast)))) in
  (approved (sampleStartVote 29 60 100) (sampleVotes "2" 0 28) = [true]
   ∧ spec_approved "p" (sampleStartVote 29 60 100) (sampleVotes "2" 0 28) = false)
  ∧ (approved (sampleStartVote 20 60 10)
       (sampleVotes "2" 0 1 ++ sampleVotes "3" 1 1) = [false]
     ∧ spec_approved "p" (sampleStartVote 20 60 10)
         (sampleVotes "2" 0 1 ++ sampleVotes "3" 1 1) = true)
  ∧ (approved (sampleStartVote 100 60 0) [] = [false]
     ∧ spec_approved "p" (sampleStartVote 100 60 0) [] = true).
Proof. by vm_compute. Qed.

(** ** Lazily loaded vote results *)

Lemma NoDup_fmap_filter {A B} (f : A → B) (P : A → Prop)
    `{∀ x, Decision (P x)} (l : list A) :
  NoDup (f <$> l) → NoDup (f <$> filter P l).
Proof.
  intros Hnd. eapply sublist_NoDup; [done|].
  apply fmap_sublist, sublist_filter.
Qed.












(** ** The gate of the token inventory *)




(** ** The keys of the tables are an invariant of the commands *)

Lemma emptyTables_wf : wf_tables emptyTables.
Proof. split; simpl; constructor. Qed.

Lemma FindOne_tables {R} (T : Table R) (P : R → Prop) `{∀ r, Decision (P r)} d :
  tables (fst (FindOne T P d)) = tables d.
Proof.
  destruct d as [t fs]. rewrite FindOne_eq.
  destruct fs as [|[] fs]; simpl; try done; by destruct (last _).
Qed.

Lemma FindAll_tables {R} (T : Table R) (P : R → Prop) `{∀ r, Decision (P r)} d :
  tables (fst (FindAll T P d)) = tables d.
Proof. destruct d as [t fs]. rewrite FindAll_eq. by destruct fs as [|[] fs]. Qed.

Lemma Rows_tables {A} (q : Tables → list A) d :
  tables (fst (Rows q d)) = tables d.
Proof. destruct d as [t fs]. rewrite Rows_eq. by destruct fs as [|[] fs]. Qed.

Lemma Count_tables {R} (T : Table R) (P : R → Prop) `{∀ r, Decision (P r)} d :
  tables (fst (Count T P d)) = tables d.
Proof. destruct d as [t fs]. unfold Count, step. by destruct fs as [|[] fs]. Qed.

Lemma latestRecord_tables token d :
  tables (fst (latestRecord token d)) = tables d.
Proof.
  destruct d as [t fs]. unfold latestRecord, step.
  destruct fs as [|[] fs]; simpl; try done; by destruct (orderByDesc _ _).
Qed.

Lemma Create_tables {R} (T : Table R) r d :
  tables (fst (Create T r d)) = tables d
  ∨ (hasKey T r (rows T (tables d)) = false
     ∧ tables (fst (Create T r d)) = put T (rows T (tables d) ++ [r]) (tables d)).
Proof.
  destruct d as [t fs]. rewrite Create_eq.
  destruct fs as [|[] fs]; simpl; try (by left);
    destruct (hasKey T r (rows T t)); simpl; auto.
Qed.

Lemma Commit_tables d tx :
  tables (fst (Commit d tx)) = tables d ∨ tables (fst (Commit d tx)) = tables tx.
Proof.
  destruct tx as [t fs]. rewrite Commit_eq. destruct fs as [|[] fs]; simpl; auto.
Qed.

Lemma countCastVotes_tables options d :
  tables (fst (countCastVotes options d)) = tables d.
Proof.
  revert d. induction options as [|o options IH]; intros d; [done|].
  cbn [countCastVotes].
  pose proof (Count_tables tableCastVotes
                (λ c, CastVote_TokenVoteBit c
                      = VoteOption_Token o +:+ Go.FormatUint16 (VoteOption_Bits o))
                d) as Hcount.
  destruct (Count _ _ d) as [d1 [votes|err]]; simpl in Hcount; [|done].
  specialize (IH d1). destruct (countCastVotes options d1) as [d2 [rs|err]];
    simpl in *; congruence.
Qed.

Lemma NoDup_key_snoc {A} (key : A → string) (l : list A) (r : A) :
  NoDup (key <$> l) → key r ∉ key <$> l → NoDup (key <$> (l ++ [r])).
Proof.
  intros Hnd Hr. rewrite fmap_app. apply NoDup_app. split; [done|].
  split; [|apply NoDup_singleton].
  intros k Hk ->%list_elem_of_singleton. done.
Qed.

(** Step through the statement at the head of the goal. *)
Ltac read_step lem :=
  match goal with
  | |- context [FindOne ?T ?P ?d] =>
      let Ht := fresh "Ht" in
      pose proof (FindOne_tables T P d) as Ht;
      destruct (FindOne T P d) as [? [?|?]]; simpl in Ht
  | |- context [FindAll ?T ?P ?d] =>
      let Ht := fresh "Ht" in
      pose proof (FindAll_tables T P d) as Ht;
      destruct (FindAll T P d) as [? [?|?]]; simpl in Ht
  | |- context [Rows ?q ?d] =>
      let Ht := fresh "Ht" in
      pose proof (Rows_tables q d) as Ht;
      destruct (Rows q d) as [? [?|?]]; simpl in Ht
  | |- context [latestRecord ?token ?d] =>
      let Ht := fresh "Ht" in
      pose proof (latestRecord_tables token d) as Ht;
      destruct (latestRecord token d) as [? [?|?]]; simpl in Ht
  | |- context [countCastVotes ?o ?d] =>
      let Ht := fresh "Ht" in
      pose proof (countCastVotes_tables o d) as Ht;
      destruct (countCastVotes o d) as [? [?|?]]; simpl in Ht
  | |- context [match ?enc ?x with Ok _ => _ | Err _ => _ end] =>
      destruct (enc x)
  | |- context [decide ?P] => destruct (decide P)
  end.

Ltac read_only := repeat (read_step idtac; simpl); simpl; congruence.

(** The handlers that only read leave the tables as they are. *)
Lemma read_only_tables `{Codec} payload d :
  tables (fst (cmdGetComment payload d)) = tables d
  ∧ tables (fst (cmdGetComments payload d)) = tables d
  ∧ tables (fst (cmdCommentLikes payload d)) = tables d
  ∧ tables (fst (cmdProposalCommentsLikes payload d)) = tables d
  ∧ tables (fst (cmdVoteDetails payload d)) = tables d
  ∧ tables (fst (cmdProposalVotes payload d)) = tables d
  ∧ tables (fst (cmdInventory d)) = tables d
  ∧ tables (fst (cmdTokenInventory payload d)) = tables d
  ∧ tables (fst (cmdVoteSummary payload d)) = tables d.
Proof.
  repeat split.
  - unfold cmdGetComment. destruct (DecodeGetComment payload); [|done]. read_only.
  - unfold cmdGetComments. destruct (DecodeGetComments payload); [|done].
    read_only.
  - unfold cmdCommentLikes. destruct (DecodeCommentLikes payload); [|done].
    read_only.
  - unfold cmdProposalCommentsLikes.
    destruct (DecodeGetProposalCommentsLikes payload); [|done]. read_only.
  - unfold cmdVoteDetails. destruct (DecodeVoteDetails payload); [|done].
    read_only.
  - unfold cmdProposalVotes. destruct (DecodeVoteResults payload); [|done].
    read_only.
  - unfold cmdInventory. read_only.
  - unfold cmdTokenInventory. destruct (DecodeTokenInventory payload); [|done].
    read_only.
  - unfold cmdVoteSummary. destruct (DecodeVoteSummary payload); [|done].
    read_only.
Qed.

Lemma hasKey_false {R} (T : Table R) key r l :
  pkey T = Some key → hasKey T r l = false → key r ∉ key <$> l.
Proof.
  unfold hasKey. intros ->. by intros ?%bool_decide_eq_false.
Qed.

Lemma newVoteResults_wf token d :
  wf_tables (tables d) → wf_tables (tables (fst (newVoteResults token d))).
Proof.
  intros Hwf. unfold newVoteResults.
  pose proof (FindOne_tables tableStartVotes (λ s, StartVote_Token s = token) d)
    as Ht1.
  destruct (FindOne _ _ d) as [d1 [sv|err]]; simpl in Ht1;
    [|simpl; by rewrite Ht1].
  pose proof (FindAll_tables tableCastVotes (λ c, CastVote_Token c = token) d1)
    as Ht2.
  destruct (FindAll _ _ d1) as [d2 rcv]; simpl in Ht2.
  assert (∀ cv, wf_tables (tables (fst
            (let '(d, err) :=
               Create tableVoteResults (voteResultsOf token sv cv) d2 in
             match err with
             | Some err => (d, Some (Errorf "new vote results" err))
             | None => (d, None)
             end)))) as Hcreate.
  { intros cv.
    pose proof (Create_tables tableVoteResults (voteResultsOf token sv cv) d2)
      as Hc.
    rewrite Ht2, Ht1 in Hc.
    destruct (Create _ _ d2) as [d3 [err|]]; simpl in Hc |- *;
      (destruct Hc as [->|[Hkey ->]]; [done|]);
      (destruct Hwf; split; try done;
       apply NoDup_key_snoc; [done|];
       by apply (hasKey_false tableVoteResults)). }
  destruct rcv as [cv|err]; [apply Hcreate|].
  case_decide; [apply Hcreate|]. simpl. by rewrite Ht2, Ht1.
Qed.

Lemma createVoteResults_wf tokens d :
  wf_tables (tables d) → wf_tables (tables (fst (createVoteResults tokens d))).
Proof.
  revert d. induction tokens as [|token tokens IH]; intros d Hwf; [done|].
  cbn [createVoteResults].
  pose proof (newVoteResults_wf token d Hwf) as Hnew.
  destruct (newVoteResults token d) as [d1 [err|]]; simpl in Hnew; [done|].
  by apply IH.
Qed.

Lemma addVotes_tables votes d :
  ∃ l, tables (fst (addVotes votes d)) = put tableCastVotes l (tables d).
Proof.
  revert d. induction votes as [|v votes IH]; intros d.
  - exists (cast_votes (tables d)). simpl. by destruct (tables d).
  - cbn [addVotes]. unfold newCastVote.
    pose proof (Create_tables tableCastVotes (convertCastVoteFromFonero v) d)
      as Hc.
    destruct (Create _ _ d) as [d1 [err|]]; simpl in Hc |- *.
    + destruct Hc as [->|[_ ->]]; [|by eexists].
      exists (cast_votes (tables d)). simpl. by destruct (tables d).
    + destruct (IH d1) as [l ->].
      destruct Hc as [->|[_ ->]]; by eexists.
Qed.

Lemma wf_put_cast_votes l t :
  wf_tables t → wf_tables (put tableCastVotes l t).
Proof. by intros []. Qed.

Lemma wf_put_comment_likes l t :
  wf_tables t → wf_tables (put tableCommentLikes l t).
Proof. by intros []. Qed.

(** Exec keeps the keys of the tables unique, whatever the payloads and
    whichever statements fail. *)
Lemma Exec_wf `{Codec} (cmd cmdPayload replyPayload : string) (d : DB) :
  wf_tables (tables d) →
  wf_tables (tables (fst (Exec cmd cmdPayload replyPayload d))).
Proof.
  intros Hwf.
  destruct (read_only_tables cmdPayload d)
    as (Hr1 & Hr2 & Hr3 & Hr4 & Hr5 & Hr6 & Hr7 & Hr8 & Hr9).
  unfold Exec. repeat case_decide; try (by rewrite ?Hr1, ?Hr2, ?Hr3, ?Hr4, ?Hr5,
    ?Hr6, ?Hr7, ?Hr8, ?Hr9); try done.
  - (* authorizevote *)
    unfold cmdAuthorizeVote.
    destruct (DecodeAuthorizeVote cmdPayload) as [av|]; [|done].
    destruct (DecodeAuthorizeVoteReply replyPayload) as [avr|]; [|done].
    destruct (Go.ParseUint10 _) as [v|]; [|done].
    destruct d as [t fs]. unfold Begin.
    pose proof (newAuthorizeVote_spec (convertAuthorizeVoteFromFonero av avr v)
                  t fs) as Hnew. cbv zeta in Hnew.
    destruct (decide (fails 2 _)).
    + destruct Hnew as (err & fs' & ->). done.
    + rewrite Hnew.
      pose proof (Commit_tables {| tables := t; faults := fs |}
        {| tables := put tableAuthorizeVotes
             (filter (λ r, ¬ AuthorizeVote_Key r
                         = AuthorizeVote_Key
                             (convertAuthorizeVoteFromFonero av avr v))
                (authorize_votes t)
              ++ [convertAuthorizeVoteFromFonero av avr v]) t;
           faults := drop 2 fs |}) as Hc.
      destruct (Commit _ _) as [d' [err|]]; simpl in Hc |- *;
        (destruct Hc as [-> | ->]; [done|]);
        (destruct Hwf as [? ? Hav ? ?]; split; try done;
         apply NoDup_key_snoc;
         [by apply NoDup_fmap_filter
         |intros (r & Hkey & [Hr _]%list_elem_of_filter)%list_elem_of_fmap_1;
          by destruct Hr]).
  - (* startvote *)
    unfold cmdStartVote.
    destruct (DecodeStartVote cmdPayload) as [sv|]; [|done].
    destruct (DecodeStartVoteReply replyPayload) as [svr|]; [|done].
    destruct (Go.ParseUint10 _) as [h|]; [|done].
    unfold newStartVote.
    pose proof (Create_tables tableStartVotes
                  (convertStartVoteFromFonero sv svr h) d) as Hc.
    destruct (Create _ _ d) as [d' [err|]]; simpl in Hc |- *;
      (destruct Hc as [->|[Hkey ->]]; [done|]);
      (destruct Hwf; split; try done; apply NoDup_key_snoc; [done|];
       by apply (hasKey_false tableStartVotes)).
  - (* ballot *)
    unfold cmdNewBallot. destruct (DecodeBallot cmdPayload) as [b|]; [|done].
    unfold Begin.
    destruct (addVotes_tables (foneroplugin.Ballot_Votes b) d) as [l Hl].
    destruct (addVotes _ d) as [tx [err|]]; [done|]. simpl in Hl.
    pose proof (Commit_tables d tx) as Hc.
    destruct (Commit d tx) as [d' [err|]]; simpl in Hc |- *;
      (destruct Hc as [-> | ->]; [done|]); rewrite Hl;
      by apply wf_put_cast_votes.
  - (* newcomment *)
    unfold cmdNewComment.
    destruct (DecodeNewComment cmdPayload) as [nc|]; [|done].
    destruct (DecodeNewCommentReply replyPayload) as [ncr|]; [|done].
    unfold newComment.
    pose proof (Create_tables tableComments
                  (convertNewCommentFromFonero nc ncr) d) as Hc.
    destruct (Create _ _ d) as [d' err]; simpl in Hc |- *.
    destruct Hc as [->|[Hkey ->]]; [done|].
    destruct Hwf; split; try done.
    + apply NoDup_key_snoc; [done|]. by apply (hasKey_false tableComments).
    + apply Forall_app. split; [done|]. by constructor.
  - (* likecomment *)
    unfold cmdLikeComment.
    destruct (DecodeLikeComment cmdPayload) as [lc|]; [|done].
    unfold newLikeComment.
    pose proof (Create_tables tableCommentLikes
                  (convertLikeCommentFromFonero lc) d) as Hc.
    destruct (Create _ _ d) as [d' err]; simpl in Hc |- *.
    destruct Hc as [->|[_ ->]]; [done|]. by apply wf_put_comment_likes.
  - (* censorcomment *)
    unfold cmdCensorComment.
    destruct (DecodeCensorComment cmdPayload) as [cc|]; [|done].
    destruct d as [t fs]. rewrite Updates_eq.
    destruct fs as [|[] fs]; simpl; try done;
      (destruct Hwf as [Hnd Hkeys ? ? ?]; split; try done; simpl;
       [ rewrite <-list_fmap_compose;
         erewrite list_fmap_ext; [exact Hnd|];
         intros i c _; simpl; by case_decide
       | apply Forall_fmap; eapply Forall_impl; [exact Hkeys|];
         intros c Hc; simpl; by case_decide ]).
  - (* loadvoteresults *)
    unfold cmdLoadVoteResults.
    destruct (DecodeLoadVoteResults cmdPayload) as [lvs|]; [|done].
    pose proof (Rows_tables
                  (endedWithoutResults (foneroplugin.LoadVoteResults_BestBlock lvs))
                  d) as Ht.
    destruct (Rows _ d) as [d1 [tokens|err]]; simpl in Ht;
      [|simpl; by rewrite Ht].
    rewrite <-Ht in Hwf.
    pose proof (createVoteResults_wf tokens d1 Hwf) as Hcreate.
    destruct (createVoteResults tokens d1) as [d2 [err|]];
      simpl in Hcreate |- *; [done|].
    by destruct (EncodeLoadVoteResultsReply _).
Qed.

(** X4: The database reached from the empty one by any commands has unique
    keys. *)
Lemma reachable_wf `{Codec} (commands : list (string * (string * string)))
    (fs : list bool) :
  wf_tables
    (tables (foldl (λ d c, fst (Exec (fst c) (fst (snd c)) (snd (snd c)) d))
               {| tables := emptyTables; faults := fs |} commands)).
Proof.
  assert (∀ d, wf_tables (tables d) →
               wf_tables
                 (tables (foldl (λ d c, fst (Exec (fst c) (fst (snd c))
                                               (snd (snd c)) d)) d commands)))
    as Hall.
  { induction commands as [|c commands IH]; intros d Hwf; [done|].
    simpl. apply IH. by apply Exec_wf. }
  apply Hall, emptyTables_wf.
Qed.

(** ** The test cache *)

(** In the test cache an authorizevote command leaves, under its token
    and record version, the authorize vote of the command with the
    receipt and the timestamp of the reply. *)
Lemma testcache_authorizeVote `{Codec} cmdPayload replyPayload av avr c :
  DecodeAuthorizeVote cmdPayload = Ok av →
  DecodeAuthorizeVoteReply replyPayload = Ok avr →
  let out := testcache.authorizeVote cmdPayload replyPayload c in
  snd out = (replyPayload, None)
  ∧ ∃ versions stored,
      testcache.authorizeVotes (fst out) !! foneroplugin.AuthorizeVote_Token av
      = Some versions
      ∧ versions !! foneroplugin.AuthorizeVoteReply_RecordVersion avr = Some stored
      ∧ foneroplugin.AuthorizeVote_Action stored
        = foneroplugin.AuthorizeVote_Action av
      ∧ foneroplugin.AuthorizeVote_Signature stored
        = foneroplugin.AuthorizeVote_Signature av
      ∧ foneroplugin.AuthorizeVote_Receipt stored
        = foneroplugin.AuthorizeVoteReply_Receipt avr
      ∧ foneroplugin.AuthorizeVote_Timestamp stored
        = foneroplugin.AuthorizeVoteReply_Timestamp avr.
Proof.
  intros Hav Havr out. subst out. unfold testcache.authorizeVote.
  rewrite Hav, Havr. simpl. split; [done|].
  do 2 eexists. rewrite lookup_insert_eq. split; [done|].
  rewrite lookup_insert_eq. by split.
Qed.

(** * Further properties *)

(** ** strconv.FormatUint and strconv.ParseUint *)

Lemma parse_digits_string_of_uint d acc :
  Go.parse_digits acc (DecimalString.NilEmpty.string_of_uint d)
  = Some (uint_value acc d).
Proof.
  revert acc. induction d; intros acc; simpl; try done;
    rewrite IHd; do 2 f_equal; lia.
Qed.

Lemma uint_value_acc d (acc : positive) :
  uint_value (Zpos acc) d = Zpos (Pos.of_uint_acc d acc).
Proof.
  revert acc. induction d; intros acc; simpl; try done;
    rewrite <-IHd; f_equal; lia.
Qed.

Lemma uint_value_of_uint d : uint_value 0 d = Z.of_N (Pos.of_uint d).
Proof.
  induction d; simpl; try done; by rewrite <-uint_value_acc.
Qed.

Lemma FormatUint10_not_empty v : Go.FormatUint10 v ≠ "".
Proof.
  unfold Go.FormatUint10. destruct (Z.to_N v) as [|p]; [done|].
  simpl. pose proof (DecimalPos.Unsigned.to_uint_nonnil p) as Hp.
  by destruct (Pos.to_uint p).
Qed.

(** A number rendered by FormatUint is read back by ParseUint. *)
Lemma ParseUint10_FormatUint10 v :
  0 ≤ v ≤ Go.MaxUint64 → Go.ParseUint10 (Go.FormatUint10 v) = Some v.
Proof.
  intros Hv. unfold Go.ParseUint10.
  pose proof (FormatUint10_not_empty v) as Hne.
  destruct (Go.FormatUint10 v) as [|a s] eqn:Hs; [done|]. rewrite <-Hs.
  unfold Go.FormatUint10. rewrite parse_digits_string_of_uint.
  rewrite uint_value_of_uint.
  change (Pos.of_uint (N.to_uint (Z.to_N v)))
    with (N.of_uint (N.to_uint (Z.to_N v))).
  rewrite DecimalN.Unsigned.of_to, Z2N.id by lia.
  by rewrite (proj2 (Z.leb_le _ _)) by lia.
Qed.

(** ** Which commands write *)

(** X1: Exec changes the tables only through authorizevote, startvote,
    ballot, newcomment, likecomment, censorcomment and loadvoteresults:
    under any other command name the tables stay as they are, whichever
    statements fail, and a name that is no command at all is answered
    with cache.ErrInvalidPluginCmd without touching the database. *)
Theorem Exec_writes_only_through_writers `{Codec}
    (cmd cmdPayload replyPayload : string) (d : DB) :
  cmd ∉ [foneroplugin.CmdAuthorizeVote; foneroplugin.CmdStartVote;
         foneroplugin.CmdBallot; foneroplugin.CmdNewComment;
         foneroplugin.CmdLikeComment; foneroplugin.CmdCensorComment;
         foneroplugin.CmdLoadVoteResults] →
  tables (fst (Exec cmd cmdPayload replyPayload d)) = tables d
  ∧ (cmd ∉ [foneroplugin.CmdVoteDetails; foneroplugin.CmdBestBlock;
            foneroplugin.CmdGetComment; foneroplugin.CmdGetComments;
            foneroplugin.CmdProposalVotes; foneroplugin.CmdCommentLikes;
            foneroplugin.CmdProposalCommentsLikes; foneroplugin.CmdInventory;
            foneroplugin.CmdTokenInventory; foneroplugin.CmdVoteSummary] →
     Exec cmd cmdPayload replyPayload d = (d, ("", Some ErrInvalidPluginCmd))).
Proof.
  intros Hcmd. rewrite !not_elem_of_cons in Hcmd.
  destruct Hcmd as (? & ? & ? & ? & ? & ? & ? & _).
  destruct (read_only_tables cmdPayload d)
    as (Hr1 & Hr2 & Hr3 & Hr4 & Hr5 & Hr6 & Hr7 & Hr8 & Hr9).
  split.
  - unfold Exec. repeat case_decide; done.
  - intros Hother. rewrite !not_elem_of_cons in Hother.
    destruct Hother as (? & ? & ? & ? & ? & ? & ? & ? & ? & ? & _).
    unfold Exec. repeat case_decide; done.
Qed.

Lemma Exec_writes_only_through_writers_witness :
  @Exec lineCodec "rebuild" "" "" emptyDB
  = (emptyDB, ("", Some ErrInvalidPluginCmd)).
Proof.
  refine (proj2 (@Exec_writes_only_through_writers lineCodec "rebuild" "" ""
                   emptyDB _) _);
    rewrite !not_elem_of_cons; repeat split; try discriminate;
    apply not_elem_of_nil.
Defined.

Lemma Exec_decode_error_witness :
  @Exec lineCodec foneroplugin.CmdGetComment "no comma" "" emptyDB
  = (emptyDB, ("", Some (ErrCodec "no comma"))).
Proof.
  destruct (@Exec_decode_error lineCodec "no comma" "" emptyDB
              (ErrCodec "no comma")) as (_ & _ & _ & _ & _ & _ & Hget & _).
  by apply Hget.
Defined.

(** X3: A write-through command that decodes its reply payload checks it,
    and the number it carries, before it writes: when the reply payload
    of newcomment, authorizevote or startvote does not decode, or the
    record version or the end height is not a decimal number of 64
    bits, Exec returns the error and sends nothing to the database. *)
Theorem Exec_rejects_reply_before_writing `{Codec}
    (cmdPayload replyPayload : string) (d : DB) :
  (∀ nc err,
     DecodeNewComment cmdPayload = Ok nc →
     DecodeNewCommentReply replyPayload = Err err →
     Exec foneroplugin.CmdNewComment cmdPayload replyPayload d
     = (d, ("", Some err)))
  ∧ (∀ av err,
       DecodeAuthorizeVote cmdPayload = Ok av →
       DecodeAuthorizeVoteReply replyPayload = Err err →
       Exec foneroplugin.CmdAuthorizeVote cmdPayload replyPayload d
       = (d, ("", Some err)))
  ∧ (∀ av avr,
       DecodeAuthorizeVote cmdPayload = Ok av →
       DecodeAuthorizeVoteReply replyPayload = Ok avr →
       Go.ParseUint10 (foneroplugin.AuthorizeVoteReply_RecordVersion avr) = None →
       ∃ err,
         Exec foneroplugin.CmdAuthorizeVote cmdPayload replyPayload d
         = (d, ("", Some err)))
  ∧ (∀ sv err,
       DecodeStartVote cmdPayload = Ok sv →
       DecodeStartVoteReply replyPayload = Err err →
       Exec foneroplugin.CmdStartVote cmdPayload replyPayload d
       = (d, ("", Some err)))
  ∧ (∀ sv svr,
       DecodeStartVote cmdPayload = Ok sv →
       DecodeStartVoteReply replyPayload = Ok svr →
       Go.ParseUint10 (foneroplugin.StartVoteReply_EndHeight svr) = None →
       ∃ err,
         Exec foneroplugin.CmdStartVote cmdPayload replyPayload d
         = (d, ("", Some err))).
Proof.
  repeat split.
  - intros nc err Hnc Hncr.
    change (Exec foneroplugin.CmdNewComment cmdPayload replyPayload d)
      with (cmdNewComment cmdPayload replyPayload d).
    unfold cmdNewComment. by rewrite Hnc, Hncr.
  - intros av err Hav Havr.
    change (Exec foneroplugin.CmdAuthorizeVote cmdPayload replyPayload d)
      with (cmdAuthorizeVote cmdPayload replyPayload d).
    unfold cmdAuthorizeVote. by rewrite Hav, Havr.
  - intros av avr Hav Havr Hv.
    change (Exec foneroplugin.CmdAuthorizeVote cmdPayload replyPayload d)
      with (cmdAuthorizeVote cmdPayload replyPayload d).
    unfold cmdAuthorizeVote. rewrite Hav, Havr, Hv. by eexists.
  - intros sv err Hsv Hsvr.
    change (Exec foneroplugin.CmdStartVote cmdPayload replyPayload d)
      with (cmdStartVote cmdPayload replyPayload d).
    unfold cmdStartVote. by rewrite Hsv, Hsvr.
  - intros sv svr Hsv Hsvr Hh.
    change (Exec foneroplugin.CmdStartVote cmdPayload replyPayload d)
      with (cmdStartVote cmdPayload replyPayload d).
    unfold cmdStartVote. rewrite Hsv, Hsvr, Hh. by eexists.
Qed.

Lemma Exec_rejects_reply_before_writing_witness :
  ∃ err,
    @Exec lineCodec foneroplugin.CmdAuthorizeVote "authorize,p,sig,pk"
      "authorize,1x,receipt,1500" emptyDB
    = (emptyDB, ("", Some err)).
Proof.
  destruct (@Exec_rejects_reply_before_writing lineCodec "authorize,p,sig,pk"
              "authorize,1x,receipt,1500" emptyDB) as (_ & _ & Hversion & _).
  exact (Hversion _ _ eq_refl eq_refl eq_refl).
Defined.

(** ** Storing and fetching a comment *)

Lemma last_filter_snoc {A} (P : A → Prop) `{∀ x, Decision (P x)} (l : list A) x :
  P x → last (filter P (l ++ [x])) = Some x.
Proof.
  intros Hx. rewrite filter_app, filter_cons_True, filter_nil by done.
  apply last_snoc.
Qed.



(** X6: likecomment appends to the log of likes, and commentlikes returns the
    likes of the comment in the order they came: after a likecomment the
    likes stored before for this comment, followed by the new one.
    Nothing is deduplicated. *)
Theorem likecomment_then_commentlikes `{Codec} (d : DB)
    (cmdPayload replyPayload likesPayload likesReply : string)
    (lc : foneroplugin.LikeComment) :
  faults d = [] →
  DecodeLikeComment cmdPayload = Ok lc →
  DecodeCommentLikes likesPayload
  = Ok {| foneroplugin.CommentLikes_Token := foneroplugin.LikeComment_Token lc;
          foneroplugin.CommentLikes_CommentID :=
            foneroplugin.LikeComment_CommentID lc |} →
  encodes EncodeCommentLikesReply →
  let out := Exec foneroplugin.CmdLikeComment cmdPayload replyPayload d in
  let earlier :=
    filter (λ l, LikeComment_Token l = foneroplugin.LikeComment_Token lc
                 ∧ LikeComment_CommentID l
                     = foneroplugin.LikeComment_CommentID lc)
           (comment_likes (tables d)) in
  snd out = (replyPayload, None)
  ∧ tables (fst out)
    = put tableCommentLikes
        (comment_likes (tables d) ++ [convertLikeCommentFromFonero lc])
        (tables d)
  ∧ ∃ payload,
      Exec foneroplugin.CmdCommentLikes likesPayload likesReply (fst out)
      = (fst out, (payload, None))
      ∧ EncodeCommentLikesReply
          {| foneroplugin.CommentLikesReply_CommentLikes :=
               (convertLikeCommentToFonero <$> earlier) ++ [lc] |}
        = Ok payload.
Proof.
  intros Hd Hlc Hlikes Henc out earlier. subst out earlier.
  destruct d as [t fs]. simpl in Hd. subst fs. cbn [tables].
  set (earlier :=
         filter (λ l, LikeComment_Token l = foneroplugin.LikeComment_Token lc
                      ∧ LikeComment_CommentID l
                          = foneroplugin.LikeComment_CommentID lc)
                (comment_likes t)).
  change (Exec foneroplugin.CmdLikeComment cmdPayload replyPayload ?d)
    with (cmdLikeComment cmdPayload replyPayload d).
  change (Exec foneroplugin.CmdCommentLikes likesPayload likesReply ?d)
    with (cmdCommentLikes likesPayload d).
  unfold cmdLikeComment, newLikeComment. rewrite Hlc, Create_eq.
  cbn [head tail default from_option id negb tables fst snd hasKey pkey
         tableCommentLikes].
  fold tableCommentLikes.
  split; [done|]. split; [done|].
  destruct (Henc {| foneroplugin.CommentLikesReply_CommentLikes :=
                      (convertLikeCommentToFonero <$> earlier) ++ [lc] |})
    as [payload Hpayload].
  exists payload. split; [|done].
  unfold cmdCommentLikes. rewrite Hlikes, FindAll_eq.
  cbn [head tail default from_option id negb
         foneroplugin.CommentLikes_Token foneroplugin.CommentLikes_CommentID].
  change (rows tableCommentLikes (put tableCommentLikes ?l _)) with l.
  change (rows tableCommentLikes t) with (comment_likes t).
  rewrite filter_app, filter_cons_True, filter_nil by done.
  rewrite fmap_app. fold earlier.
  replace (convertLikeCommentToFonero <$> [convertLikeCommentFromFonero lc])
    with [lc] by (by destruct lc).
  by rewrite Hpayload.
Qed.

Lemma likecomment_then_commentlikes_witness :
  snd (@Exec lineCodec foneroplugin.CmdCommentLikes "p,1" ""
         (fst (@Exec lineCodec foneroplugin.CmdLikeComment "p,1,1,sig,pk"
                 "receipt"
                 (fst (@Exec lineCodec foneroplugin.CmdLikeComment
                         "p,1,-1,sig,pk" "receipt" emptyDB)))))
  = ("-1,1", None).
Proof.
  pose proof (@likecomment_then_commentlikes lineCodec
                (fst (@Exec lineCodec foneroplugin.CmdLikeComment
                        "p,1,-1,sig,pk" "receipt" emptyDB))
                "p,1,1,sig,pk" "receipt" "p,1" "" _ eq_refl eq_refl eq_refl)
    as (_ & _ & payload & -> & Hpayload).
  - intros r. by eexists.
  - simpl in Hpayload. by injection Hpayload as <-.
Defined.

(** ** Start votes and ballots, and the queries that read them *)

Lemma Exec_StartVote `{Codec} p r d :
  Exec foneroplugin.CmdStartVote p r d = cmdStartVote p r d.
Proof. done. Qed.

Lemma Exec_ProposalVotes `{Codec} p r d :
  Exec foneroplugin.CmdProposalVotes p r d = cmdProposalVotes p d.
Proof. done. Qed.

Lemma Exec_VoteSummary `{Codec} p r d :
  Exec foneroplugin.CmdVoteSummary p r d = cmdVoteSummary p d.
Proof. done. Qed.

Lemma Exec_VoteDetails `{Codec} p r d :
  Exec foneroplugin.CmdVoteDetails p r d = cmdVoteDetails p d.
Proof. done. Qed.


Lemma Exec_AuthorizeVote `{Codec} p r d :
  Exec foneroplugin.CmdAuthorizeVote p r d = cmdAuthorizeVote p r d.
Proof. done. Qed.

Lemma convertCastVote_back (votes : list foneroplugin.CastVote) token :
  convertCastVoteToFonero
    <$> filter (λ c, CastVote_Token c = token)
          (convertCastVoteFromFonero <$> votes)
  = filter (λ v, foneroplugin.CastVote_Token v = token) votes.
Proof.
  induction votes as [|v votes IH]; [done|].
  rewrite fmap_cons, !filter_cons. cbn [convertCastVoteFromFonero CastVote_Token].
  case_decide; [|done]. rewrite fmap_cons, IH. f_equal. by destruct v.
Qed.

Lemma cmdProposalVotes_healthy `{Codec} payload vr t :
  DecodeVoteResults payload = Ok vr →
  encodes EncodeVoteResultsReply →
  let token := foneroplugin.VoteResults_Token vr in
  let sv := default zeroStartVote
              (last (filter (λ s, StartVote_Token s = token) (start_votes t))) in
  ∃ reply,
    cmdProposalVotes payload {| tables := t; faults := [] |}
    = ({| tables := t; faults := [] |}, (reply, None))
    ∧ EncodeVoteResultsReply
        {| foneroplugin.VoteResultsReply_StartVote :=
             fst (convertStartVoteToFonero sv);
           foneroplugin.VoteResultsReply_CastVotes :=
             convertCastVoteToFonero
               <$> filter (λ c, CastVote_Token c = token) (cast_votes t) |}
      = Ok reply.
Proof.
  intros Hvr Henc token sv.
  destruct (Henc {| foneroplugin.VoteResultsReply_StartVote :=
                      fst (convertStartVoteToFonero sv);
                    foneroplugin.VoteResultsReply_CastVotes :=
                      convertCastVoteToFonero
                        <$> filter (λ c, CastVote_Token c = token)
                              (cast_votes t) |}) as [reply Hreply].
  exists reply. split; [|done].
  unfold cmdProposalVotes. rewrite Hvr, FindOne_eq.
  cbn [head tail default from_option id negb]. fold token.
  change (rows tableStartVotes t) with (start_votes t).
  subst sv.
  destruct (last (filter (λ s, StartVote_Token s = token) (start_votes t)))
    as [sv|]; cbn [default from_option id] in Hreply.
  - rewrite FindAll_eq. cbn [head tail default from_option id negb].
    change (rows tableCastVotes t) with (cast_votes t). by rewrite Hreply.
  - rewrite decide_True by done. rewrite FindAll_eq.
    cbn [head tail default from_option id negb].
    change (rows tableCastVotes t) with (cast_votes t). by rewrite Hreply.
Qed.

(** X7: startvote stores the start vote of a token once: on a database that
    does not fail and has no start vote of the token, the row built from
    the command, the reply and the parsed end height is appended and the
    reply payload returned; a further startvote for the token returns an
    error and changes nothing; and proposalvotes then returns this start
    vote, converted back, with the cast votes of the token. *)
Theorem startvote_write_once `{Codec} (d : DB)
    (cmdPayload replyPayload votesPayload votesReply : string)
    (sv : foneroplugin.StartVote) (svr : foneroplugin.StartVoteReply) (h : Z) :
  faults d = [] →
  DecodeStartVote cmdPayload = Ok sv →
  DecodeStartVoteReply replyPayload = Ok svr →
  Go.ParseUint10 (foneroplugin.StartVoteReply_EndHeight svr) = Some h →
  DecodeVoteResults votesPayload
  = Ok {| foneroplugin.VoteResults_Token :=
            foneroplugin.Vote_Token (foneroplugin.StartVote_Vote sv) |} →
  encodes EncodeVoteResultsReply →
  let token := foneroplugin.Vote_Token (foneroplugin.StartVote_Vote sv) in
  let row := convertStartVoteFromFonero sv svr h in
  let out := Exec foneroplugin.CmdStartVote cmdPayload replyPayload d in
  if decide (token ∈ StartVote_Token <$> start_votes (tables d))
  then out = (d, ("", Some ErrDuplicateKey))
  else snd out = (replyPayload, None)
       ∧ tables (fst out)
         = put tableStartVotes (start_votes (tables d) ++ [row]) (tables d)
       ∧ Exec foneroplugin.CmdStartVote cmdPayload replyPayload (fst out)
         = (fst out, ("", Some ErrDuplicateKey))
       ∧ ∃ payload,
           Exec foneroplugin.CmdProposalVotes votesPayload votesReply (fst out)
           = (fst out, (payload, None))
           ∧ EncodeVoteResultsReply
               {| foneroplugin.VoteResultsReply_StartVote :=
                    fst (convertStartVoteToFonero row);
                  foneroplugin.VoteResultsReply_CastVotes :=
                    convertCastVoteToFonero
                      <$> filter (λ c, CastVote_Token c = token)
                            (cast_votes (tables d)) |}
             = Ok payload.
Proof.
  intros Hd Hsv Hsvr Hh Hvotes Henc token row out. subst out.
  destruct d as [t fs]. simpl in Hd. subst fs. cbn [tables].
  rewrite !Exec_StartVote, !Exec_ProposalVotes.
  assert (∀ t', cmdStartVote cmdPayload replyPayload
                  {| tables := t'; faults := [] |}
                = if bool_decide (token ∈ StartVote_Token <$> start_votes t')
                  then ({| tables := t'; faults := [] |},
                        ("", Some ErrDuplicateKey))
                  else ({| tables := put tableStartVotes (start_votes t' ++ [row])
                                       t';
                           faults := [] |}, (replyPayload, None))) as Hstart.
  { intros t'. unfold cmdStartVote, newStartVote.
    rewrite Hsv, Hsvr, Hh, Create_eq.
    cbn [head tail default from_option id negb]. unfold hasKey.
    cbn [pkey tableStartVotes rows]. fold row.
    change (StartVote_Token row) with token. by case_bool_decide. }
  rewrite Hstart. case_decide as Htoken.
  - by rewrite bool_decide_eq_true_2.
  - rewrite bool_decide_eq_false_2 by done. cbn [fst snd tables].
    split; [done|]. split; [done|]. split.
    + rewrite Hstart. rewrite bool_decide_eq_true_2; [done|].
      change (start_votes (put tableStartVotes ?l _)) with l.
      rewrite fmap_app, elem_of_app. right. by left.
    + destruct (cmdProposalVotes_healthy votesPayload _
                  (put tableStartVotes (start_votes t ++ [row]) t)
                  Hvotes Henc) as (payload & Hpayload & Hreply).
      exists payload. split; [done|].
      cbn [foneroplugin.VoteResults_Token] in Hreply. fold token in Hreply.
      change (start_votes (put tableStartVotes ?l _)) with l in Hreply.
      by rewrite last_filter_snoc in Hreply.
Qed.

Lemma cmdNewBallot_healthy `{Codec} cmdPayload replyPayload b t :
  DecodeBallot cmdPayload = Ok b →
  cmdNewBallot cmdPayload replyPayload {| tables := t; faults := [] |}
  = ({| tables :=
          put tableCastVotes
            (cast_votes t
               ++ (convertCastVoteFromFonero <$> foneroplugin.Ballot_Votes b)) t;
        faults := [] |}, (replyPayload, None)).
Proof.
  intros Hb. unfold cmdNewBallot, Begin. rewrite Hb.
  pose proof (addVotes_spec (foneroplugin.Ballot_Votes b) t []) as Hadd.
  cbv zeta in Hadd. rewrite decide_False in Hadd by apply fails_nil.
  rewrite Hadd, drop_nil, Commit_eq. done.
Qed.

(** X8: A ballot that went through is read back by proposalvotes: after a
    ballot on a database that does not fail, proposalvotes for a token
    returns the votes stored before for the token followed by the votes
    of the ballot for it, each as it was sent. *)
Theorem ballot_then_proposalvotes `{Codec} (d : DB)
    (cmdPayload replyPayload votesPayload votesReply : string)
    (b : foneroplugin.Ballot) (vr : foneroplugin.VoteResults) :
  faults d = [] →
  DecodeBallot cmdPayload = Ok b →
  DecodeVoteResults votesPayload = Ok vr →
  encodes EncodeVoteResultsReply →
  let token := foneroplugin.VoteResults_Token vr in
  let out := Exec foneroplugin.CmdBallot cmdPayload replyPayload d in
  let sv := default zeroStartVote
              (last (filter (λ s, StartVote_Token s = token)
                       (start_votes (tables d)))) in
  snd out = (replyPayload, None)
  ∧ ∃ payload,
      Exec foneroplugin.CmdProposalVotes votesPayload votesReply (fst out)
      = (fst out, (payload, None))
      ∧ EncodeVoteResultsReply
          {| foneroplugin.VoteResultsReply_StartVote :=
               fst (convertStartVoteToFonero sv);
             foneroplugin.VoteResultsReply_CastVotes :=
               (convertCastVoteToFonero
                  <$> filter (λ c, CastVote_Token c = token)
                        (cast_votes (tables d)))
               ++ filter (λ v, foneroplugin.CastVote_Token v = token)
                    (foneroplugin.Ballot_Votes b) |}
        = Ok payload.
Proof.
  intros Hd Hb Hvr Henc token out sv. subst out sv.
  destruct d as [t fs]. simpl in Hd. subst fs. cbn [tables].
  change (Exec foneroplugin.CmdBallot cmdPayload replyPayload ?d)
    with (cmdNewBallot cmdPayload replyPayload d).
  change (Exec foneroplugin.CmdProposalVotes votesPayload votesReply ?d)
    with (cmdProposalVotes votesPayload d).
  rewrite (cmdNewBallot_healthy _ _ b) by done. cbn [fst snd].
  split; [done|].
  destruct (cmdProposalVotes_healthy votesPayload vr
              (put tableCastVotes
                 (cast_votes t
                    ++ (convertCastVoteFromFonero <$> foneroplugin.Ballot_Votes b))
                 t) Hvr Henc) as (payload & Hpayload & Hreply).
  exists payload. split; [done|].
  fold token in Hreply.
  change (cast_votes (put tableCastVotes ?l _)) with l in Hreply.
  change (start_votes (put tableCastVotes _ ?t')) with (start_votes t') in Hreply.
  by rewrite filter_app, fmap_app, convertCastVote_back in Hreply.
Qed.

Lemma ballot_then_proposalvotes_witness :
  snd (@Exec lineCodec foneroplugin.CmdProposalVotes "p" ""
         (fst (@Exec lineCodec foneroplugin.CmdBallot
                 "p:t1:2:s,q:t2:1:s,p:t3:1:s" "receipts" emptyDB)))
  = ("t1,t3", None).
Proof.
  pose proof (@ballot_then_proposalvotes lineCodec emptyDB
                "p:t1:2:s,q:t2:1:s,p:t3:1:s" "receipts" "p" "" _ _
                eq_refl eq_refl eq_refl) as (_ & payload & -> & Hpayload).
  - intros r. by eexists.
  - simpl in Hpayload. by injection Hpayload as <-.
Defined.

Lemma startvote_write_once_witness :
  let out := @Exec voteCodec foneroplugin.CmdStartVote
               "pk,sig,p,3,2016,20,60" "1000,hash,3016,t1,t2" emptyDB in
  snd out = ("1000,hash,3016,t1,t2", None)
  ∧ @Exec voteCodec foneroplugin.CmdStartVote
      "pk,sig,p,3,2016,20,60" "1000,hash,3016,t1,t2" (fst out)
    = (fst out, ("", Some ErrDuplicateKey)).
Proof.
  intros out.
  pose proof (@startvote_write_once voteCodec emptyDB "pk,sig,p,3,2016,20,60"
                "1000,hash,3016,t1,t2" "p" "" _ _ 3016 eq_refl eq_refl eq_refl
                eq_refl eq_refl) as Hall.
  rewrite decide_False in Hall by (by intros ?%elem_of_nil).
  destruct Hall as (Hout & _ & Hagain & _); [|done].
  intros r. by eexists.
Defined.

(** ** The vote summary *)


Lemma countCastVotes_healthy `{Codec} options t :
  countCastVotes options {| tables := t; faults := [] |}
  = ({| tables := t; faults := [] |}, Ok (liveResults options (cast_votes t))).
Proof.
  induction options as [|v options IH]; [done|].
  cbn [countCastVotes]. unfold Count, step.
  cbn [faults tables head tail default from_option id negb].
  by rewrite IH.
Qed.

Lemma cmdVoteSummary_healthy `{Codec} payload vs t :
  DecodeVoteSummary payload = Ok vs →
  let token := foneroplugin.VoteSummary_Token vs in
  cmdVoteSummary payload {| tables := t; faults := [] |}
  = ({| tables := t; faults := [] |},
     match orderByDesc Record_Version
             (filter (λ r, Record_Token r = token) (records t)) with
     | [] => ("", Some ErrRecordNotFound)
     | r :: _ =>
         match EncodeVoteSummaryReply (voteSummaryOf token r t) with
         | Ok reply => (reply, None)
         | Err err => ("", Some err)
         end
     end).
Proof.
  intros Hvs token. unfold cmdVoteSummary, latestRecord, step. rewrite Hvs.
  cbn [faults tables head tail default from_option id negb]. fold token.
  destruct (orderByDesc _ _) as [|r ?]; [done|].
  unfold voteSummaryOf. rewrite !FindOne_eq.
  cbn [head tail default from_option id negb].
  change (rows tableAuthorizeVotes t) with (authorize_votes t).
  destruct (last (filter _ (authorize_votes t))) as [av|].
  - rewrite !FindOne_eq. cbn [head tail default from_option id negb].
    change (rows tableStartVotes t) with (start_votes t).
    destruct (last (filter _ (start_votes t))) as [sv|].
    + rewrite !FindOne_eq. cbn [head tail default from_option id negb].
      unfold summaryResults.
      change (rows tableVoteResults t) with (vote_results t).
      destruct (last (filter _ (vote_results t))) as [vr|].
      * unfold summaryReply. by destruct (EncodeVoteSummaryReply _).
      * rewrite decide_True by done. rewrite countCastVotes_healthy.
        unfold summaryReply. by destruct (EncodeVoteSummaryReply _).
    + rewrite decide_True by done. unfold summaryReply.
      by destruct (EncodeVoteSummaryReply _).
  - rewrite decide_True by done.
    change (EncodeVoteSummaryReply _) with (EncodeVoteSummaryReply emptyVoteSummary).
    by destruct (EncodeVoteSummaryReply _).
Qed.






(** ** The latest version of a record *)

Lemma orderByDesc_head {A} (key : A → Z) (l : list A) (x : A) :
  x ∈ l → Forall (λ y, key y ≤ key x) l →
  ∃ r rest, orderByDesc key l = r :: rest ∧ r ∈ l ∧ key r = key x.
Proof.
  intros Hx Hmax. unfold orderByDesc.
  assert (Transitive (descending key)) as Htrans
    by (intros a b c; unfold descending; lia).
  assert (Total (descending key)) as Htotal
    by (intros a b; unfold descending; lia).
  pose proof (StronglySorted_merge_sort (descending key) l) as Hsorted.
  pose proof (merge_sort_Permutation (descending key) l) as Hperm.
  destruct (merge_sort (descending key) l) as [|r rest].
  - apply Permutation_nil_l in Hperm. subst l. by apply elem_of_nil in Hx.
  - exists r, rest. split; [done|].
    assert (r ∈ l) as Hr by (rewrite <-Hperm; by left).
    split; [done|].
    rewrite Forall_forall in Hmax. pose proof (Hmax r Hr) as Hle.
    rewrite <-Hperm in Hx. apply elem_of_cons in Hx as [->|Hx]; [done|].
    apply StronglySorted_inv in Hsorted as [_ Hall].
    rewrite Forall_forall in Hall. pose proof (Hall x Hx) as Hge.
    unfold descending in Hge. lia.
Qed.

Lemma latestRecord_healthy token r0 t :
  latest token r0 t →
  ∃ r, latestRecord token {| tables := t; faults := [] |}
       = ({| tables := t; faults := [] |}, Ok r)
       ∧ Record_Version r = Record_Version r0.
Proof.
  intros (Hin & Htoken & Hmax).
  destruct (orderByDesc_head Record_Version
              (filter (λ r, Record_Token r = token) (records t)) r0)
    as (r & rest & Hsort & _ & Hversion).
  - by apply list_elem_of_filter.
  - apply Forall_forall. intros r [Hr Hrin]%list_elem_of_filter.
    rewrite Forall_forall in Hmax. by apply Hmax.
  - exists r. split; [|done]. unfold latestRecord, step.
    cbn [faults tables head tail default from_option id negb].
    by rewrite Hsort.
Qed.

Lemma cmdVoteDetails_healthy `{Codec} payload vd r t :
  DecodeVoteDetails payload = Ok vd →
  let token := foneroplugin.VoteDetails_Token vd in
  latestRecord token {| tables := t; faults := [] |}
  = ({| tables := t; faults := [] |}, Ok r) →
  cmdVoteDetails payload {| tables := t; faults := [] |}
  = ({| tables := t; faults := [] |},
     answer EncodeVoteDetailsReply
       (voteDetailsOf
          (default zeroAuthorizeVote
             (last (filter (λ a, AuthorizeVote_Key a
                                 = token +:+ Go.FormatUint10 (Record_Version r))
                           (authorize_votes t))))
          (default zeroStartVote
             (last (filter (λ s, StartVote_Token s = token) (start_votes t)))))).
Proof.
  intros Hvd token Hlatest. unfold cmdVoteDetails. rewrite Hvd. fold token.
  rewrite Hlatest. rewrite !FindOne_eq.
  cbn [head tail default from_option id negb].
  change (rows tableAuthorizeVotes t) with (authorize_votes t).
  unfold answer, voteDetailsOf.
  destruct (last (filter _ (authorize_votes t))) as [av|].
  - rewrite !FindOne_eq. cbn [head tail default from_option id negb].
    change (rows tableStartVotes t) with (start_votes t).
    destruct (last (filter _ (start_votes t))) as [sv|].
    + cbn [default from_option id].
      destruct (convertStartVoteToFonero sv) as [dsv dsvr]. cbn [fst snd].
      by destruct (EncodeVoteDetailsReply _).
    + rewrite decide_True by done. cbn [default from_option id].
      destruct (convertStartVoteToFonero zeroStartVote) as [dsv dsvr].
      cbn [fst snd]. by destruct (EncodeVoteDetailsReply _).
  - rewrite decide_True by done.
    rewrite !FindOne_eq. cbn [head tail default from_option id negb].
    change (rows tableStartVotes t) with (start_votes t).
    destruct (last (filter _ (start_votes t))) as [sv|].
    + cbn [default from_option id].
      destruct (convertStartVoteToFonero sv) as [dsv dsvr]. cbn [fst snd].
      by destruct (EncodeVoteDetailsReply _).
    + rewrite decide_True by done. cbn [default from_option id].
      destruct (convertStartVoteToFonero zeroStartVote) as [dsv dsvr].
      cbn [fst snd]. by destruct (EncodeVoteDetailsReply _).
Qed.

Lemma cmdVoteSummary_latest `{Codec} payload vs r t :
  DecodeVoteSummary payload = Ok vs →
  let token := foneroplugin.VoteSummary_Token vs in
  latestRecord token {| tables := t; faults := [] |}
  = ({| tables := t; faults := [] |}, Ok r) →
  cmdVoteSummary payload {| tables := t; faults := [] |}
  = ({| tables := t; faults := [] |},
     answer EncodeVoteSummaryReply (voteSummaryOf token r t)).
Proof.
  intros Hvs token Hlatest.
  rewrite (cmdVoteSummary_healthy payload vs) by done. fold token.
  unfold latestRecord, step in Hlatest.
  cbn [faults tables head tail default from_option id negb] in Hlatest.
  destruct (orderByDesc _ _) as [|r' ?]; [done|].
  by injection Hlatest as ->.
Qed.

(** X10: An authorize vote is reported by votedetails when it is for the
    latest version of the record: after an authorizevote command whose
    reply carries this version in decimal, on a database that does not
    fail, votedetails for the token returns the authorize vote of the
    command with the receipt and the timestamp of the reply, together
    with the start vote of the token (the empty one when the vote has
    not started). *)
Theorem authorizevote_then_votedetails `{Codec} (d : DB)
    (cmdPayload replyPayload detailsPayload detailsReply : string)
    (av : foneroplugin.AuthorizeVote) (avr : foneroplugin.AuthorizeVoteReply)
    (r0 : Record_) :
  faults d = [] →
  DecodeAuthorizeVote cmdPayload = Ok av →
  DecodeAuthorizeVoteReply replyPayload = Ok avr →
  DecodeVoteDetails detailsPayload
  = Ok {| foneroplugin.VoteDetails_Token := foneroplugin.AuthorizeVote_Token av |} →
  latest (foneroplugin.AuthorizeVote_Token av) r0 (tables d) →
  0 ≤ Record_Version r0 ≤ Go.MaxUint64 →
  foneroplugin.AuthorizeVoteReply_RecordVersion avr
  = Go.FormatUint10 (Record_Version r0) →
  let out := Exec foneroplugin.CmdAuthorizeVote cmdPayload replyPayload d in
  snd out = (replyPayload, None)
  ∧ snd (Exec foneroplugin.CmdVoteDetails detailsPayload detailsReply (fst out))
    = answer EncodeVoteDetailsReply
        {| foneroplugin.VoteDetailsReply_AuthorizeVote :=
             {| foneroplugin.AuthorizeVote_Action :=
                  foneroplugin.AuthorizeVote_Action av;
                foneroplugin.AuthorizeVote_Token :=
                  foneroplugin.AuthorizeVote_Token av;
                foneroplugin.AuthorizeVote_Signature :=
                  foneroplugin.AuthorizeVote_Signature av;
                foneroplugin.AuthorizeVote_PublicKey :=
                  foneroplugin.AuthorizeVote_PublicKey av;
                foneroplugin.AuthorizeVote_Receipt :=
                  foneroplugin.AuthorizeVoteReply_Receipt avr;
                foneroplugin.AuthorizeVote_Timestamp :=
                  foneroplugin.AuthorizeVoteReply_Timestamp avr |};
           foneroplugin.VoteDetailsReply_StartVote :=
             fst (convertStartVoteToFonero
                    (default zeroStartVote
                       (last (filter (λ s, StartVote_Token s
                                           = foneroplugin.AuthorizeVote_Token av)
                                     (start_votes (tables d))))));
           foneroplugin.VoteDetailsReply_StartVoteReply :=
             snd (convertStartVoteToFonero
                    (default zeroStartVote
                       (last (filter (λ s, StartVote_Token s
                                           = foneroplugin.AuthorizeVote_Token av)
                                     (start_votes (tables d)))))) |}.
Proof.
  intros Hd Hav Havr Hvd Hlatest Hrange Hversion out. subst out.
  destruct d as [t fs]. simpl in Hd. subst fs. cbn [tables] in *.
  rewrite Exec_AuthorizeVote, Exec_VoteDetails.
  assert (Go.ParseUint10 (foneroplugin.AuthorizeVoteReply_RecordVersion avr)
          = Some (Record_Version r0)) as Hv
    by (rewrite Hversion; by apply ParseUint10_FormatUint10).
  pose proof (cmdAuthorizeVote_spec _ _ _ _ _ t [] Hav Havr Hv) as Hspec.
  cbv zeta in Hspec. rewrite decide_False in Hspec by apply fails_nil.
  rewrite Hspec. cbn [fst snd drop]. split; [done|].
  set (a := convertAuthorizeVoteFromFonero av avr (Record_Version r0)).
  set (t' := put tableAuthorizeVotes _ t).
  destruct (latestRecord_healthy (foneroplugin.AuthorizeVote_Token av) r0 t')
    as (r & Hr & Hsame).
  { destruct Hlatest as (? & ? & ?). by split. }
  rewrite (cmdVoteDetails_healthy detailsPayload _ r t' Hvd Hr). cbn [snd].
  cbn [foneroplugin.VoteDetails_Token].
  subst t'. change (authorize_votes (put tableAuthorizeVotes ?l _)) with l.
  change (start_votes (put tableAuthorizeVotes ?l _)) with (start_votes t).
  rewrite Hsame, <-Hversion.
  change (foneroplugin.AuthorizeVote_Token av
          +:+ foneroplugin.AuthorizeVoteReply_RecordVersion avr)
    with (AuthorizeVote_Key a).
  rewrite filter_app, filter_cons_True, filter_nil by done.
  by rewrite last_snoc.
Qed.

Lemma authorizevote_then_votedetails_witness :
  let d := {| tables := put tableAuthorizeVotes [] (tables sampleVoteDB);
              faults := [] |} in
  let out := @Exec voteCodec foneroplugin.CmdAuthorizeVote
               "authorize,p,sig,pk" "authorize,1,receipt,1500000000" d in
  snd out = ("authorize,1,receipt,1500000000", None)
  ∧ snd (@Exec voteCodec foneroplugin.CmdVoteDetails "p" "" (fst out))
    = ("authorize", None).
Proof.
  intros d out.
  refine (@authorizevote_then_votedetails voteCodec d
            "authorize,p,sig,pk" "authorize,1,receipt,1500000000" "p" ""
            _ _ (sampleRecord 1) eq_refl eq_refl eq_refl eq_refl _ _ eq_refl).
  - split; [by left|]. split; [done|]. by repeat constructor.
  - by vm_compute.
Defined.

(** X11: votesummary and votedetails read the authorize vote of the latest
    version of the record only: on a database that does not fail, when
    no authorize vote is stored under the token and this version,
    votesummary reports an empty summary and votedetails the empty
    authorize vote, whatever authorize votes of other versions, start
    vote, cast votes and vote results the token has. *)
Theorem authorization_of_latest_version_only `{Codec} (d : DB)
    (token payload replyPayload detailsPayload detailsReply : string)
    (r0 : Record_) :
  faults d = [] →
  DecodeVoteSummary payload = Ok {| foneroplugin.VoteSummary_Token := token |} →
  DecodeVoteDetails detailsPayload
  = Ok {| foneroplugin.VoteDetails_Token := token |} →
  latest token r0 (tables d) →
  Forall (λ a, AuthorizeVote_Key a
               ≠ token +:+ Go.FormatUint10 (Record_Version r0))
         (authorize_votes (tables d)) →
  Exec foneroplugin.CmdVoteSummary payload replyPayload d
  = (d, answer EncodeVoteSummaryReply emptyVoteSummary)
  ∧ Exec foneroplugin.CmdVoteDetails detailsPayload detailsReply d
    = (d, answer EncodeVoteDetailsReply
            (voteDetailsOf zeroAuthorizeVote
               (default zeroStartVote
                  (last (filter (λ s, StartVote_Token s = token)
                                (start_votes (tables d))))))).
Proof.
  intros Hd Hvs Hvd Hlatest Hnone.
  destruct d as [t fs]. simpl in Hd. subst fs. cbn [tables] in *.
  rewrite Exec_VoteSummary, Exec_VoteDetails.
  destruct (latestRecord_healthy _ r0 t Hlatest) as (r & Hr & Hsame).
  assert (filter (λ a, AuthorizeVote_Key a
                       = token +:+ Go.FormatUint10 (Record_Version r))
                 (authorize_votes t) = []) as Hfilter.
  { apply filter_none. rewrite Forall_forall in Hnone.
    intros a Ha. rewrite Hsame. by apply Hnone. }
  split.
  - rewrite (cmdVoteSummary_latest payload _ r t Hvs Hr).
    cbn [foneroplugin.VoteSummary_Token].
    unfold voteSummaryOf. by rewrite Hfilter.
  - rewrite (cmdVoteDetails_healthy detailsPayload _ r t Hvd Hr).
    cbn [foneroplugin.VoteDetails_Token]. by rewrite Hfilter.
Qed.

Lemma authorization_of_latest_version_only_witness :
  let d := {| tables := put tableRecords [sampleRecord 1; sampleRecord 2]
                          (tables sampleVoteDB);
              faults := [] |} in
  @Exec voteCodec foneroplugin.CmdVoteSummary "p" "" d = (d, (",", None))
  ∧ @Exec voteCodec foneroplugin.CmdVoteDetails "p" "" d = (d, ("", None)).
Proof.
  intros d.
  refine (@authorization_of_latest_version_only voteCodec d "p" "p" "" "p" ""
            (sampleRecord 2) eq_refl eq_refl eq_refl _ _).
  - split; [by right; left|]. split; [done|]. by repeat constructor.
  - by repeat constructor.
Defined.

(** ** Building the cache *)

Lemma pluginTables_all (name : TableName) : name ∈ pluginTables.
Proof. destruct name; unfold pluginTables; set_solver. Qed.

Lemma last_filter_None {A} (P : A → Prop) `{∀ x, Decision (P x)} (l : list A) :
  Forall (λ x, ¬ P x) l → last (filter P l) = None.
Proof.
  intros Hall. rewrite filter_none; [done|].
  rewrite Forall_forall in Hall. exact Hall.
Qed.

Lemma version_missing (ID : string) (vs : list Version) :
  ID ∉ Version_ID <$> vs →
  last (filter (λ v, Version_ID v = ID) vs) = None.
Proof.
  intros Hout. apply last_filter_None, Forall_forall.
  intros v Hv Hid. apply Hout. rewrite <-Hid. by apply list_elem_of_fmap_2.
Qed.

Lemma version_present (ID : string) (vs : list Version) :
  ID ∈ Version_ID <$> vs →
  ∃ v, last (filter (λ v, Version_ID v = ID) vs) = Some v ∧ v ∈ vs
       ∧ Version_ID v = ID.
Proof.
  intros (v & Hid & Hv)%list_elem_of_fmap_1.
  destruct (last (filter (λ v, Version_ID v = ID) vs)) as [v'|] eqn:Hlast.
  - exists v'. split; [done|].
    apply last_Some_elem_of, list_elem_of_filter in Hlast as [? ?]. done.
  - apply last_None in Hlast.
    assert (v ∈ filter (λ v, Version_ID v = ID) vs) as Hin
      by (by apply list_elem_of_filter).
    rewrite Hlast in Hin. by apply elem_of_nil in Hin.
Qed.

Lemma version_deleted (ID : string) (vs : list Version) :
  ID ∉ Version_ID <$> filter (λ v, Version_ID v ≠ ID) vs.
Proof.
  intros (v & Hid & [Hne _]%list_elem_of_filter)%list_elem_of_fmap_1. done.
Qed.

Section cache_properties.
Context (ID : string) (DecodeInventoryReply : string → res Inventory) (now : Z).

Lemma ensureTables_healthy names t ex vs :
  ensureTables names
    {| store := {| tables := t; faults := [] |}; existing := ex; versions := vs |}
  = ({| store := {| tables := t; faults := [] |}; existing := ensured names ex;
        versions := vs |}, None).
Proof.
  revert ex. induction names as [|name names IH]; intros ex; [done|].
  cbn [ensureTables]. unfold HasTable at 1. cbn [existing].
  unfold ensured. cbn [foldl]. fold (ensured names).
  destruct (bool_decide (name ∈ ex)) eqn:Hin; cbn [negb].
  - apply IH.
  - unfold CreateTable, stepCache, step, withStore, HasTable.
    cbn [store faults tables existing versions head tail default from_option id
         negb]. rewrite Hin. apply IH.
Qed.

Lemma createTables_healthy t ex vs :
  createTables ID now
    {| store := {| tables := t; faults := [] |}; existing := ex;
       versions := Some vs |}
  = ({| store := {| tables := t; faults := [] |};
        existing := ensured pluginTables ex;
        versions := Some (withVersion ID now vs) |}, None).
Proof.
  unfold createTables. rewrite ensureTables_healthy.
  unfold HasVersions, FindVersion, stepCache, step, withStore, withVersion.
  cbn [store faults tables existing versions head tail default from_option id
       negb].
  destruct (bool_decide (ID ∈ Version_ID <$> vs)) eqn:Hin.
  - apply bool_decide_eq_true in Hin.
    destruct (version_present ID vs Hin) as (v & -> & _). done.
  - apply bool_decide_eq_false in Hin as Hout.
    rewrite (version_missing ID vs Hout). rewrite decide_True by done.
    unfold CreateVersion, stepCache, step, withStore.
    cbn [store faults tables existing versions head tail default from_option id
         negb Version_ID].
    by rewrite Hin.
Qed.

Lemma createTables_no_versions t ex :
  ∃ tx, createTables ID now
          {| store := {| tables := t; faults := [] |}; existing := ex;
             versions := None |}
        = (tx, Some ErrVersionsTableNotFound)
        ∧ faults (store tx) = [].
Proof.
  unfold createTables. rewrite ensureTables_healthy. by eexists.
Qed.

Lemma dropTables_healthy t ex vs :
  dropTables ID
    {| store := {| tables := t; faults := [] |}; existing := ex;
       versions := Some vs |}
  = ({| store := {| tables := dropRows t; faults := [] |}; existing := [];
        versions := Some (filter (λ v, Version_ID v ≠ ID) vs) |}, None).
Proof.
  unfold dropTables, DropTablesIfExist, DeleteVersion, stepCache, step, withStore.
  cbn [store faults tables existing versions head tail default from_option id
       negb].
  rewrite (filter_none (λ name, name ∉ pluginTables)); [done|].
  intros name _ Hout. apply Hout, pluginTables_all.
Qed.

Lemma build_healthy ir t ex vs :
  build ID now ir
    {| store := {| tables := t; faults := [] |}; existing := ex;
       versions := Some vs |}
  = replay ir
      {| store := {| tables := dropRows t; faults := [] |};
         existing := pluginTables;
         versions :=
           Some (filter (λ v, Version_ID v ≠ ID) vs
                   ++ [{| Version_ID := ID; Version_Version := foneroVersion;
                          Version_Timestamp := now |}]) |}.
Proof.
  unfold build. rewrite dropTables_healthy.
  unfold CommitCache at 1, stepCache, step, withStore.
  cbn [store faults tables existing versions head tail default from_option id
       negb].
  rewrite createTables_healthy.
  unfold CommitCache, stepCache, step, withStore.
  cbn [store faults tables existing versions head tail default from_option id
       negb].
  unfold withVersion. rewrite bool_decide_eq_false_2 by apply version_deleted.
  reflexivity.
Qed.
End cache_properties.

Lemma Create_healthy {R} (T : Table R) (r : R) (d : DB) :
  faults d = [] → faults (fst (Create T r d)) = [].
Proof.
  destruct d as [t fs]. simpl. intros ->. rewrite Create_eq.
  cbn [head tail default from_option id negb]. by destruct (hasKey T r _).
Qed.

Lemma newAuthorizeVote_healthy (a : AuthorizeVote) (t : Tables) :
  newAuthorizeVote {| tables := t; faults := [] |} a
  = ({| tables := put tableAuthorizeVotes (upsert (authorize_votes t) a) t;
        faults := [] |}, None).
Proof.
  pose proof (newAuthorizeVote_spec a t []) as Hspec. cbv zeta in Hspec.
  rewrite decide_False in Hspec by apply fails_nil. exact Hspec.
Qed.

Lemma forEach_keeps {A} (body : A → Cache → Cache * option cacheError)
    (l : list A) (c : Cache) :
  keeps body → faults (store c) = [] →
  faults (store (fst (forEach body l c))) = []
  ∧ existing (fst (forEach body l c)) = existing c
  ∧ versions (fst (forEach body l c)) = versions c.
Proof.
  intros Hbody. revert c. induction l as [|v l IH]; intros c Hc; [done|].
  cbn [forEach]. destruct (Hbody v c Hc) as (Hf & He & Hv).
  destruct (body v c) as [c' [err|]]; [done|]. cbn [fst] in *.
  destruct (IH c' Hf) as (? & ? & ?). split; [done|]. split; congruence.
Qed.

Lemma onStore_keeps {X} (f : DB → DB * X) (c : Cache) :
  (∀ d, faults d = [] → faults (fst (f d)) = []) →
  faults (store c) = [] →
  faults (store (fst (onStore f c))) = []
  ∧ existing (fst (onStore f c)) = existing c
  ∧ versions (fst (onStore f c)) = versions c.
Proof.
  intros Hf Hc. unfold onStore. specialize (Hf (store c) Hc).
  by destruct (f (store c)).
Qed.

Ltac keeps_create :=
  intros v c Hc;
  match goal with
  | |- context [onStore ?f c] =>
      let H := fresh in
      assert (∀ d, faults d = [] → faults (fst (f d)) = []) as H
        by (intros; by apply Create_healthy);
      destruct (onStore_keeps f c H Hc) as (? & ? & ?);
      by destruct (onStore f c)
  end.

Lemma buildComment_keeps : keeps buildComment.
Proof. unfold buildComment, newComment. keeps_create. Qed.

Lemma buildLikeComment_keeps : keeps buildLikeComment.
Proof. unfold buildLikeComment, newLikeComment. keeps_create. Qed.

Lemma buildStartVote_keeps : keeps buildStartVote.
Proof.
  unfold buildStartVote, newStartVote. intros v c Hc.
  destruct (Go.ParseUint10 _); [|done]. revert v c Hc. keeps_create.
Qed.

Lemma buildCastVote_keeps : keeps buildCastVote.
Proof. unfold buildCastVote, newCastVote. keeps_create. Qed.

Lemma buildAuthorizeVote_keeps avr : keeps (buildAuthorizeVote avr).
Proof.
  unfold buildAuthorizeVote. intros v c Hc.
  destruct (avr !! _) as [r|]; [|done].
  destruct (Go.ParseUint10 _) as [rv|]; [|done].
  destruct c as [[t fs] ex vs]. simpl in Hc. subst fs.
  unfold onStore. cbn [store]. by rewrite newAuthorizeVote_healthy.
Qed.

Lemma replay_keeps (ir : Inventory) (c : Cache) :
  faults (store c) = [] →
  faults (store (fst (replay ir c))) = []
  ∧ existing (fst (replay ir c)) = existing c
  ∧ versions (fst (replay ir c)) = versions c.
Proof.
  intros Hc. unfold replay.
  destruct (forEach_keeps buildComment (Inventory_Comments ir) c
              buildComment_keeps Hc) as (H1 & E1 & V1).
  destruct (forEach buildComment _ c) as [c1 [err|]]; [done|]. cbn [fst] in *.
  destruct (forEach_keeps buildLikeComment (Inventory_LikeComments ir) c1
              buildLikeComment_keeps H1) as (H2 & E2 & V2).
  destruct (forEach buildLikeComment _ c1) as [c2 [err|]]; cbn [fst] in *;
    [split; [done|split; congruence]|].
  destruct (forEach_keeps
              (buildAuthorizeVote
                 (repliesByReceipt (Inventory_AuthorizeVoteReplies ir)))
              (Inventory_AuthorizeVotes ir) c2
              (buildAuthorizeVote_keeps _) H2) as (H3 & E3 & V3).
  destruct (forEach (buildAuthorizeVote _) _ c2) as [c3 [err|]]; cbn [fst] in *;
    [split; [done|split; congruence]|].
  destruct (forEach_keeps buildStartVote (Inventory_StartVoteTuples ir) c3
              buildStartVote_keeps H3) as (H4 & E4 & V4).
  destruct (forEach buildStartVote _ c3) as [c4 [err|]]; cbn [fst] in *;
    [split; [done|split; congruence]|].
  destruct (forEach_keeps buildCastVote (Inventory_CastVotes ir) c4
              buildCastVote_keeps H4) as (H5 & E5 & V5).
  split; [done|split; congruence].
Qed.

Lemma CheckVersion_healthy (ID : string) t ex vs :
  CheckVersion ID
    {| store := {| tables := t; faults := [] |}; existing := ex;
       versions := Some vs |}
  = ({| store := {| tables := t; faults := [] |}; existing := ex;
        versions := Some vs |},
     match last (filter (λ v, Version_ID v = ID) vs) with
     | None => Some ErrNoVersionRecord
     | Some v => if decide (Version_Version v = foneroVersion) then None
                 else Some ErrWrongVersion
     end).
Proof.
  unfold CheckVersion, HasVersions, FindVersion, stepCache, step, withStore.
  cbn [store faults tables existing versions head tail default from_option id
       negb].
  destruct (last (filter _ vs)) as [v|]; [|done].
  rewrite decide_False by done.
  destruct (decide (Version_Version v = foneroVersion)).
  - by rewrite decide_False by tauto.
  - by rewrite decide_True.
Qed.

Lemma Build_healthy (ID : string) (Decode : string → res Inventory) (now : Z)
    payload ir t ex vs :
  Decode payload = Ok ir →
  let start :=
    {| store := {| tables := dropRows t; faults := [] |};
       existing := pluginTables;
       versions :=
         Some (filter (λ v, Version_ID v ≠ ID) vs
                 ++ [{| Version_ID := ID; Version_Version := foneroVersion;
                        Version_Timestamp := now |}]) |} in
  Build ID Decode now payload
    {| store := {| tables := t; faults := [] |}; existing := ex;
       versions := Some vs |}
  = match snd (replay ir start) with
    | None => (fst (replay ir start), Returned None)
    | Some err =>
        ({| store := store (fst (replay ir start)); existing := pluginTables;
            versions := Some (filter (λ v, Version_ID v ≠ ID) vs) |},
         Returned (Some err))
    end.
Proof.
  intros Hir start. unfold Build. rewrite Hir, build_healthy. fold start.
  destruct (replay_keeps ir start eq_refl) as (Hf & He & Hv).
  destruct (replay ir start) as [[[t1 fs1] ex1 vs1] [err|]]; [|done].
  cbn [fst snd store faults existing versions] in *. subst fs1 ex1 vs1.
  unfold DeleteVersion, stepCache, step, withStore. subst start.
  cbn [store faults tables existing versions head tail default from_option id
       negb].
  rewrite filter_app, filter_cons_False, app_nil_r by (cbn; tauto).
  rewrite (filter_all (λ v, Version_ID v ≠ ID)); [done|].
  by intros v [? _]%list_elem_of_filter.
Qed.

(** X12: After Build the version record tells whether the cache is built: on
    a cache that does not fail, a payload that cannot be decoded is
    refused and leaves the cache as it was; otherwise Build returns
    without panic, and CheckVersion then accepts the cache if Build
    returned no error and asks for a rebuild with ErrNoVersionRecord if
    it returned one. *)
Theorem Build_then_CheckVersion (ID : string) (Decode : string → res Inventory)
    (now : Z) (payload : string) (c : Cache) :
  healthy c →
  let out := Build ID Decode now payload c in
  match Decode payload with
  | Err err =>
      out = (c, Returned (Some (ErrContext "DecodeInventoryReply" (ErrCause err))))
  | Ok _ =>
      match snd out with
      | Returned None => CheckVersion ID (fst out) = (fst out, None)
      | Returned (Some _) =>
          CheckVersion ID (fst out) = (fst out, Some ErrNoVersionRecord)
      | Panicked => False
      end
  end.
Proof.
  intros [Hf Hvs] out. subst out.
  destruct (Decode payload) as [ir|err] eqn:Hir.
  2:{ unfold Build. by rewrite Hir. }
  destruct c as [[t fs] ex [vs|]]; [|done]. simpl in Hf. subst fs.
  rewrite (Build_healthy ID Decode now payload ir t ex vs Hir). cbv zeta.
  set (start := {| store := _; existing := pluginTables; versions := _ |}).
  destruct (replay_keeps ir start eq_refl) as (Hf & He & Hv).
  destruct (replay ir start) as [[[t1 fs1] ex1 vs1] [err|]];
    cbn [fst snd store faults existing versions] in *; subst fs1 ex1 vs1.
  - rewrite CheckVersion_healthy.
    by rewrite (version_missing ID _ (version_deleted ID vs)).
  - subst start. cbn [versions existing]. rewrite CheckVersion_healthy.
    rewrite filter_app, filter_cons_True, filter_nil by done.
    rewrite (filter_none (λ v, Version_ID v = ID)
               (filter (λ v, Version_ID v ≠ ID) vs)).
    2:{ by intros v [? _]%list_elem_of_filter. }
    cbn [app last]. by rewrite decide_True.
Qed.

Lemma Build_then_CheckVersion_witness :
  let out := Build "fonero" lineInventory 1600000000 "p,1,hello;p,1,again"
               sampleCache in
  snd out
  = Returned (Some (ErrContext "newComment" (ErrCause ErrDuplicateKey)))
  ∧ CheckVersion "fonero" (fst out) = (fst out, Some ErrNoVersionRecord).
Proof.
  intros out. split; [by vm_compute|].
  exact (Build_then_CheckVersion "fonero" lineInventory 1600000000
           "p,1,hello;p,1,again" sampleCache (conj eq_refl eq_refl)).
Defined.

(** X13: Build starts from nothing: on caches that do not fail, the outcome
    of Build and the cache it leaves do not depend on the rows the
    plugin tables held, on the tables that existed or on the version
    record the plugin had; they depend on the inventory, the records
    and the version records of the other plugins only. *)
Theorem Build_ignores_previous_rows (ID : string)
    (Decode : string → res Inventory) (now : Z) (payload : string)
    (ir : Inventory) (c1 c2 : Cache) (vs1 vs2 : list Version) :
  faults (store c1) = [] → faults (store c2) = [] →
  versions c1 = Some vs1 → versions c2 = Some vs2 →
  Decode payload = Ok ir →
  records (tables (store c1)) = records (tables (store c2)) →
  filter (λ v, Version_ID v ≠ ID) vs1 = filter (λ v, Version_ID v ≠ ID) vs2 →
  Build ID Decode now payload c1 = Build ID Decode now payload c2.
Proof.
  intros Hf1 Hf2 Hv1 Hv2 Hir Hrecords Hversions.
  destruct c1 as [[t1 fs1] ex1 ?], c2 as [[t2 fs2] ex2 ?].
  cbn [store faults tables versions] in *. subst.
  rewrite !(Build_healthy ID Decode now payload ir) by done. cbv zeta.
  unfold dropRows. by rewrite Hrecords, Hversions.
Qed.

Lemma Build_ignores_previous_rows_witness :
  Build "fonero" lineInventory 1600000000 "p,1,hello;p,2,again" sampleCache
  = Build "fonero" lineInventory 1600000000 "p,1,hello;p,2,again"
      {| store := {| tables := put tableRecords [sampleRecord 1] emptyTables;
                     faults := [] |};
         existing := []; versions := Some [] |}.
Proof.
  exact (Build_ignores_previous_rows "fonero" lineInventory 1600000000
           "p,1,hello;p,2,again" _ sampleCache
           {| store := {| tables := put tableRecords [sampleRecord 1] emptyTables;
                          faults := [] |};
              existing := []; versions := Some [] |}
           _ _ eq_refl eq_refl eq_refl eq_refl eq_refl eq_refl eq_refl).
Defined.

(** X16: CheckVersion never reports a failure of the database as such: when
    the versions table exists, it returns no error exactly when the
    lookup goes through and finds the record of the plugin with the
    version of this implementation, ErrNoVersionRecord when the lookup
    goes through and finds no record, and ErrWrongVersion otherwise,
    also when the lookup fails. *)
Theorem CheckVersion_answers (ID : string) (c : Cache) (vs : list Version) :
  versions c = Some vs →
  snd (CheckVersion ID c)
  = if default false (head (faults (store c))) then Some ErrWrongVersion
    else match last (filter (λ v, Version_ID v = ID) vs) with
         | None => Some ErrNoVersionRecord
         | Some v => if decide (Version_Version v = foneroVersion) then None
                     else Some ErrWrongVersion
         end.
Proof.
  intros Hvs. destruct c as [[t fs] ex ?]. cbn [versions store faults] in *.
  subst. unfold CheckVersion, HasVersions, FindVersion, stepCache, step, withStore.
  cbn [store faults tables existing versions negb].
  destruct fs as [|[] fs]; cbn [head tail default from_option id negb fst snd].
  - destruct (last (filter _ vs)) as [v|]; [|done].
    rewrite decide_False by done.
    destruct (decide (Version_Version v = foneroVersion)).
    + by rewrite decide_False by tauto.
    + by rewrite decide_True.
  - done.
  - destruct (last (filter _ vs)) as [v|]; [|done].
    rewrite decide_False by done.
    destruct (decide (Version_Version v = foneroVersion)).
    + by rewrite decide_False by tauto.
    + by rewrite decide_True.
Qed.

Lemma CheckVersion_answers_witness :
  snd (CheckVersion "fonero"
         {| store := {| tables := emptyTables; faults := [true] |};
            existing := pluginTables;
            versions := Some [{| Version_ID := "fonero";
                                 Version_Version := foneroVersion;
                                 Version_Timestamp := 1500000000 |}] |})
  = Some ErrWrongVersion.
Proof.
  exact (CheckVersion_answers "fonero"
           {| store := {| tables := emptyTables; faults := [true] |};
              existing := pluginTables;
              versions := Some [{| Version_ID := "fonero";
                                   Version_Version := foneroVersion;
                                   Version_Timestamp := 1500000000 |}] |}
           _ eq_refl).
Defined.

Lemma ensured_all (ex : list TableName) (name : TableName) :
  name ∈ ensured pluginTables ex.
Proof.
  assert (∀ names ex name, name ∈ ex → name ∈ ensured names ex) as Hmono.
  { induction names as [|n names IH]; intros ex' name' Hin; [done|].
    unfold ensured. cbn [foldl]. apply IH.
    case_bool_decide; [done|]. apply elem_of_app. by left. }
  assert (∀ names ex name, name ∈ names → name ∈ ensured names ex) as Hall.
  { induction names as [|n names IH]; intros ex' name' Hin;
      [by apply elem_of_nil in Hin|].
    unfold ensured. cbn [foldl]. apply elem_of_cons in Hin as [->|Hin].
    - apply Hmono. case_bool_decide; [done|]. apply elem_of_app. right. by left.
    - by apply IH. }
  apply Hall, pluginTables_all.
Qed.

Lemma ensured_existing (names ex : list TableName) :
  (∀ name, name ∈ names → name ∈ ex) → ensured names ex = ex.
Proof.
  induction names as [|n names IH]; intros Hall; [done|].
  unfold ensured. cbn [foldl]. rewrite bool_decide_eq_true_2 by (apply Hall; by left).
  apply IH. intros name Hin. apply Hall. by right.
Qed.

(** X17: Setup completes the schema and keeps what is there: on a cache that
    does not fail it returns no error, leaves every row as it was,
    makes every plugin table exist, and inserts the version record of
    this implementation only if the plugin has none, so that a version
    record of another version stays and CheckVersion answers as before;
    a second Setup changes nothing.  Without versions table Setup
    returns an error and leaves the cache as it was. *)
Theorem Setup_completes_schema (ID : string) (now later : Z) (c : Cache) :
  faults (store c) = [] →
  let out := Setup ID now c in
  match versions c with
  | None => out = (c, Some ErrVersionsTableNotFound)
  | Some vs =>
      snd out = None
      ∧ store (fst out) = store c
      ∧ (∀ name, name ∈ existing (fst out))
      ∧ versions (fst out) = Some (withVersion ID now vs)
      ∧ (ID ∈ Version_ID <$> vs →
         versions (fst out) = Some vs
         ∧ snd (CheckVersion ID (fst out)) = snd (CheckVersion ID c))
      ∧ Setup ID later (fst out) = (fst out, None)
  end.
Proof.
  intros Hf out. subst out. destruct c as [[t fs] ex [vs|]].
  - simpl in Hf. subst fs. cbn [versions].
    assert (∀ now ex vs,
              Setup ID now
                {| store := {| tables := t; faults := [] |}; existing := ex;
                   versions := Some vs |}
              = ({| store := {| tables := t; faults := [] |};
                    existing := ensured pluginTables ex;
                    versions := Some (withVersion ID now vs) |}, None))
      as Hsetup.
    { intros now' ex' vs'. unfold Setup. by rewrite createTables_healthy. }
    rewrite Hsetup. cbn [fst snd store existing versions].
    split; [done|]. split; [done|]. split; [apply ensured_all|].
    split; [done|]. split.
    + intros Hin. unfold withVersion. rewrite bool_decide_eq_true_2 by done.
      split; [done|]. by rewrite !CheckVersion_healthy.
    + rewrite Hsetup. f_equal. f_equal.
      * apply ensured_existing. intros name _. apply ensured_all.
      * f_equal. unfold withVersion at 1.
        rewrite bool_decide_eq_true_2; [done|].
        unfold withVersion. case_bool_decide; [done|].
        rewrite fmap_app, elem_of_app. right. by left.
  - simpl in Hf. subst fs. cbn [versions].
    unfold Setup.
    destruct (createTables_no_versions ID now t ex) as (tx & -> & Htx).
    unfold RollbackCache. cbn [store tables existing versions]. by rewrite Htx.
Qed.

Lemma Setup_completes_schema_witness :
  let out := Setup "fonero" 1600000000 sampleCache in
  out = (sampleCache, None)
  ∧ snd (CheckVersion "fonero" (fst out)) = Some ErrWrongVersion.
Proof.
  intros out. subst out.
  destruct (Setup_completes_schema "fonero" 1600000000 1600000001 sampleCache
              eq_refl) as (_ & _ & _ & _ & Hkept & _).
  split; [by vm_compute|].
  destruct Hkept as [_ Hcheck]; [cbn; set_solver|].
  rewrite Hcheck. by vm_compute.
Defined.

Lemma repliesByReceipt_lookup (replies : list foneroplugin.AuthorizeVoteReply)
    (receipt : string) :
  repliesByReceipt replies !! receipt
  = last (filter (λ r, foneroplugin.AuthorizeVoteReply_Receipt r = receipt)
                 replies).
Proof.
  unfold repliesByReceipt.
  induction replies as [|r replies IH] using rev_ind; [done|].
  rewrite foldl_app, filter_app. cbn [foldl].
  destruct (decide (foneroplugin.AuthorizeVoteReply_Receipt r = receipt))
    as [Hr|Hr].
  - rewrite filter_cons_True, filter_nil by done.
    rewrite last_snoc, Hr. by rewrite lookup_insert_eq.
  - rewrite filter_cons_False, filter_nil, app_nil_r by done.
    by rewrite lookup_insert_ne.
Qed.

Lemma forEach_buildComment l t ex vs :
  NoDup (Comment_Key <$> (comments t ++ (convertCommentFromFonero <$> l))) →
  forEach buildComment l
    {| store := {| tables := t; faults := [] |}; existing := ex; versions := vs |}
  = ({| store := {| tables := put tableComments
                                (comments t ++ (convertCommentFromFonero <$> l)) t;
                    faults := [] |};
        existing := ex; versions := vs |}, None).
Proof.
  revert t. induction l as [|v l IH]; intros t Hnd.
  - cbn [forEach fmap list_fmap]. rewrite app_nil_r. by destruct t.
  - cbn [forEach]. unfold buildComment, onStore, newComment, withStore.
    cbn [store existing versions]. rewrite Create_eq.
    cbn [head tail default from_option id negb].
    change (rows tableComments t) with (comments t).
    rewrite fmap_cons in Hnd.
    assert (hasKey tableComments (convertCommentFromFonero v) (comments t)
            = false) as ->.
    { unfold hasKey. cbn [pkey tableComments]. apply bool_decide_eq_false_2.
      intros Hin. rewrite fmap_app, fmap_cons in Hnd.
      apply NoDup_app in Hnd as (_ & Hdisj & _).
      apply (Hdisj _ Hin). by left. }
    cbn [fmap option_fmap option_map].
    rewrite IH.
    + change (comments (put tableComments ?x _)) with x.
      rewrite <-app_assoc. reflexivity.
    + change (comments (put tableComments ?x _)) with x.
      by rewrite <-app_assoc.
Qed.

Lemma forEach_buildLikeComment l t ex vs :
  forEach buildLikeComment l
    {| store := {| tables := t; faults := [] |}; existing := ex; versions := vs |}
  = ({| store := {| tables := put tableCommentLikes
                                (comment_likes t
                                   ++ (convertLikeCommentFromFonero <$> l)) t;
                    faults := [] |};
        existing := ex; versions := vs |}, None).
Proof.
  revert t. induction l as [|v l IH]; intros t.
  - cbn [forEach fmap list_fmap]. rewrite app_nil_r. by destruct t.
  - cbn [forEach]. unfold buildLikeComment, onStore, newLikeComment, withStore.
    cbn [store existing versions]. rewrite Create_eq.
    cbn [head tail default from_option id negb hasKey pkey tableCommentLikes
         fmap option_fmap option_map].
    rewrite IH. change (comment_likes (put tableCommentLikes ?x _)) with x.
    rewrite fmap_cons, <-app_assoc. reflexivity.
Qed.

Lemma forEach_buildCastVote l t ex vs :
  forEach buildCastVote l
    {| store := {| tables := t; faults := [] |}; existing := ex; versions := vs |}
  = ({| store := {| tables := put tableCastVotes
                                (cast_votes t
                                   ++ (convertCastVoteFromFonero <$> l)) t;
                    faults := [] |};
        existing := ex; versions := vs |}, None).
Proof.
  revert t. induction l as [|v l IH]; intros t.
  - cbn [forEach fmap list_fmap]. rewrite app_nil_r. by destruct t.
  - cbn [forEach]. unfold buildCastVote, onStore, newCastVote, withStore.
    cbn [store existing versions]. rewrite Create_eq.
    cbn [head tail default from_option id negb hasKey pkey tableCastVotes
         fmap option_fmap option_map].
    rewrite IH. change (cast_votes (put tableCastVotes ?x _)) with x.
    rewrite fmap_cons, <-app_assoc. reflexivity.
Qed.

Lemma forEach_buildAuthorizeVote replies l avs t ex vs :
  mapM (authorizeRow replies) l = Some avs →
  forEach (buildAuthorizeVote (repliesByReceipt replies)) l
    {| store := {| tables := t; faults := [] |}; existing := ex; versions := vs |}
  = ({| store := {| tables := put tableAuthorizeVotes
                                (foldl upsert (authorize_votes t) avs) t;
                    faults := [] |};
        existing := ex; versions := vs |}, None).
Proof.
  revert t avs. induction l as [|v l IH]; intros t avs Hrows.
  - injection Hrows as <-. cbn [forEach foldl]. by destruct t.
  - cbn [mapM] in Hrows.
    destruct (authorizeRow replies v) as [a|] eqn:Ha; [|done].
    destruct (mapM (authorizeRow replies) l) as [avs'|] eqn:Hl; [|done].
    injection Hrows as <-.
    unfold authorizeRow in Ha. rewrite <-repliesByReceipt_lookup in Ha.
    cbn [forEach]. unfold buildAuthorizeVote.
    destruct (repliesByReceipt replies !! _) as [r|]; [|done].
    cbn [mbind option_bind] in Ha.
    destruct (Go.ParseUint10 _) as [rv|]; [|done].
    injection Ha as <-.
    unfold onStore, withStore. cbn [store existing versions].
    rewrite newAuthorizeVote_healthy.
    cbn [fmap option_fmap option_map].
    rewrite (IH _ avs' eq_refl).
    change (authorize_votes (put tableAuthorizeVotes ?x _)) with x.
    reflexivity.
Qed.

Lemma forEach_buildStartVote l svs t ex vs :
  mapM startRow l = Some svs →
  NoDup (StartVote_Token <$> (start_votes t ++ svs)) →
  forEach buildStartVote l
    {| store := {| tables := t; faults := [] |}; existing := ex; versions := vs |}
  = ({| store := {| tables := put tableStartVotes (start_votes t ++ svs) t;
                    faults := [] |};
        existing := ex; versions := vs |}, None).
Proof.
  revert t svs. induction l as [|v l IH]; intros t svs Hrows Hnd.
  - injection Hrows as <-. cbn [forEach]. rewrite app_nil_r. by destruct t.
  - cbn [mapM] in Hrows.
    destruct (startRow v) as [s|] eqn:Hs; [|done].
    destruct (mapM startRow l) as [svs'|] eqn:Hl; [|done].
    injection Hrows as <-.
    unfold startRow in Hs. cbn [forEach]. unfold buildStartVote.
    destruct (Go.ParseUint10 _) as [endHeight|]; [|done].
    injection Hs as <-.
    unfold onStore, newStartVote, withStore. cbn [store existing versions].
    rewrite Create_eq. cbn [head tail default from_option id negb].
    change (rows tableStartVotes t) with (start_votes t).
    set (s := convertStartVoteFromFonero _ _ _) in *.
    assert (hasKey tableStartVotes s (start_votes t) = false) as ->.
    { unfold hasKey. cbn [pkey tableStartVotes]. apply bool_decide_eq_false_2.
      intros Hin. rewrite fmap_app, fmap_cons in Hnd.
      apply NoDup_app in Hnd as (_ & Hdisj & _).
      apply (Hdisj _ Hin). by left. }
    cbn [fmap option_fmap option_map].
    rewrite (IH _ svs' eq_refl).
    + change (start_votes (put tableStartVotes ?x _)) with x.
      rewrite <-app_assoc. reflexivity.
    + change (start_votes (put tableStartVotes ?x _)) with x.
      by rewrite <-app_assoc.
Qed.

Lemma replay_replayable ir avs svs t ex vs :
  replayable ir avs svs →
  replay ir {| store := {| tables := dropRows t; faults := [] |};
               existing := ex; versions := vs |}
  = ({| store := {| tables := rebuiltTables ir t avs svs; faults := [] |};
        existing := ex; versions := vs |}, None).
Proof.
  intros (Hcomments & Havs & Hsvs & Htokens). unfold replay.
  rewrite forEach_buildComment by done.
  rewrite forEach_buildLikeComment.
  rewrite (forEach_buildAuthorizeVote _ _ avs) by done.
  rewrite (forEach_buildStartVote _ svs) by done.
  rewrite forEach_buildCastVote. reflexivity.
Qed.

(** X14: Build replays the inventory: on a cache that does not fail, for an
    inventory without two comments of the same token and comment ID,
    with a reply carrying a record version for the receipt of each
    authorize vote, and with an end height for each start vote and one
    start vote per token, Build returns no error and leaves exactly the
    rows of the inventory, whatever the plugin tables held: each comment
    uncensored, each like and cast vote, for each key the last
    authorize vote of the inventory with the last reply that carries
    its receipt, each start vote, and no vote results; the records stay
    and the version record of this implementation is written. *)
Theorem Build_replays_inventory (ID : string) (Decode : string → res Inventory)
    (now : Z) (payload : string) (c : Cache) (vs : list Version) (ir : Inventory)
    (avs : list AuthorizeVote) (svs : list StartVote) :
  faults (store c) = [] →
  versions c = Some vs →
  Decode payload = Ok ir →
  replayable ir avs svs →
  Build ID Decode now payload c
  = ({| store := {| tables := rebuiltTables ir (tables (store c)) avs svs;
                    faults := [] |};
        existing := pluginTables;
        versions :=
          Some (filter (λ v, Version_ID v ≠ ID) vs
                  ++ [{| Version_ID := ID; Version_Version := foneroVersion;
                         Version_Timestamp := now |}]) |}, Returned None).
Proof.
  intros Hf Hvs Hir Hreplay. destruct c as [[t fs] ex ?].
  cbn [store faults tables versions] in *. subst.
  rewrite (Build_healthy ID Decode now payload ir t ex vs Hir). cbv zeta.
  by rewrite (replay_replayable ir avs svs).
Qed.

Lemma Build_replays_inventory_witness :
  let out := Build "fonero" lineInventory 1600000000 "p,1,hello;p,2,again"
               sampleCache in
  snd out = Returned None
  ∧ Comment_Comment <$> comments (tables (store (fst out))) = ["hello"; "again"]
  ∧ AuthorizeVote_Key <$> authorize_votes (tables (store (fst out))) = ["p1"]
  ∧ cast_votes (tables (store (fst out))) = []
  ∧ records (tables (store (fst out))) = [sampleRecord 1].
Proof.
  intros out. subst out.
  rewrite (Build_replays_inventory "fonero" lineInventory 1600000000
             "p,1,hello;p,2,again" sampleCache _ _
             [convertAuthorizeVoteFromFonero
                (foneroplugin.Build_AuthorizeVote "authorize" "p" "sig" "pk"
                   "receipt" 0)
                (foneroplugin.Build_AuthorizeVoteReply "authorize" "1" "receipt"
                   1500000000) 1]
             [] eq_refl eq_refl eq_refl).
  - done.
  - split; [|split; [done|split; [done|constructor]]].
    apply (bool_decide_unpack _). by vm_compute.
Defined.

Lemma forEach_buildComment_duplicate l t ex vs :
  NoDup (Comment_Key <$> comments t) →
  ¬ NoDup (Comment_Key <$> (comments t ++ (convertCommentFromFonero <$> l))) →
  ∃ c err,
    forEach buildComment l
      {| store := {| tables := t; faults := [] |}; existing := ex;
         versions := vs |} = (c, Some err).
Proof.
  revert t. induction l as [|v l IH]; intros t Hnd Hdup.
  - exfalso. apply Hdup. by rewrite fmap_nil, app_nil_r.
  - cbn [forEach]. unfold buildComment, onStore, newComment, withStore.
    cbn [store existing versions]. rewrite Create_eq.
    cbn [head tail default from_option id negb].
    change (rows tableComments t) with (comments t).
    destruct (hasKey tableComments (convertCommentFromFonero v) (comments t))
      eqn:Hkey; [by do 2 eexists|].
    cbn [fmap option_fmap option_map].
    apply IH.
    + change (comments (put tableComments ?x _)) with x.
      apply NoDup_key_snoc; [done|].
      by apply (hasKey_false tableComments).
    + change (comments (put tableComments ?x _)) with x.
      by rewrite <-app_assoc.
Qed.

Lemma forEach_buildAuthorizeVote_missing replies l t ex vs :
  mapM (authorizeRow replies) l = None →
  ∃ c err,
    forEach (buildAuthorizeVote (repliesByReceipt replies)) l
      {| store := {| tables := t; faults := [] |}; existing := ex;
         versions := vs |} = (c, Some err).
Proof.
  revert t. induction l as [|v l IH]; intros t Hrows; [done|].
  cbn [mapM] in Hrows. cbn [forEach]. unfold buildAuthorizeVote.
  unfold authorizeRow in Hrows. rewrite <-repliesByReceipt_lookup in Hrows.
  destruct (repliesByReceipt replies !! _) as [r|]; [|by do 2 eexists].
  cbn [mbind option_bind] in Hrows.
  destruct (Go.ParseUint10 _) as [rv|]; [|by do 2 eexists].
  cbn [mbind option_bind] in Hrows.
  unfold onStore, withStore. cbn [store existing versions].
  rewrite newAuthorizeVote_healthy. cbn [fmap option_fmap option_map].
  apply IH. by destruct (mapM _ l).
Qed.

Lemma forEach_buildStartVote_fails l t ex vs :
  NoDup (StartVote_Token <$> start_votes t) →
  match mapM startRow l with
  | None => True
  | Some svs => ¬ NoDup (StartVote_Token <$> (start_votes t ++ svs))
  end →
  ∃ c err,
    forEach buildStartVote l
      {| store := {| tables := t; faults := [] |}; existing := ex;
         versions := vs |} = (c, Some err).
Proof.
  revert t. induction l as [|v l IH]; intros t Hnd Hrows.
  - exfalso. apply Hrows. by rewrite app_nil_r.
  - cbn [mapM] in Hrows. cbn [forEach]. unfold buildStartVote.
    change (startRow v)
      with (Go.ParseUint10
              (foneroplugin.StartVoteReply_EndHeight
                 (StartVoteTuple_StartVoteReply v))
            ≫= λ endHeight,
                 Some (convertStartVoteFromFonero (StartVoteTuple_StartVote v)
                         (StartVoteTuple_StartVoteReply v) endHeight)) in Hrows.
    destruct (Go.ParseUint10 _) as [endHeight|]; [|by do 2 eexists].
    cbn [mbind option_bind] in Hrows.
    set (s := convertStartVoteFromFonero _ _ _) in *.
    unfold onStore, newStartVote, withStore. cbn [store existing versions].
    rewrite Create_eq. cbn [head tail default from_option id negb].
    change (rows tableStartVotes t) with (start_votes t).
    destruct (hasKey tableStartVotes s (start_votes t)) eqn:Hkey;
      [by do 2 eexists|].
    cbn [fmap option_fmap option_map].
    apply IH.
    + change (start_votes (put tableStartVotes ?x _)) with x.
      apply NoDup_key_snoc; [done|].
      by apply (hasKey_false tableStartVotes).
    + change (start_votes (put tableStartVotes ?x _)) with x.
      destruct (mapM startRow l) as [svs|]; [|done].
      cbn [mbind option_bind mret option_ret] in Hrows.
      by rewrite <-app_assoc.
Qed.

Lemma replay_not_replayable ir t ex vs :
  (∀ avs svs, ¬ replayable ir avs svs) →
  ∃ c err,
    replay ir {| store := {| tables := dropRows t; faults := [] |};
                 existing := ex; versions := vs |} = (c, Some err).
Proof.
  intros Hnot. unfold replay.
  destruct (decide (NoDup (Comment_Key <$> (convertCommentFromFonero
                                              <$> Inventory_Comments ir))))
    as [Hcomments|Hcomments].
  2:{ destruct (forEach_buildComment_duplicate (Inventory_Comments ir)
                  (dropRows t) ex vs) as (c & err & ->);
        [constructor|done|by do 2 eexists]. }
  rewrite forEach_buildComment by done.
  rewrite forEach_buildLikeComment.
  destruct (mapM (authorizeRow (Inventory_AuthorizeVoteReplies ir))
              (Inventory_AuthorizeVotes ir)) as [avs|] eqn:Havs.
  2:{ edestruct forEach_buildAuthorizeVote_missing as (c & err & ->);
        [exact Havs|by do 2 eexists]. }
  rewrite (forEach_buildAuthorizeVote _ _ avs) by done.
  edestruct (forEach_buildStartVote_fails (Inventory_StartVoteTuples ir))
    as (c & err & ->); [| |by do 2 eexists].
  - constructor.
  - destruct (mapM startRow (Inventory_StartVoteTuples ir)) as [svs|] eqn:Hsvs;
      [|done].
    intros Htokens. by apply (Hnot avs svs).
Qed.

(** X15: Build fails on any other inventory: on a cache that does not fail,
    when two comments of the inventory have the same token and comment
    ID, an authorize vote has no reply with its receipt or the reply no
    record version in decimal, a start vote has no end height in
    decimal or two start votes have the same token, Build returns an
    error and leaves the plugin without version record. *)
Theorem Build_fails_otherwise (ID : string) (Decode : string → res Inventory)
    (now : Z) (payload : string) (c : Cache) (vs : list Version)
    (ir : Inventory) :
  faults (store c) = [] →
  versions c = Some vs →
  Decode payload = Ok ir →
  (∀ avs svs, ¬ replayable ir avs svs) →
  let out := Build ID Decode now payload c in
  (∃ err, snd out = Returned (Some err))
  ∧ versions (fst out) = Some (filter (λ v, Version_ID v ≠ ID) vs).
Proof.
  intros Hf Hvs Hir Hnot out. subst out. destruct c as [[t fs] ex ?].
  cbn [store faults tables versions] in *. subst.
  rewrite (Build_healthy ID Decode now payload ir t ex vs Hir). cbv zeta.
  edestruct (replay_not_replayable ir t) as (c & err & ->); [done|].
  cbn [fst snd versions]. split; [by exists err|done].
Qed.

Lemma Build_fails_otherwise_witness :
  let out := Build "fonero" lineInventory 1600000000 "p,1,hello;p,1,again"
               sampleCache in
  (∃ err, snd out = Returned (Some err)) ∧ versions (fst out) = Some [].
Proof.
  refine (Build_fails_otherwise "fonero" lineInventory 1600000000
            "p,1,hello;p,1,again" sampleCache _ _ eq_refl eq_refl eq_refl _).
  intros avs svs [Hcomments _]. revert Hcomments.
  apply (bool_decide_unpack (¬ NoDup _)). by vm_compute.
Defined.

(** ** The test cache *)

Lemma Atoi_Itoa (n : Z) :
  0 ≤ n < 2 ^ 63 → strconv.Atoi (strconv.Itoa n) = Some n.
Proof.
  intros Hn. unfold strconv.Itoa.
  destruct (n <? 0) eqn:Hneg; [lia|].
  pose proof (FormatUint10_not_empty n) as Hne.
  assert (Go.parse_digits 0 (Go.FormatUint10 n) = Some n) as Hdigits.
  { unfold Go.FormatUint10. rewrite parse_digits_string_of_uint.
    f_equal. rewrite uint_value_of_uint.
    rewrite DecimalN.Unsigned.of_to. lia. }
  destruct (Go.FormatUint10 n) as [|a r]; [done|].
  unfold strconv.Atoi.
  destruct (decide (a = "+"%char)) as [->|_]; [done|].
  destruct (decide (a = "-"%char)) as [->|_]; [done|].
  unfold strconv.digits. rewrite Hdigits. cbn [mbind option_bind].
  destruct (n <? 2 ^ 63) eqn:Hlt; [done|lia].
Qed.

Lemma latestVersion_max (versions : list string) (latest m : Z) :
  Forall (λ v, ∃ n, strconv.Atoi v = Some n ∧ n ≤ m) versions →
  latest ≤ m →
  latest = m ∨ Exists (λ v, strconv.Atoi v = Some m) versions →
  memory.latestVersion versions latest = Ok m.
Proof.
  revert latest. induction versions as [|v versions IH];
    intros latest Hall Hle Hmax.
  - destruct Hmax as [->|Hex]; [done|]. by apply Exists_nil in Hex.
  - apply Forall_cons in Hall as [(n & Hn & Hnm) Hall].
    cbn [memory.latestVersion]. rewrite Hn. apply IH; [done| |].
    + destruct (latest <? n) eqn:?; lia.
    + destruct Hmax as [->|Hex].
      * left. destruct (m <? n) eqn:?; lia.
      * apply Exists_cons in Hex as [Hv|Hex]; [|by right].
        left. rewrite Hn in Hv. injection Hv as ->.
        destruct (latest <? m) eqn:?; lia.
Qed.

Lemma elem_of_versions (versions : gmap string cache.Record_) (v : string) :
  v ∈ (map_to_list versions).*1 ↔ is_Some (versions !! v).
Proof.
  rewrite list_elem_of_fmap. split.
  - intros ([v' r] & -> & Hin). apply elem_of_map_to_list in Hin. by exists r.
  - intros [r Hr]. exists (v, r). split; [done|]. by apply elem_of_map_to_list.
Qed.

Lemma record_latest (c : memory.testcache) (token : string)
    (versions : gmap string cache.Record_) (m : Z) :
  memory.records c !! token = Some versions →
  (∀ v, is_Some (versions !! v) → ∃ n, strconv.Atoi v = Some n ∧ n ≤ m) →
  (m = 0 ∨ ∃ v, is_Some (versions !! v) ∧ strconv.Atoi v = Some m) →
  0 ≤ m →
  memory.record token c
  = if decide (m = 0) then Err ErrRecordNotFound
    else Ok (default cache.zeroRecord (versions !! strconv.Itoa m)).
Proof.
  intros Hversions Hall Hmax Hm. unfold memory.record. rewrite Hversions.
  rewrite (latestVersion_max _ 0 m); [done| |done|].
  - apply Forall_forall. intros v Hv. by apply Hall, elem_of_versions.
  - destruct Hmax as [->|(v & Hv & Hvm)]; [by left|]. right.
    apply Exists_exists. exists v. split; [|done]. by apply elem_of_versions.
Qed.

(** X18: record returns what is stored under the decimal of the highest
    version: when the versions stored for a token are numbers, the
    highest being [m], record returns ErrRecordNotFound if [m] is not
    above zero, and otherwise the record stored under [m] written in
    decimal - the empty record, without error, when the highest version
    is stored under another spelling. *)
Theorem record_returns_latest (c : memory.testcache) (token : string)
    (versions : gmap string cache.Record_) (m : Z) :
  memory.records c !! token = Some versions →
  (∀ v, is_Some (versions !! v) → ∃ n, strconv.Atoi v = Some n ∧ n ≤ m) →
  (m = 0 ∨ ∃ v, is_Some (versions !! v) ∧ strconv.Atoi v = Some m) →
  0 ≤ m →
  memory.record token c
  = if decide (m = 0) then Err ErrRecordNotFound
    else Ok (default cache.zeroRecord (versions !! strconv.Itoa m)).
Proof. apply record_latest. Qed.

Lemma record_returns_latest_witness :
  let r := {| cache.Record_Version := "01"; cache.Record_Status := 4;
              cache.Record_Timestamp := 1500000000;
              cache.Record_CensorshipRecord :=
                cache.Build_CensorshipRecord "p" "merkle" "sig";
              cache.Record_Metadata := []; cache.Record_Files := [] |} in
  let c := fst (memory.NewRecord r memory.New) in
  memory.recordVersion "p" "01" c = Ok r
  ∧ memory.record "p" c = Ok cache.zeroRecord.
Proof.
  intros r c. split; [done|].
  refine (record_returns_latest c "p" {["01" := r]} 1 eq_refl _ _ _).
  - intros v [r' Hv]. apply lookup_singleton_Some in Hv as [<- _].
    exists 1. split; [done|lia].
  - right. exists "01". split; [by exists r|done].
  - lia.
Defined.

(** X19: One version that is not a number hides the records of its token:
    record then returns the error of parsing a version stored for the
    token, whatever the other versions are. *)
Theorem record_rejects_bad_version (c : memory.testcache) (token bad : string)
    (versions : gmap string cache.Record_) :
  memory.records c !! token = Some versions →
  is_Some (versions !! bad) →
  strconv.Atoi bad = None →
  ∃ v, is_Some (versions !! v)
       ∧ strconv.Atoi v = None
       ∧ memory.record token c
         = Err (Errorf ("parse version '" +:+ v +:+ "' failed") (ErrParseUint v)).
Proof.
  intros Hversions Hbad Hparse. unfold memory.record. rewrite Hversions.
  assert (Exists (λ v, strconv.Atoi v = None) (map_to_list versions).*1) as Hex.
  { apply Exists_exists. exists bad. split; [|done]. by apply elem_of_versions. }
  assert (∀ l latest,
            Exists (λ v, strconv.Atoi v = None) l →
            ∃ v, v ∈ l ∧ strconv.Atoi v = None
                 ∧ memory.latestVersion l latest
                   = Err (Errorf ("parse version '" +:+ v +:+ "' failed")
                            (ErrParseUint v))) as Hloop.
  { induction l as [|v l IH]; intros latest Hl; [by apply Exists_nil in Hl|].
    cbn [memory.latestVersion].
    destruct (strconv.Atoi v) as [n|] eqn:Hv.
    - apply Exists_cons in Hl as [Hnone|Hl]; [congruence|].
      destruct (IH (if latest <? n then n else latest) Hl)
        as (v' & Hin & Hnone & ->).
      exists v'. split; [by right|done].
    - exists v. split; [by left|done]. }
  destruct (Hloop _ 0 Hex) as (v & Hin & Hnone & ->).
  exists v. split; [by apply elem_of_versions|done].
Qed.

Lemma record_rejects_bad_version_witness :
  let r version :=
    {| cache.Record_Version := version; cache.Record_Status := 4;
       cache.Record_Timestamp := 1500000000;
       cache.Record_CensorshipRecord :=
         cache.Build_CensorshipRecord "p" "merkle" "sig";
       cache.Record_Metadata := []; cache.Record_Files := [] |} in
  let c := fst (memory.NewRecord (r "1")
                  (fst (memory.NewRecord (r "1.5") memory.New))) in
  ∃ v, memory.record "p" c
       = Err (Errorf ("parse version '" +:+ v +:+ "' failed") (ErrParseUint v)).
Proof.
  intros r c.
  destruct (record_rejects_bad_version c "p" "1.5"
              (<["1" := r "1"]> {["1.5" := r "1.5"]})) as (v & _ & _ & Hv).
  - done.
  - by exists (r "1.5").
  - done.
  - by exists v.
Defined.

(** X20: A record added under a version above those stored is the latest:
    after NewRecord of a record whose version is the decimal of a
    number above zero, not below any version stored for its token,
    Record returns this record and RecordVersion finds it under its
    version; the records of other tokens are found as before. *)
Theorem NewRecord_then_Record (c : memory.testcache) (r : cache.Record_) (n : Z) :
  let token := cache.CensorshipRecord_Token (cache.Record_CensorshipRecord r) in
  0 < n < 2 ^ 63 →
  cache.Record_Version r = strconv.Itoa n →
  (∀ v, is_Some (default ∅ (memory.records c !! token) !! v) →
        ∃ k, strconv.Atoi v = Some k ∧ k ≤ n) →
  let c' := fst (memory.NewRecord r c) in
  memory.Record_ token c' = Ok r
  ∧ memory.RecordVersion token (cache.Record_Version r) c' = Ok r
  ∧ ∀ token' version, token' ≠ token →
      memory.Record_ token' c' = memory.Record_ token' c
      ∧ memory.RecordVersion token' version c'
        = memory.RecordVersion token' version c.
Proof.
  intros token Hn Hversion Hall c'. subst c'.
  unfold memory.NewRecord. cbn [fst]. fold token.
  set (versions := default ∅ (memory.records c !! token)) in *.
  split; [|split].
  - unfold memory.Record_.
    rewrite (record_latest _ token
               (<[cache.Record_Version r := r]> versions) n).
    + rewrite decide_False by lia. by rewrite <-Hversion, lookup_insert_eq.
    + cbn [memory.records]. by rewrite lookup_insert_eq.
    + intros v Hv.
      destruct (decide (v = cache.Record_Version r)) as [->|Hne].
      * exists n. split; [|lia]. rewrite Hversion. apply Atoi_Itoa. lia.
      * rewrite lookup_insert_ne in Hv by done. by apply Hall.
    + right. exists (cache.Record_Version r). split.
      * rewrite lookup_insert_eq. by eexists.
      * rewrite Hversion. apply Atoi_Itoa. lia.
    + lia.
  - unfold memory.RecordVersion, memory.recordVersion. cbn [memory.records].
    by rewrite !lookup_insert_eq.
  - intros token' version Hne.
    unfold memory.Record_, memory.record, memory.RecordVersion,
      memory.recordVersion. cbn [memory.records].
    by rewrite !lookup_insert_ne.
Qed.

Lemma NewRecord_then_Record_witness :
  let r version :=
    {| cache.Record_Version := version; cache.Record_Status := 4;
       cache.Record_Timestamp := 1500000000;
       cache.Record_CensorshipRecord :=
         cache.Build_CensorshipRecord "p" "merkle" "sig";
       cache.Record_Metadata := []; cache.Record_Files := [] |} in
  let c := fst (memory.NewRecord (r "1") memory.New) in
  memory.Record_ "p" (fst (memory.NewRecord (r "2") c)) = Ok (r "2").
Proof.
  intros r c.
  refine (proj1 (NewRecord_then_Record c (r "2") 2 _ eq_refl _)); [lia|].
  intros v [r' Hv]. subst c. unfold memory.NewRecord, memory.New in Hv.
  cbn [fst memory.records] in Hv.
  rewrite lookup_insert_eq, lookup_empty in Hv. cbn [default from_option id] in Hv.
  apply lookup_insert_Some in Hv as [[<- _]|[_ Hv]];
    [|by rewrite lookup_empty in Hv].
  exists 1. split; [done|lia].
Defined.

(** X21: UpdateRecordStatus rewrites one version of one record: when the
    version is stored, it gets the new status, timestamp and metadata
    and keeps its other fields, and every other version and token is
    found as before; when it is not, ErrRecordNotFound is returned and
    the cache stays as it was. *)
Theorem UpdateRecordStatus_one_version (c : memory.testcache)
    (token version : string) (status timestamp : Z)
    (metadata : list cache.MetadataStream) :
  let out := memory.UpdateRecordStatus token version status timestamp metadata c in
  match memory.RecordVersion token version c with
  | Err err => err = ErrRecordNotFound ∧ out = (c, Some ErrRecordNotFound)
  | Ok r =>
      snd out = None
      ∧ memory.RecordVersion token version (fst out)
        = Ok {| cache.Record_Version := cache.Record_Version r;
                cache.Record_Status := status;
                cache.Record_Timestamp := timestamp;
                cache.Record_CensorshipRecord := cache.Record_CensorshipRecord r;
                cache.Record_Metadata := metadata;
                cache.Record_Files := cache.Record_Files r |}
      ∧ memory.plugin (fst out) = memory.plugin c
      ∧ ∀ token' version', (token', version') ≠ (token, version) →
          memory.RecordVersion token' version' (fst out)
          = memory.RecordVersion token' version' c
  end.
Proof.
  intros out. subst out.
  unfold memory.UpdateRecordStatus, memory.RecordVersion, memory.recordVersion.
  destruct (memory.records c !! token) as [versions|] eqn:Htoken; [|done].
  destruct (versions !! version) as [r|] eqn:Hversion; [|done].
  cbn [fst snd memory.records memory.plugin default from_option id].
  split; [done|]. split; [by rewrite !lookup_insert_eq|]. split; [done|].
  intros token' version' Hne.
  destruct (decide (token' = token)) as [->|Htoken'].
  - rewrite lookup_insert_eq, Htoken.
    rewrite lookup_insert_ne; [done|]. congruence.
  - by rewrite lookup_insert_ne.
Qed.

Lemma UpdateRecordStatus_one_version_witness :
  let r := {| cache.Record_Version := "1"; cache.Record_Status := 2;
              cache.Record_Timestamp := 1500000000;
              cache.Record_CensorshipRecord :=
                cache.Build_CensorshipRecord "p" "merkle" "sig";
              cache.Record_Metadata := []; cache.Record_Files := [] |} in
  let c := fst (memory.NewRecord r memory.New) in
  cache.Record_Status
  <$> match memory.RecordVersion "p" "1"
              (fst (memory.UpdateRecordStatus "p" "1" 4 1600000000 [] c)) with
      | Ok r => Some r
      | Err _ => None
      end = Some 4.
Proof.
  intros r c.
  destruct (UpdateRecordStatus_one_version c "p" "1" 4 1600000000 [])
    as (_ & -> & _). done.
Defined.

Lemma memory_Exec_AuthorizeVote `{Codec} p r c :
  memory.foneroExec foneroplugin.CmdAuthorizeVote p r c
  = memory.authorizeVote p r c.
Proof. done. Qed.

Lemma memory_Exec_VoteDetails `{Codec} p r c :
  memory.foneroExec foneroplugin.CmdVoteDetails p r c = memory.voteDetails p c.
Proof. done. Qed.

Lemma memory_Exec_GetComments `{Codec} p r c :
  memory.foneroExec foneroplugin.CmdGetComments p r c = memory.getComments p c.
Proof. done. Qed.

(** X22: In the test cache votedetails reports the authorize vote stored
    under the version of the latest record: after an authorizevote
    command it is the authorize vote of this command, with the receipt
    and the timestamp of the reply, when the reply carries the version
    of the latest record of the token, and the authorize vote stored
    before under that version (the empty one if none) when it carries
    another version. *)
Theorem memory_authorizevote_then_votedetails `{Codec} (c : memory.testcache)
    (cmdPayload replyPayload detailsPayload detailsReply : string)
    (av : foneroplugin.AuthorizeVote) (avr : foneroplugin.AuthorizeVoteReply)
    (r : cache.Record_) :
  DecodeAuthorizeVote cmdPayload = Ok av →
  DecodeAuthorizeVoteReply replyPayload = Ok avr →
  DecodeVoteDetails detailsPayload
  = Ok {| foneroplugin.VoteDetails_Token := foneroplugin.AuthorizeVote_Token av |} →
  memory.record (foneroplugin.AuthorizeVote_Token av) c = Ok r →
  let token := foneroplugin.AuthorizeVote_Token av in
  let p := memory.plugin c in
  let out :=
    memory.foneroExec foneroplugin.CmdAuthorizeVote cmdPayload replyPayload c in
  snd out = (replyPayload, None)
  ∧ snd (memory.foneroExec foneroplugin.CmdVoteDetails detailsPayload
           detailsReply (fst out))
    = answer EncodeVoteDetailsReply
        {| foneroplugin.VoteDetailsReply_AuthorizeVote :=
             if decide (foneroplugin.AuthorizeVoteReply_RecordVersion avr
                        = cache.Record_Version r)
             then {| foneroplugin.AuthorizeVote_Action :=
                       foneroplugin.AuthorizeVote_Action av;
                     foneroplugin.AuthorizeVote_Token := token;
                     foneroplugin.AuthorizeVote_Signature :=
                       foneroplugin.AuthorizeVote_Signature av;
                     foneroplugin.AuthorizeVote_PublicKey :=
                       foneroplugin.AuthorizeVote_PublicKey av;
                     foneroplugin.AuthorizeVote_Receipt :=
                       foneroplugin.AuthorizeVoteReply_Receipt avr;
                     foneroplugin.AuthorizeVote_Timestamp :=
                       foneroplugin.AuthorizeVoteReply_Timestamp avr |}
             else default zeroPluginAuthorizeVote
                    (default ∅ (testcache.authorizeVotes p !! token)
                       !! cache.Record_Version r);
           foneroplugin.VoteDetailsReply_StartVote :=
             default zeroPluginStartVote (testcache.startVotes p !! token);
           foneroplugin.VoteDetailsReply_StartVoteReply :=
             default zeroPluginStartVoteReply
               (testcache.startVoteReplies p !! token) |}.
Proof.
  intros Hav Havr Hvd Hr token p out. subst out.
  rewrite memory_Exec_AuthorizeVote, memory_Exec_VoteDetails.
  unfold memory.authorizeVote, testcache.authorizeVote. rewrite Hav, Havr.
  cbn [fst snd]. split; [done|].
  unfold memory.voteDetails. rewrite Hvd.
  cbn [foneroplugin.VoteDetails_Token].
  assert (memory.record token
            (memory.withPlugin
               {| testcache.comments := testcache.comments (memory.plugin c);
                  testcache.authorizeVotes :=
                    <[token :=
                        <[foneroplugin.AuthorizeVoteReply_RecordVersion avr :=
                            {| foneroplugin.AuthorizeVote_Action :=
                                 foneroplugin.AuthorizeVote_Action av;
                               foneroplugin.AuthorizeVote_Token := token;
                               foneroplugin.AuthorizeVote_Signature :=
                                 foneroplugin.AuthorizeVote_Signature av;
                               foneroplugin.AuthorizeVote_PublicKey :=
                                 foneroplugin.AuthorizeVote_PublicKey av;
                               foneroplugin.AuthorizeVote_Receipt :=
                                 foneroplugin.AuthorizeVoteReply_Receipt avr;
                               foneroplugin.AuthorizeVote_Timestamp :=
                                 foneroplugin.AuthorizeVoteReply_Timestamp avr |}]>
                          (default ∅ (testcache.authorizeVotes (memory.plugin c)
                                        !! token))]>
                      (testcache.authorizeVotes (memory.plugin c));
                  testcache.startVotes := testcache.startVotes (memory.plugin c);
                  testcache.startVoteReplies :=
                    testcache.startVoteReplies (memory.plugin c) |} c)
          = Ok r) as Hr' by exact Hr.
  cbn [foneroplugin.AuthorizeVote_Token]. fold token. rewrite Hr'.
  cbn [memory.plugin memory.withPlugin testcache.authorizeVotes
       testcache.startVotes testcache.startVoteReplies testcache.comments].
  rewrite lookup_insert_eq. cbn [default from_option id].
  unfold answer. fold p.
  destruct (decide (foneroplugin.AuthorizeVoteReply_RecordVersion avr
                    = cache.Record_Version r)) as [Hsame|Hother].
  - rewrite Hsame, lookup_insert_eq. cbn [default from_option id].
    by destruct (EncodeVoteDetailsReply _).
  - rewrite lookup_insert_ne by done.
    by destruct (EncodeVoteDetailsReply _).
Qed.

Lemma memory_authorizevote_then_votedetails_witness :
  let r := {| cache.Record_Version := "1"; cache.Record_Status := 4;
              cache.Record_Timestamp := 1500000000;
              cache.Record_CensorshipRecord :=
                cache.Build_CensorshipRecord "p" "merkle" "sig";
              cache.Record_Metadata := []; cache.Record_Files := [] |} in
  let c := fst (memory.NewRecord r memory.New) in
  let out := @memory.foneroExec lineCodec foneroplugin.CmdAuthorizeVote
               "authorize,p,sig,pk" "authorize,1,receipt,1500000000" c in
  snd out = ("authorize,1,receipt,1500000000", None)
  ∧ snd (@memory.foneroExec lineCodec foneroplugin.CmdVoteDetails "p" ""
           (fst out)) = ("authorize", None).
Proof.
  intros r c.
  exact (@memory_authorizevote_then_votedetails lineCodec c
           "authorize,p,sig,pk" "authorize,1,receipt,1500000000" "p" ""
           _ _ r eq_refl eq_refl eq_refl eq_refl).
Defined.

(** X23: The test cache stores no comments and its plugin commands leave the
    records alone: whatever plugin commands run, the records and the
    comments stay as they were, so that getcomments on a cache without
    comments keeps answering with no comments. *)
Theorem memory_comments_never_stored `{Codec} (c : memory.testcache)
    (commands : list (string * (string * string)))
    (payload replyPayload : string) (gc : foneroplugin.GetComments) :
  testcache.comments (memory.plugin c) = ∅ →
  DecodeGetComments payload = Ok gc →
  let c' := foldl (λ c cmd, fst (memory.foneroExec (fst cmd) (fst (snd cmd))
                                   (snd (snd cmd)) c)) c commands in
  memory.records c' = memory.records c
  ∧ testcache.comments (memory.plugin c') = ∅
  ∧ memory.foneroExec foneroplugin.CmdGetComments payload replyPayload c'
    = (c', answer EncodeGetCommentsReply
             {| foneroplugin.GetCommentsReply_Comments := [] |}).
Proof.
  intros Hempty Hgc c'.
  assert (∀ cmd p r c,
            memory.records (fst (memory.foneroExec cmd p r c)) = memory.records c
            ∧ testcache.comments (memory.plugin (fst (memory.foneroExec cmd p r c)))
              = testcache.comments (memory.plugin c)) as Hstep.
  { intros cmd p r c0. unfold memory.foneroExec.
    repeat case_decide; [| | | |done].
    - unfold memory.getComments.
      destruct (DecodeGetComments p); [|done].
      by destruct (EncodeGetCommentsReply _).
    - unfold memory.authorizeVote, testcache.authorizeVote.
      destruct (DecodeAuthorizeVote p); [|done].
      by destruct (DecodeAuthorizeVoteReply r).
    - unfold memory.startVote.
      destruct (DecodeStartVote p); [|done].
      by destruct (DecodeStartVoteReply r).
    - unfold memory.voteDetails.
      destruct (DecodeVoteDetails p); [|done].
      destruct (memory.record _ c0); [|done].
      by destruct (EncodeVoteDetailsReply _). }
  assert (memory.records c' = memory.records c
          ∧ testcache.comments (memory.plugin c') = ∅) as [Hrecords Hcomments].
  { subst c'. revert c Hempty.
    induction commands as [|cmd commands IH]; intros c Hempty; [done|].
    cbn [foldl]. destruct (Hstep (fst cmd) (fst (snd cmd)) (snd (snd cmd)) c)
      as [Hr Hc].
    destruct (IH (fst (memory.foneroExec (fst cmd) (fst (snd cmd))
                         (snd (snd cmd)) c))) as [Hr' Hc'];
      [by rewrite Hc|].
    split; [by rewrite Hr'|done]. }
  split; [done|]. split; [done|].
  rewrite memory_Exec_GetComments. unfold memory.getComments.
  rewrite Hgc, Hcomments, lookup_empty. cbn [default from_option id].
  unfold answer. by destruct (EncodeGetCommentsReply _).
Qed.

Lemma memory_comments_never_stored_witness :
  let c := fst (@memory.foneroExec lineCodec foneroplugin.CmdAuthorizeVote
                  "authorize,p,sig,pk" "authorize,1,receipt,1500000000"
                  memory.New) in
  @memory.foneroExec lineCodec foneroplugin.CmdGetComments "p" "" c = (c, ("", None)).
Proof.
  intros c.
  exact (proj2 (proj2 (@memory_comments_never_stored lineCodec memory.New
           [(foneroplugin.CmdAuthorizeVote,
             ("authorize,p,sig,pk", "authorize,1,receipt,1500000000"))]
           "p" "" _ eq_refl eq_refl))).
Defined.

Lemma fmap_rebuild {A} (f : A → A) (l : list A) :
  (∀ x, f x = x) → f <$> l = l.
Proof.
  intros Hf. induction l as [|x l IH]; [done|]. by rewrite fmap_cons, Hf, IH.
Qed.

(** X24: The two conversions of a record are inverse to each other where the
    version is written once: a record of package cache converted with
    the number its version denotes comes back unchanged when its
    version is this number in decimal, and a row of the cache converted
    and back, with its version, comes back unchanged when its key is
    its token followed by its version in decimal. *)
Theorem convertRecord_roundtrip :
  (∀ (r : cache.Record_) (version : Z),
     cache.Record_Version r = Go.FormatUint10 version →
     cockroachdb.convertRecordToCache
       (cockroachdb.convertRecordFromCache r version) = r)
  ∧ (∀ (row : cockroachdb.Record_),
       cockroachdb.Record_Key row
       = cockroachdb.Record_Token row
           +:+ Go.FormatUint10 (cockroachdb.Record_Version row) →
       cockroachdb.convertRecordFromCache
         (cockroachdb.convertRecordToCache row) (cockroachdb.Record_Version row)
       = row).
Proof.
  split.
  - intros [version' status timestamp [token merkle signature] metadata files]
      version Hversion. cbn in Hversion. subst version'.
    unfold cockroachdb.convertRecordToCache, cockroachdb.convertRecordFromCache,
      cockroachdb.convertMDStreamsFromCache. cbn.
    rewrite <-!list_fmap_compose.
    rewrite (fmap_rebuild _ metadata) by (by intros []).
    rewrite (fmap_rebuild _ files) by (by intros []). done.
  - intros [key token version status timestamp merkle signature metadata files]
      Hkey. cbn in Hkey. subst key.
    unfold cockroachdb.convertRecordToCache, cockroachdb.convertRecordFromCache,
      cockroachdb.convertMDStreamsFromCache. cbn.
    rewrite <-!list_fmap_compose.
    rewrite (fmap_rebuild _ metadata) by (by intros []).
    rewrite (fmap_rebuild _ files) by (by intros []). done.
Qed.

Lemma convertRecord_roundtrip_witness :
  let r := {| cache.Record_Version := "2"; cache.Record_Status := 4;
              cache.Record_Timestamp := 1500000000;
              cache.Record_CensorshipRecord :=
                cache.Build_CensorshipRecord "p" "merkle" "sig";
              cache.Record_Metadata := [cache.Build_MetadataStream 1 "md"];
              cache.Record_Files :=
                [cache.Build_File "index.md" "text/plain" "digest" "payload"] |} in
  cockroachdb.Record_Key (cockroachdb.convertRecordFromCache r 2) = "p2"
  ∧ cockroachdb.convertRecordToCache (cockroachdb.convertRecordFromCache r 2) = r.
Proof.
  intros r. split; [done|].
  exact (proj1 convertRecord_roundtrip r 2 eq_refl).
Defined.

(** X25: The test politeiad starts every vote at block 1000 for the duration
    asked: the reply it stores and encodes has the start height 1000,
    no eligible tickets and an end height that strconv.ParseUint reads
    back as 1000 plus the duration, wrapped to 32 bits - below the
    start height when the duration is 2^32 - 1000 or more. *)
Theorem testpoliteiad_startVote_end_height `{Codec}
    (Encode : foneroplugin.StartVoteReply → res string) (payload : string)
    (p : testpoliteiad.TestPoliteiad) (sv : foneroplugin.StartVote) :
  DecodeStartVote payload = Ok sv →
  encodes Encode →
  let vote := foneroplugin.StartVote_Vote sv in
  let duration := foneroplugin.Vote_Duration vote in
  0 ≤ duration < 2 ^ 32 →
  let out := testpoliteiad.startVote Encode payload p in
  ∃ svr,
    testpoliteiad.startVoteReplies (fst out) !! foneroplugin.Vote_Token vote
    = Some svr
    ∧ testpoliteiad.startVotes (fst out) !! foneroplugin.Vote_Token vote
      = Some sv
    ∧ Encode svr = Ok (fst (snd out))
    ∧ snd (snd out) = None
    ∧ Go.ParseUint10 (foneroplugin.StartVoteReply_StartBlockHeight svr)
      = Some 1000
    ∧ Go.ParseUint10 (foneroplugin.StartVoteReply_EndHeight svr)
      = Some (if decide (duration < 2 ^ 32 - 1000) then 1000 + duration
              else duration - (2 ^ 32 - 1000))
    ∧ foneroplugin.StartVoteReply_EligibleTickets svr = [].
Proof.
  intros Hsv Henc vote duration Hduration out. subst out.
  unfold testpoliteiad.startVote. rewrite Hsv. fold vote. fold duration.
  set (svr := foneroplugin.Build_StartVoteReply _ _ _ _).
  destruct (Henc svr) as [svrb Hsvrb]. rewrite Hsvrb.
  exists svr. cbn [fst snd testpoliteiad.startVoteReplies testpoliteiad.startVotes].
  rewrite !lookup_insert_eq.
  split; [done|]. split; [done|]. split; [done|]. split; [done|].
  split; [done|]. split; [|done].
  subst svr. cbn [foneroplugin.StartVoteReply_EndHeight].
  assert (testpoliteiad.u32 (testpoliteiad.bestBlock + duration)
          = if decide (duration < 2 ^ 32 - 1000) then 1000 + duration
            else duration - (2 ^ 32 - 1000)) as ->.
  { unfold testpoliteiad.u32, testpoliteiad.bestBlock. case_decide.
    - apply Z.mod_small. lia.
    - symmetry. apply (Z.mod_unique _ _ 1); lia. }
  apply ParseUint10_FormatUint10. unfold Go.MaxUint64. case_decide; lia.
Qed.

Lemma testpoliteiad_startVote_end_height_witness :
  let out :=
    @testpoliteiad.startVote voteCodec
      (λ svr, Ok (foneroplugin.StartVoteReply_EndHeight svr))
      "pk,sig,p,3,4294967295,20,60"
      {| testpoliteiad.startVotes := ∅; testpoliteiad.startVoteReplies := ∅ |} in
  snd out = ("999", None).
Proof.
  intros out.
  destruct (@testpoliteiad_startVote_end_height voteCodec
              (λ svr, Ok (foneroplugin.StartVoteReply_EndHeight svr))
              "pk,sig,p,3,4294967295,20,60"
              {| testpoliteiad.startVotes := ∅;
                 testpoliteiad.startVoteReplies := ∅ |} _ eq_refl)
    as (svr & _ & _ & Henc & Herr & _).
  - intros svr. by eexists.
  - by vm_compute.
  - by vm_compute.
Defined.
